(** * hubcorner-music-studio: the music generation core, embedded in Rocq

    A shallow embedding of the server-side generation core
    ([server/services/professional-music-engine.ts],
    [server/services/music-generator.ts] and
    [server/services/professional-audio-renderer.ts]), the properties its
    specification states about it, and further properties of the synthesis
    layers, the placeholder generator, the renderer and the genetic
    generator, numbered X1 to X30.

    Conventions of the embedding.
    - A JavaScript number that the code computes with [Math.round] or
      [Math.floor] into an integer is a [Z]; a number that is a ratio of
      settings and decimal literals is a [Q], with the literal [0.7] read as
      the rational 7/10.  Where the integer depends on the rounding of a
      product or a quotient (the tempo, the bar of a sample) the operation
      is the binary64 one, [JS.mul64] or [JS.div64].  Elsewhere the
      statements are inequalities with slack or equalities between values
      computed the same way, so they do not depend on binary64 rounding;
      what is stated of a concrete input is a value a binary64 evaluation
      agrees on.
    - A number that may be [NaN] (an array read past its end is [undefined],
      and arithmetic on it is [NaN]) is an [option Z], [None] being [NaN].
    - Audio samples that go through [Math.tanh] and [Math.sin] are reals;
      where a sample can be [NaN] it is an [option R].  Bounds on such
      samples are stated with the margin that the rounding of the
      operations and the storage in a [Float32Array] need.
    - A key read from an object literal may be one of the keys the literal
      inherits from [Object.prototype] ([JS.inherited]); where the code
      can only pass a key of its own enumerations this is stated with the
      definition.
    - [Math.random()] reads the next element of a stream of draws.
    - A thrown exception is the [Throw] outcome of a computation.
    - Strings are ASCII. *)

From Stdlib Require Import ZArith QArith Qround Qminmax Qpower Qreals Reals.
From Stdlib Require Import Lqa Lra Lia.
From Stdlib Require Import List String Ascii Bool.
From stdpp Require Import base option list strings gmap.
Import ListNotations.

Local Open Scope Z_scope.

(** ** The JavaScript operations the code relies on *)

Module JS.

(** The exceptions the modelled code can raise. *)
Inductive error : Type :=
| TypeError
| RangeError.

(** A computation that returns or throws. *)
Inductive result (A : Type) : Type :=
| Return (a : A)
| Raise (e : error).

Arguments Return {A} a.
Arguments Raise {A} e.

#[global] Instance result_ret : MRet result := fun A a => Return a.

#[global] Instance result_bind : MBind result := fun A B f m =>
  match m with
  | Return a => f a
  | Raise e => Raise e
  end.

(** [Math.round]: the nearest integer, a tie going up. *)
Definition round (x : Q) : Z := Qfloor (x + (1 # 2)).

(** [Math.floor]. *)
Definition floor (x : Q) : Z := Qfloor x.

(** [x || d] on numbers: [0] is falsy. *)
Definition or_else (x d : Q) : Q := if Qeq_bool x 0 then d else x.

(** [x || d] on integers. *)
Definition or_elseZ (x d : Z) : Z := if x =? 0 then d else x.

(** [a % b], the remainder that takes the sign of [a]. *)
Definition rem (a b : Z) : Z := Z.rem a b.

(** Arithmetic on numbers that may be [NaN]. *)
Definition num : Type := option Z.

Definition add (a b : num) : num := x ← a; y ← b; Some (x + y).
Definition sub (a b : num) : num := x ← a; y ← b; Some (x - y).
Definition remn (a : num) (b : Z) : num := x ← a; Some (rem x b).

(** [a === b] on such numbers: [NaN] equals nothing. *)
Definition strict_eq (a b : num) : bool :=
  match a, b with
  | Some x, Some y => x =? y
  | _, _ => false
  end.

(** [arr[i]] for an index computed as a number. *)
Definition index {A} (arr : list A) (i : Z) : option A :=
  if i <? 0 then None else arr !! Z.to_nat i.

(** [String.prototype.toLowerCase] on ASCII. *)
Definition lower_char (c : ascii) : ascii :=
  let n := nat_of_ascii c in
  if ((65 <=? n) && (n <=? 90))%nat then ascii_of_nat (n + 32) else c.

Fixpoint toLowerCase (s : string) : string :=
  match s with
  | EmptyString => EmptyString
  | String c r => String (lower_char c) (toLowerCase r)
  end.

(** The ASCII characters of the regular expression class [\s]. *)
Definition is_space (c : ascii) : bool :=
  let n := nat_of_ascii c in
  ((9 <=? n) && (n <=? 13) || (n =? 32))%nat.

(** [s.split(re)] for a regular expression [re] that matches the non-empty
    runs of characters satisfying [sep]: the pieces between the runs, an
    empty piece included when the string starts or ends with a run. *)
Fixpoint split_go (sep : ascii -> bool) (s : string)
    (cur : list ascii) (in_run : bool) : list string :=
  match s with
  | EmptyString => [string_of_list_ascii (rev cur)]
  | String c r =>
      if sep c then
        if in_run then split_go sep r cur true
        else string_of_list_ascii (rev cur) :: split_go sep r [] true
      else split_go sep r (c :: cur) false
  end.

Definition split (sep : ascii -> bool) (s : string) : list string :=
  split_go sep s [] false.

(** [String.prototype.trim]. *)
Fixpoint trimStart (s : string) : string :=
  match s with
  | String c r => if is_space c then trimStart r else s
  | EmptyString => EmptyString
  end.

Fixpoint drop_spaces (l : list ascii) : list ascii :=
  match l with
  | c :: r => if is_space c then drop_spaces r else l
  | [] => []
  end.

Definition trimEnd (s : string) : string :=
  string_of_list_ascii (rev (drop_spaces (rev (list_ascii_of_string s)))).

Definition trim (s : string) : string := trimEnd (trimStart s).

(** [arr.includes(w)] and [arr.some(p)]. *)
Definition includes (arr : list string) (w : string) : bool :=
  existsb (String.eqb w) arr.

Definition some {A} (p : A -> bool) (arr : list A) : bool := existsb p arr.

(** [Math.floor] on a real number. *)
Definition floorR (x : R) : Z := Int_part x.

(** [Math.abs] on a rational number. *)
Definition absQ (x : Q) : Q := if Qlt_le_dec x 0 then (- x)%Q else x.

(** Binary64 arithmetic on the numbers whose rounding the code's result
    depends on.  A binary64 number is the rational it denotes; [fl x] is the
    binary64 number nearest to [x], a tie going to the even mantissa: with
    [e] such that [2^52 <= |x| / 2^e < 2^53], the mantissa [x / 2^e] is
    rounded to an integer.  The magnitudes the code reaches are far from
    the subnormal and the overflow range, which [fl] leaves out. *)
Definition roundEven (x : Q) : Z :=
  let f := Qfloor x in
  match (x - inject_Z f ?= 1 # 2)%Q with
  | Lt => f
  | Gt => f + 1
  | Eq => if Z.even f then f else f + 1
  end.

Definition binade (x : Q) : Z :=
  let e := Z.log2 (Z.abs (Qnum x)) - Z.log2 (Zpos (Qden x)) - 52 in
  if Qlt_le_dec (absQ x / 2 ^ e) (2 ^ 52) then e - 1 else e.

Definition fl (x : Q) : Q :=
  if Qeq_bool x 0 then 0%Q
  else let e := binade x in (inject_Z (roundEven (x / 2 ^ e)) * 2 ^ e)%Q.

(** [x * y] and [x / y] on numbers: the operands are the binary64 numbers
    of the literals or settings, the result is rounded once. *)
Definition mul64 (x y : Q) : Q := fl (fl x * fl y).
Definition div64 (x y : Q) : Q := fl (fl x / fl y).

(** The keys every object literal inherits from [Object.prototype]: [obj[k]]
    is a function (an object for [__proto__]), hence truthy, for such a
    key [k] that the literal does not define itself. *)
Definition prototypeKeys : list string :=
  ["constructor"; "__defineGetter__"; "__defineSetter__"; "hasOwnProperty";
   "__lookupGetter__"; "__lookupSetter__"; "isPrototypeOf";
   "propertyIsEnumerable"; "toString"; "valueOf"; "__proto__";
   "toLocaleString"]%string.

Definition inherited (k : string) : bool := includes prototypeKeys k.

(** [arr.slice(0, e)] and [arr.slice(b)]; a negative index counts from the
    end of the array. *)
Definition slice_to {A} (arr : list A) (e : Z) : list A :=
  if e <? 0 then take (length arr - Z.to_nat (- e)) arr else take (Z.to_nat e) arr.

Definition slice_from {A} (arr : list A) (b : Z) : list A :=
  if b <? 0 then drop (length arr - Z.to_nat (- b)) arr else drop (Z.to_nat b) arr.

End JS.

(** ** Computations that draw random numbers and may throw *)

Module Comp.

(** The source of randomness behind [Math.random()]: the stream of values
    it returns and the number already consumed. *)
Record Rng : Type := mkRng { draws : nat -> Q; cursor : nat }.

(** Every value of [Math.random()] is in [[0,1)]. *)
Definition rng_ok (g : Rng) : Prop :=
  forall n, (0 <= draws g n)%Q /\ (draws g n < 1)%Q.

Inductive outcome (A : Type) : Type :=
| Ok (a : A) (g : Rng)
| Throw (e : JS.error).

Arguments Ok {A} a g.
Arguments Throw {A} e.

Definition M (A : Type) : Type := Rng -> outcome A.

#[global] Instance M_ret : MRet M := fun A a g => Ok a g.

#[global] Instance M_bind : MBind M := fun A B f m g =>
  match m g with
  | Ok a g' => f a g'
  | Throw e => Throw e
  end.

Definition throw {A} (e : JS.error) : M A := fun _ => Throw e.

(** [Math.random()]. *)
Definition random : M Q :=
  fun g => Ok (draws g (cursor g)) (mkRng (draws g) (S (cursor g))).

(** Reading a property of a value that may be [undefined] throws a
    [TypeError] when it is. *)
Definition defined {A} (o : option A) : M A :=
  match o with
  | Some a => mret a
  | None => throw JS.TypeError
  end.

(** [arr.map(f)] for a callback that draws and may throw, left to right. *)
Fixpoint mapM {A B} (f : A -> M B) (l : list A) : M (list B) :=
  match l with
  | [] => mret []
  | a :: r => b ← f a; bs ← mapM f r; mret (b :: bs)
  end.

(** The value a computation returns, if it returns. *)
Definition value {A} (o : outcome A) : option A :=
  match o with
  | Ok a _ => Some a
  | Throw _ => None
  end.

(** A source of randomness that always returns [r]. *)
Definition constant_rng (r : Q) : Rng := mkRng (fun _ => r) 0.

End Comp.

(** ** Numbers of a [Float32Array], and Node's [Buffer] *)

Module Float.

(** A binary floating-point value: a rational, an infinity or [NaN]. *)
Inductive t : Type :=
| Finite (q : Q)
| PosInf
| NegInf
| NaN.

(** [Math.min(c, x)] and [Math.max(c, x)] for a finite constant [c]. *)
Definition min_with (c : Q) (x : t) : t :=
  match x with
  | Finite q => Finite (Qmin c q)
  | PosInf => Finite c
  | NegInf => NegInf
  | NaN => NaN
  end.

Definition max_with (c : Q) (x : t) : t :=
  match x with
  | Finite q => Finite (Qmax c q)
  | PosInf => PosInf
  | NegInf => Finite c
  | NaN => NaN
  end.

(** [x * k] for a constant [k > 0]. *)
Definition scale (x : t) (k : Q) : t :=
  match x with
  | Finite q => Finite (q * k)
  | other => other
  end.

(** [Math.round(x)]. *)
Definition round (x : t) : t :=
  match x with
  | Finite q => Finite (inject_Z (JS.round q))
  | other => other
  end.

(** The integer conversion behind a typed-array store and [>>>]: the
    fraction is dropped, and [NaN] and the infinities become [0]. *)
Definition toInteger (x : t) : Z :=
  match x with
  | Finite q => Z.quot (Qnum q) (Zpos (Qden q))
  | _ => 0
  end.

(** [x > c] and [x < c] for a finite [c]; both are false on [NaN]. *)
Definition gtb (x : t) (c : Q) : bool :=
  match x with
  | Finite q => negb (Qle_bool q c)
  | PosInf => true
  | _ => false
  end.

Definition ltb (x : t) (c : Q) : bool :=
  match x with
  | Finite q => negb (Qle_bool c q)
  | NegInf => true
  | _ => false
  end.

End Float.

Module NodeBuffer.

(** A [Buffer]: its bytes, each in [0..255]. *)
Definition Buffer : Type := list Z.

(** [Buffer.alloc(size)]: zero-filled.  The largest size Node accepts
    depends on its version and is not modelled. *)
Definition alloc (size : Z) : Buffer := replicate (Z.to_nat size) 0.

(** [buf[offset] = value] on the underlying [Uint8Array]: the low eight
    bits are kept; a store past the end does nothing. *)
Definition store (buf : Buffer) (offset : Z) (value : Z) : Buffer :=
  <[Z.to_nat offset := Z.land value 255]> buf.

(** [value >>> 8] on an integer: the shift of its residue modulo 2^32. *)
Definition ushr8 (value : Z) : Z := Z.shiftr (value mod 2 ^ 32) 8.

(** [checkBounds]: the bytes written must lie within the buffer. *)
Definition inBounds (buf : Buffer) (offset byteLength : Z) : bool :=
  (0 <=? offset) && (offset + byteLength <=? Z.of_nat (length buf)).

(** [buf.write(string, offset)] for an ASCII string that fits. *)
Fixpoint storeChars (buf : Buffer) (offset : Z) (s : string) : Buffer :=
  match s with
  | EmptyString => buf
  | String c r =>
      storeChars (store buf offset (Z.of_nat (nat_of_ascii c))) (offset + 1) r
  end.

Definition write (buf : Buffer) (s : string) (offset : Z) : JS.result Buffer :=
  if inBounds buf offset (Z.of_nat (String.length s))
  then mret (storeChars buf offset s)
  else JS.Raise JS.RangeError.

(** [buf.writeUInt32LE(value, offset)]: a [RangeError] unless
    [0 <= value <= 2^32 - 1] and the four bytes fit. *)
Definition writeUInt32LE (buf : Buffer) (value offset : Z) : JS.result Buffer :=
  if (0 <=? value) && (value <=? 4294967295) && inBounds buf offset 4 then
    let buf := store buf offset value in
    let value := ushr8 value in
    let buf := store buf (offset + 1) value in
    let value := ushr8 value in
    let buf := store buf (offset + 2) value in
    let value := ushr8 value in
    mret (store buf (offset + 3) value)
  else JS.Raise JS.RangeError.

(** [buf.writeUInt16LE(value, offset)]. *)
Definition writeUInt16LE (buf : Buffer) (value offset : Z) : JS.result Buffer :=
  if (0 <=? value) && (value <=? 65535) && inBounds buf offset 2 then
    let buf := store buf offset value in
    mret (store buf (offset + 1) (ushr8 value))
  else JS.Raise JS.RangeError.

(** [buf.writeInt16LE(value, offset)]: a [RangeError] when
    [value > 32767] or [value < -32768], neither of which holds of [NaN];
    then the two stores [buf[offset] = value] and
    [buf[offset + 1] = value >>> 8], each with its own integer conversion.
    Node documents the outcome for a [value] that is not an integer as
    undefined; this is what its implementation does with one. *)
Definition writeInt16LE (buf : Buffer) (value : Float.t) (offset : Z)
    : JS.result Buffer :=
  if Float.gtb value 32767 || Float.ltb value (-32768) then JS.Raise JS.RangeError
  else if inBounds buf offset 2 then
    let buf := store buf offset (Float.toInteger value) in
    mret (store buf (offset + 1) (ushr8 (Float.toInteger value)))
  else JS.Raise JS.RangeError.

(** The header of [createWAVBuffer], thirteen writes that the encoder of
    [MusicGenerator] and the one of [ProfessionalAudioRenderer] share
    line for line. *)
Definition writeWAVHeader (buffer : Buffer) (length sampleRate : Z)
    : JS.result Buffer :=
  buffer ← write buffer "RIFF" 0;
  buffer ← writeUInt32LE buffer (36 + length * 2) 4;
  buffer ← write buffer "WAVE" 8;
  buffer ← write buffer "fmt " 12;
  buffer ← writeUInt32LE buffer 16 16;
  buffer ← writeUInt16LE buffer 1 20;
  buffer ← writeUInt16LE buffer 1 22;
  buffer ← writeUInt32LE buffer sampleRate 24;
  buffer ← writeUInt32LE buffer (sampleRate * 2) 28;
  buffer ← writeUInt16LE buffer 2 32;
  buffer ← writeUInt16LE buffer 16 34;
  buffer ← write buffer "data" 36;
  writeUInt32LE buffer (length * 2) 40.

End NodeBuffer.

(** ** shared/schema: the generation settings *)

Module Schema.

(** [instruments]; its field [bass] is [bass_on] here, [bass] being the
    name of the bass level. *)
Record Instruments : Type := mkInstruments {
  drums : bool; bass_on : bool; synths : bool; pads : bool; arps : bool }.

(** The settings a generation request carries; [customPrompt] is optional. *)
Record GenerationSettings : Type := mkSettings {
  bass : Q;
  pace : Q;
  reverb : Q;
  distortion : Q;
  fadeIn : Q;
  fadeOut : Q;
  instruments : Instruments;
  mood : string;
  customPrompt : option string }.

(** The moods of the enumeration. *)
Definition moods : list string :=
  ["dreamy"; "dark"; "uplifting"; "melancholic"; "ethereal"; "nostalgic"]%string.

(** The settings the specification calls valid. *)
Definition valid (s : GenerationSettings) : Prop :=
  (0 <= bass s <= 100)%Q /\ (60 <= pace s <= 180)%Q /\
  (0 <= reverb s <= 100)%Q /\ (0 <= distortion s <= 100)%Q /\
  (0 <= fadeIn s <= 10)%Q /\ (0 <= fadeOut s <= 10)%Q /\
  mood s ∈ moods.

Definition with_mood (m : string) (s : GenerationSettings) : GenerationSettings :=
  mkSettings (bass s) (pace s) (reverb s) (distortion s) (fadeIn s) (fadeOut s)
    (instruments s) m (customPrompt s).

Definition with_reverb (r : Q) (s : GenerationSettings) : GenerationSettings :=
  mkSettings (bass s) (pace s) r (distortion s) (fadeIn s) (fadeOut s)
    (instruments s) (mood s) (customPrompt s).

Definition with_distortion (d : Q) (s : GenerationSettings) : GenerationSettings :=
  mkSettings (bass s) (pace s) (reverb s) d (fadeIn s) (fadeOut s)
    (instruments s) (mood s) (customPrompt s).

(** [getDefaultSettings] of [MusicGenerator]. *)
Definition getDefaultSettings : GenerationSettings :=
  mkSettings 50 85 70 20 3 3 (mkInstruments true true true true false)
    "dreamy" None.

End Schema.

(** ** professional-music-engine.ts: [MusicTheoryEngine] *)

Module MusicTheoryEngine.
Import Comp Schema.

Local Open Scope string_scope.

Record ChordProgression : Type := mkChord {
  roman : string;
  chord : string;
  intervals : list JS.num;
  tensions : list string;
  function : string;
  duration : Z }.

Record SectionBars : Type := mkSection { bars : Z; description : string }.

Record Sections : Type := mkSections {
  intro : SectionBars;
  verse : SectionBars;
  chorus : option SectionBars;
  bridge : option SectionBars;
  outro : SectionBars }.

Record ProfessionalSongStructure : Type := mkStructure {
  form : string;
  sections : Sections;
  totalBars : Z }.

Record BaseStructure : Type := mkBase {
  base_form : string;
  base_sections : Sections }.

Record MusicTheoryAnalysis : Type := mkAnalysis {
  key : option string;
  scale : list Z;
  chordProgression : list ChordProgression;
  songStructure : ProfessionalSongStructure;
  tempo : Z;
  mood : string;
  style : string;
  harmonicComplexity : string }.

Record ProgressionData : Type := mkProgression {
  progression : list string;
  name : string;
  popularity : Q }.

(** [CHORD_PROGRESSIONS['ambient-trap']]. *)
Definition CHORD_PROGRESSIONS : gmap string (list ProgressionData) :=
  list_to_map [
    ("dreamy", [
       mkProgression ["vi"; "IV"; "I"; "V"] "vi-IV-I-V (Melancholic)" (9 # 10);
       mkProgression ["i"; "VI"; "III"; "VII"] "Natural Minor Classic" (8 # 10);
       mkProgression ["i"; "v"; "VI"; "IV"] "Dorian Modal" (7 # 10) ]);
    ("dark", [
       mkProgression ["i"; "VII"; "VI"; "VII"] "Dark Phrygian" (9 # 10);
       mkProgression ["i"; "ii°"; "V"; "i"] "Harmonic Minor" (8 # 10);
       mkProgression ["i"; "VI"; "ii°"; "V"] "Gothic Progression" (7 # 10) ]);
    ("uplifting", [
       mkProgression ["I"; "V"; "vi"; "IV"] "Pop Progression" (9 # 10);
       mkProgression ["I"; "vi"; "ii"; "V"] "Turnaround" (8 # 10);
       mkProgression ["IV"; "V"; "vi"; "I"] "Ascending Resolution" (7 # 10) ])
  ].

Definition SCALES : gmap string (list Z) :=
  list_to_map [
    ("natural-minor", [0; 2; 3; 5; 7; 8; 10]%Z);
    ("harmonic-minor", [0; 2; 3; 5; 7; 8; 11]%Z);
    ("dorian", [0; 2; 3; 5; 7; 9; 10]%Z);
    ("phrygian", [0; 1; 3; 5; 7; 8; 10]%Z);
    ("major", [0; 2; 4; 5; 7; 9; 11]%Z);
    ("pentatonic-minor", [0; 3; 5; 7; 10]%Z)
  ].

(** [SONG_STRUCTURES['ambient-trap']]. *)
Definition SONG_STRUCTURES : BaseStructure :=
  mkBase "verse-chorus"
    (mkSections
       (mkSection 8 "Atmospheric pad introduction, soft percussion entry")
       (mkSection 16 "Main harmonic progression, melodic development")
       (Some (mkSection 8 "Peak energy, full arrangement, hook melody"))
       (Some (mkSection 8 "Contrasting harmony, breakdown or filter sweep"))
       (mkSection 8 "Fade with reverb tail, atmospheric decay")).

(** The first entry of an object, in insertion order, one of whose keywords
    is among [words]; the loops over [Object.entries] of
    [extractAdvancedMood] and [analyzeHarmonicComplexity]. *)
Definition first_entry (table : list (string * list string))
    (words : list string) (default : string) : string :=
  match List.find (fun entry =>
          JS.some (fun word => JS.includes (snd entry) word) words) table with
  | Some entry => fst entry
  | None => default
  end.

Definition moodKeywords : list (string * list string) := [
  ("dreamy", ["dreamy"; "ethereal"; "floating"; "soft"; "gentle"; "peaceful";
              "serene"; "ambient"]);
  ("dark", ["dark"; "mysterious"; "brooding"; "ominous"; "gothic"; "sinister";
            "moody"; "shadow"]);
  ("uplifting", ["uplifting"; "bright"; "happy"; "energetic"; "positive";
                 "euphoric"; "joyful"]);
  ("melancholic", ["sad"; "melancholic"; "tragic"; "somber"; "wistful";
                   "nostalgic"; "longing"]);
  ("ethereal", ["ethereal"; "ghostly"; "spiritual"; "otherworldly";
                "transcendent"; "celestial"]);
  ("nostalgic", ["nostalgic"; "vintage"; "retro"; "memory"; "reminiscent";
                 "yearning"]) ].

Definition extractAdvancedMood (words : list string) : string :=
  first_entry moodKeywords words "dreamy".

Definition extractMusicStyle (words : list string) : string :=
  if JS.some (JS.includes ["trap"; "hip"; "hop"; "beats"; "808"]) words
  then "trap"
  else if JS.some (JS.includes ["electronic"; "synth"; "digital"; "edm"]) words
  then "electronic"
  else if JS.some
            (JS.includes ["ambient"; "atmospheric"; "drone"; "soundscape"]) words
  then "ambient"
  else "ambient-trap".

Definition keysByMood : gmap string (list string) :=
  list_to_map [
    ("dreamy", ["Em"; "Am"; "Dm"; "F#m"]);
    ("dark", ["Dm"; "Gm"; "Cm"; "F#m"]);
    ("uplifting", ["C"; "G"; "D"; "A"]);
    ("melancholic", ["Am"; "Em"; "Bm"; "F#m"]);
    ("ethereal", ["Em"; "Bm"; "F#m"; "C#m"]);
    ("nostalgic", ["Am"; "Dm"; "G"; "Em"])
  ].

(** [Math.floor(Math.random() * arr.length)] and the read at that index. *)
Definition randomIndex {A} (arr : list A) : M Z :=
  r ← random; mret (JS.floor (r * inject_Z (Z.of_nat (length arr)))).

(** For a mood that is a key inherited from [Object.prototype] the read
    [keysByMood[mood]] is a function, or [Object.prototype] itself, which
    [||] keeps: whatever its [length], the element read from it is
    [undefined].  The callers pass the mood [extractAdvancedMood] returns,
    which is never such a key. *)
Definition selectProfessionalKey (mood style : string) : M (option string) :=
  if JS.inherited mood then _ ← random; mret None
  else
    let possibleKeys :=
      default (default [] (keysByMood !! "dreamy")) (keysByMood !! mood) in
    i ← randomIndex possibleKeys;
    mret (JS.index possibleKeys i).

Definition scaleByMood : gmap string string :=
  list_to_map [
    ("dreamy", "natural-minor");
    ("dark", "phrygian");
    ("uplifting", "major");
    ("melancholic", "natural-minor");
    ("ethereal", "dorian");
    ("nostalgic", "natural-minor")
  ].

(** Every scale name of [scaleByMood], and the fallback, is a key of
    [SCALES], so the last read never yields [undefined].  The mood is the
    one [extractAdvancedMood] returns, not a key inherited from
    [Object.prototype]. *)
Definition selectScale (mood style : string) : list Z :=
  let scaleName := default "natural-minor" (scaleByMood !! mood) in
  default [] (SCALES !! scaleName).

Definition tempoMultiplier (words : list string) : Q :=
  if JS.some (JS.includes ["slow"; "languid"; "dreamy"; "ambient"]) words
  then 7 # 10
  else if JS.some (JS.includes ["fast"; "energetic"; "driving"; "intense"]) words
  then 13 # 10
  else 1.

(** The product is the binary64 one: [85 * 0.7] is [59.49999999999999],
    which [Math.round] takes to [59]. *)
Definition calculateProfessionalTempo (words : list string) (baseTempo : Q) : Z :=
  JS.round (JS.mul64 baseTempo (tempoMultiplier words)).

Definition noteToNumber : gmap string Z :=
  list_to_map [
    ("C", 0); ("C#", 1); ("Db", 1); ("D", 2); ("D#", 3); ("Eb", 3); ("E", 4);
    ("F", 5); ("F#", 6); ("Gb", 6); ("G", 7); ("G#", 8); ("Ab", 8); ("A", 9);
    ("A#", 10); ("Bb", 10); ("B", 11)
  ]%Z.

(** [key.replace(/m$/, '')]. *)
Fixpoint removeFinalM (s : string) : string :=
  match s with
  | EmptyString => EmptyString
  | String c EmptyString => if Ascii.eqb c "m" then EmptyString else s
  | String c r => String c (removeFinalM r)
  end.

(** [key] is [undefined] when the key list was read out of range, and
    calling [replace] on it throws. *)
Definition parseKey (key : option string) : M Z :=
  k ← defined key;
  let noteName := removeFinalM k in
  mret (JS.or_elseZ (default 0%Z (noteToNumber !! noteName)) 0).

Definition romanMap : gmap string Z :=
  list_to_map [
    ("I", 0); ("ii", 1); ("iii", 2); ("IV", 3); ("V", 4); ("vi", 5);
    ("vii°", 6);
    ("i", 0); ("II", 1); ("III", 2); ("iv", 3); ("v", 4); ("VI", 5);
    ("VII", 6)
  ]%Z.

Definition addChordTensions (roman : string) (intervals : list JS.num)
    : M (list string) :=
  let tensions := [] in
  r1 ← random;
  let tensions := if Qlt_le_dec (1 # 2) r1 then (tensions ++ ["7"])%list else tensions in
  r2 ← random;
  let tensions := if Qlt_le_dec (7 # 10) r2 then (tensions ++ ["add9"])%list else tensions in
  r3 ← random;
  if Qlt_le_dec (8 # 10) r3 then
    r4 ← random;
    mret (tensions ++ [if Qlt_le_dec (1 # 2) r4 then "sus2" else "sus4"])%list
  else mret tensions.

Definition noteNames : list string :=
  ["C"; "C#"; "D"; "D#"; "E"; "F"; "F#"; "G"; "G#"; "A"; "A#"; "B"].

Definition intervalsToChordName (root : JS.num) (intervals : list JS.num)
    (tensions : list string) : string :=
  let rootName := default "undefined" (r ← root; JS.index noteNames r) in
  let thirdInterval :=
    JS.sub (mjoin (intervals !! 1%nat)) (mjoin (intervals !! 0%nat)) in
  let quality := if JS.strict_eq thirdInterval (Some 3%Z) then "m" else "" in
  let tensionString := String.concat "" tensions in
  rootName ++ quality ++ tensionString.

Record ChordInfo : Type := mkChordInfo {
  info_name : string;
  info_intervals : list JS.num;
  info_tensions : list string }.

(** The numerals passed are those of [CHORD_PROGRESSIONS]; the read
    [romanMap[roman]] is modelled for the numerals that are not keys
    inherited from [Object.prototype]. *)
Definition romanToChord (roman : string) (root : Z) (scale : list Z)
    : M ChordInfo :=
  let degree := JS.or_elseZ (default 0%Z (romanMap !! roman)) 0 in
  let chordRoot := JS.remn (JS.add (Some root) (JS.index scale degree)) 12 in
  let intervals := [
    chordRoot;
    JS.remn (JS.sub (JS.add chordRoot (JS.index scale (degree + 2)))
                    (JS.index scale degree)) 12;
    JS.remn (JS.sub (JS.add chordRoot (JS.index scale (degree + 4)))
                    (JS.index scale degree)) 12 ] in
  tensions ← addChordTensions roman intervals;
  mret (mkChordInfo (intervalsToChordName chordRoot intervals tensions)
          intervals tensions).

Definition functions : gmap string string :=
  list_to_map [
    ("I", "tonic"); ("i", "tonic"); ("vi", "tonic"); ("VI", "tonic");
    ("IV", "subdominant"); ("iv", "subdominant");
    ("ii", "predominant"); ("II", "predominant");
    ("V", "dominant"); ("v", "dominant"); ("VII", "dominant");
    ("vii°", "dominant")
  ].

(** As for [romanToChord], the numeral is not an inherited key. *)
Definition getHarmonicFunction (roman : string) : string :=
  default "tonic" (functions !! roman).

(** [progressionData] is [undefined] for a mood without an entry in
    [CHORD_PROGRESSIONS], and reading its [length] throws; so does reading
    [progression] of an entry read out of range. *)
Definition generateProfessionalChordProgression
    (key : option string) (scale : list Z) (mood style : string)
    : M (list ChordProgression) :=
  let progressionData := CHORD_PROGRESSIONS !! mood in
  r ← random;
  data ← defined progressionData;
  let i := JS.floor (r * inject_Z (Z.of_nat (length data))) in
  let selectedProgression := JS.index data i in
  rootNote ← parseKey key;
  selected ← defined selectedProgression;
  mapM (fun roman =>
          chordInfo ← romanToChord roman rootNote scale;
          mret (mkChord roman (info_name chordInfo) (info_intervals chordInfo)
                  (info_tensions chordInfo) (getHarmonicFunction roman) 4))
       (progression selected).

Definition barMultiplier (tempo : Z) : Q :=
  if (tempo <? 80)%Z then 3 # 2 else if (120 <? tempo)%Z then 8 # 10 else 1.

Definition createProfessionalStructure (style : string) (tempo : Z)
    : ProfessionalSongStructure :=
  let baseStructure := SONG_STRUCTURES in
  let tempoMultiplier := barMultiplier tempo in
  let scaled (s : SectionBars) :=
    mkSection (JS.round (inject_Z (bars s) * tempoMultiplier)) (description s) in
  mkStructure (base_form baseStructure)
    (mkSections
       (scaled (intro (base_sections baseStructure)))
       (scaled (verse (base_sections baseStructure)))
       (scaled <$> chorus (base_sections baseStructure))
       (scaled <$> bridge (base_sections baseStructure))
       (scaled (outro (base_sections baseStructure))))
    (JS.round (inject_Z (8 + 16 + 8 + 8 + 8) * tempoMultiplier)).

Definition complexityKeywords : list (string * list string) := [
  ("simple", ["simple"; "basic"; "minimal"; "clean"]);
  ("medium", ["smooth"; "flowing"; "melodic"; "harmonic"]);
  ("complex", ["complex"; "sophisticated"; "jazz"; "advanced"; "intricate"]) ].

Definition analyzeHarmonicComplexity (words : list string) : string :=
  first_entry complexityKeywords words "medium".

(** The separators of [/[\s,.-]+/]. *)
Definition is_separator (c : ascii) : bool :=
  JS.is_space c || Ascii.eqb c "," || Ascii.eqb c "." || Ascii.eqb c "-".

Definition promptWords (prompt : string) : list string :=
  JS.split is_separator (JS.toLowerCase prompt).

Definition analyzePromptAdvanced (prompt : string) (settings : GenerationSettings)
    : M MusicTheoryAnalysis :=
  let words := promptWords prompt in
  let mood := extractAdvancedMood words in
  let style := extractMusicStyle words in
  let tempo := calculateProfessionalTempo words (JS.or_else (pace settings) 85) in
  key ← selectProfessionalKey mood style;
  let scale := selectScale mood style in
  chordProgression ← generateProfessionalChordProgression key scale mood style;
  let songStructure := createProfessionalStructure style tempo in
  let harmonicComplexity := analyzeHarmonicComplexity words in
  mret (mkAnalysis key scale chordProgression songStructure tempo mood style
          harmonicComplexity).

End MusicTheoryEngine.

(** ** professional-music-engine.ts: [ProfessionalSynthEngine] *)

Module ProfessionalSynthEngine.
Import Schema.
Local Open Scope string_scope.

Record Envelope : Type := mkEnvelope {
  attack : Q; decay : Q; sustain : Q; release : Q }.

Record LayerFilter : Type := mkLayerFilter {
  filter_type : string; filter_frequency : Q; filter_resonance : Q }.

Record ReverbFx : Type := mkReverbFx {
  roomSize : Q; damping : Q; reverb_wetLevel : Q }.

Record DelayFx : Type := mkDelayFx {
  delay_time : Q; feedback : Q; delay_wetLevel : Q }.

Record DistortionFx : Type := mkDistortionFx {
  amount : Q; distortion_type : string }.

Record ChorusFx : Type := mkChorusFx {
  rate : Q; depth : Q; chorus_wetLevel : Q }.

Record FilterFx : Type := mkFilterFx {
  fx_frequency : Q; fx_resonance : Q; fx_type : string }.

(** [EffectsChain]. *)
Record EffectsChain : Type := mkEffectsChain {
  fx_reverb : ReverbFx;
  fx_delay : DelayFx;
  fx_distortion : DistortionFx;
  fx_chorus : ChorusFx;
  fx_filter : FilterFx }.

(** [SynthLayer]; a step of a [pattern] is [None] when it was read off the
    end of an array. *)
Record SynthLayer : Type := mkLayer {
  type : string;
  oscillator : string;
  envelope : Envelope;
  filter : LayerFilter;
  effects : EffectsChain;
  pattern : option (list (option Q));
  volume : Q }.

(** [new Array(64).fill(0)] with the downbeats set, and the syncopated hits
    above 100 BPM. *)
Definition generateBassPattern
    (chordProgression : list MusicTheoryEngine.ChordProgression) (tempo : Z)
    : list Q :=
  let pattern := replicate 64 0%Q in
  let pattern := <[0%nat := 1%Q]> pattern in
  let pattern := <[16%nat := 1%Q]> pattern in
  let pattern := <[32%nat := 1%Q]> pattern in
  let pattern := <[48%nat := 1%Q]> pattern in
  if (100 <? tempo)%Z then
    let pattern := <[6%nat := 7 # 10]> pattern in
    let pattern := <[22%nat := 7 # 10]> pattern in
    let pattern := <[38%nat := 7 # 10]> pattern in
    <[54%nat := 7 # 10]> pattern
  else pattern.

(** The step size of the arpeggio. *)
Definition arpeggioStepSize (tempo : Z) : Z :=
  if (tempo <? 80)%Z then 8 else if (120 <? tempo)%Z then 4 else 6.

(** The body of the loop of [generateArpeggioPattern] at step [i]: the
    scale note of the step, read at [floor(i / stepSize) % scale.length],
    or 0 between the steps. *)
Definition arpeggioStep (scale : list Z) (stepSize : Z) (i : Z) : option Z :=
  if (JS.rem i stepSize =? 0)%Z then
    let scaleIndex := JS.rem (i / stepSize)%Z (Z.of_nat (length scale)) in
    JS.index scale scaleIndex
  else Some 0%Z.

(** [generateArpeggioPattern]: the steps 0 to 63, assigned in order to an
    empty array. *)
Definition generateArpeggioPattern (scale : list Z) (tempo : Z)
    : list (option Z) :=
  let stepSize := arpeggioStepSize tempo in
  (fun i => arpeggioStep scale stepSize (Z.of_nat i)) <$> seq 0 64.

(** The hi-hat loop of [generateTrapPattern]: [i = 4, 12, ..., 60]. *)
Definition hihats (pattern : list Q) : list Q :=
  foldl (fun p k => <[(4 + 8 * k)%nat := 3 # 10]> p) pattern (seq 0 8).

Definition generateTrapPattern (tempo : Z) : list Q :=
  let pattern := replicate 64 0%Q in
  let pattern := <[0%nat := 1%Q]> pattern in
  let pattern := <[24%nat := 8 # 10]> pattern in
  let pattern := <[32%nat := 1%Q]> pattern in
  let pattern := <[56%nat := 8 # 10]> pattern in
  let pattern := hihats pattern in
  let pattern := <[16%nat := 9 # 10]> pattern in
  <[48%nat := 9 # 10]> pattern.

Definition createChordPadLayer (analysis : MusicTheoryEngine.MusicTheoryAnalysis)
    (settings : GenerationSettings) : SynthLayer :=
  mkLayer "pad" "sawtooth"
    (mkEnvelope 2 (5 # 10) (8 # 10) 3)
    (mkLayerFilter "lowpass" (800 + (reverb settings / 100) * 1200) (3 # 10))
    (mkEffectsChain
       (mkReverbFx (8 # 10) (3 # 10) (reverb settings / 100))
       (mkDelayFx (3 # 10) (4 # 10) (2 # 10))
       (mkDistortionFx (distortion settings / 100) "tape")
       (mkChorusFx (5 # 10) (3 # 10) (3 # 10))
       (mkFilterFx 1000 (2 # 10) "lowpass"))
    None
    (4 # 10).

Definition createProfessionalBassLayer
    (analysis : MusicTheoryEngine.MusicTheoryAnalysis)
    (settings : GenerationSettings) : SynthLayer :=
  let pattern :=
    generateBassPattern (MusicTheoryEngine.chordProgression analysis)
      (MusicTheoryEngine.tempo analysis) in
  mkLayer "bass" "sine"
    (mkEnvelope (1 # 100) (8 # 10) (3 # 10) (5 # 10))
    (mkLayerFilter "lowpass" 200 (1 # 10))
    (mkEffectsChain
       (mkReverbFx (2 # 10) (8 # 10) (1 # 10))
       (mkDelayFx 0 0 0)
       (mkDistortionFx (distortion settings / 200) "tape")
       (mkChorusFx 0 0 0)
       (mkFilterFx 80 (5 # 10) "lowpass"))
    (Some (Some <$> pattern))
    (bass settings / 100).

Definition createArpeggioLayer (analysis : MusicTheoryEngine.MusicTheoryAnalysis)
    (settings : GenerationSettings) : SynthLayer :=
  mkLayer "arp" "triangle"
    (mkEnvelope (5 # 100) (3 # 10) (2 # 10) (8 # 10))
    (mkLayerFilter "lowpass" 2000 (4 # 10))
    (mkEffectsChain
       (mkReverbFx (6 # 10) (4 # 10) (6 # 10))
       (mkDelayFx (25 # 100) (3 # 10) (4 # 10))
       (mkDistortionFx (1 # 10) "tube")
       (mkChorusFx (8 # 10) (4 # 10) (5 # 10))
       (mkFilterFx 1500 (3 # 10) "bandpass"))
    (Some ((fun note : option Z => inject_Z <$> note)
             <$> generateArpeggioPattern (MusicTheoryEngine.scale analysis)
                   (MusicTheoryEngine.tempo analysis)))
    (25 # 100).

Definition createTrapPercussionLayer
    (analysis : MusicTheoryEngine.MusicTheoryAnalysis)
    (settings : GenerationSettings) : SynthLayer :=
  mkLayer "percussion" "noise"
    (mkEnvelope (1 # 1000) (1 # 10) 0 (1 # 10))
    (mkLayerFilter "highpass" 8000 (1 # 10))
    (mkEffectsChain
       (mkReverbFx (4 # 10) (6 # 10) (3 # 10))
       (mkDelayFx (125 # 1000) (2 # 10) (1 # 10))
       (mkDistortionFx (2 # 10) "digital")
       (mkChorusFx 0 0 0)
       (mkFilterFx 4000 (2 # 10) "bandpass"))
    (Some (Some <$> generateTrapPattern (MusicTheoryEngine.tempo analysis)))
    (3 # 10).

Definition createSynthLeadLayer (analysis : MusicTheoryEngine.MusicTheoryAnalysis)
    (settings : GenerationSettings) : SynthLayer :=
  mkLayer "lead" "sawtooth"
    (mkEnvelope (1 # 10) (4 # 10) (6 # 10) 1)
    (mkLayerFilter "lowpass" 1500 (6 # 10))
    (mkEffectsChain
       (mkReverbFx (5 # 10) (5 # 10) (4 # 10))
       (mkDelayFx (375 # 1000) (3 # 10) (3 # 10))
       (mkDistortionFx (distortion settings / 150) "tube")
       (mkChorusFx (12 # 10) (6 # 10) (4 # 10))
       (mkFilterFx 1200 (4 # 10) "lowpass"))
    None
    (2 # 10).

Definition createAtmosphericLayer (analysis : MusicTheoryEngine.MusicTheoryAnalysis)
    (settings : GenerationSettings) : SynthLayer :=
  mkLayer "texture" "noise"
    (mkEnvelope 5 2 (4 # 10) 8)
    (mkLayerFilter "bandpass" 500 (1 # 10))
    (mkEffectsChain
       (mkReverbFx (9 # 10) (2 # 10) (8 # 10))
       (mkDelayFx (5 # 10) (6 # 10) (5 # 10))
       (mkDistortionFx (5 # 100) "tape")
       (mkChorusFx (2 # 10) (8 # 10) (6 # 10))
       (mkFilterFx 400 (1 # 10) "lowpass"))
    None
    (15 # 100).

(** [createSynthLayers]: a layer is pushed for each instrument that is
    switched on, and the atmospheric layer after them. *)
Definition createSynthLayers (analysis : MusicTheoryEngine.MusicTheoryAnalysis)
    (settings : GenerationSettings) : list SynthLayer :=
  let layers := [] in
  let layers :=
    if pads (instruments settings)
    then (layers ++ [createChordPadLayer analysis settings])%list else layers in
  let layers :=
    if bass_on (instruments settings)
    then (layers ++ [createProfessionalBassLayer analysis settings])%list else layers in
  let layers :=
    if arps (instruments settings)
    then (layers ++ [createArpeggioLayer analysis settings])%list else layers in
  let layers :=
    if drums (instruments settings)
    then (layers ++ [createTrapPercussionLayer analysis settings])%list else layers in
  let layers :=
    if synths (instruments settings)
    then (layers ++ [createSynthLeadLayer analysis settings])%list else layers in
  (layers ++ [createAtmosphericLayer analysis settings])%list.

End ProfessionalSynthEngine.

(** ** music-generator.ts: [MusicGenerator], durations and song structures *)

Module MusicGenerator.
Import Comp Schema.

Local Open Scope string_scope.

Record TimeRange : Type := mkRange { start : Q; end_ : Q }.

(** [GenerationMetadata.structure]. *)
Record Structure : Type := mkTimeline {
  intro : TimeRange;
  verse : TimeRange;
  hook : TimeRange;
  bridge : TimeRange;
  outro : TimeRange }.

(** [GenerationMetadata], without the title (a random pick that nothing
    else depends on). *)
Record GenerationMetadata : Type := mkMetadata {
  prompt : string;
  duration : Z;
  structure : Structure }.

Definition moodMultipliers : gmap string Q :=
  list_to_map [
    ("dreamy", 12 # 10); ("dark", 11 # 10); ("uplifting", 9 # 10);
    ("melancholic", 13 # 10); ("ethereal", 14 # 10); ("nostalgic", 11 # 10)
  ].

(** [Math.min(180, Math.max(90, Math.floor(baseDuration)))]. *)
Definition clampDuration (baseDuration : Q) : Z :=
  Z.min 180 (Z.max 90 (JS.floor baseDuration)).

(** [calculateDynamicDuration]; [generationCount] is the instance counter,
    incremented by [generateSong] before this is called. *)
Definition calculateDynamicDuration (generationCount : Z)
    (settings : GenerationSettings) : Z :=
  let baseDuration := inject_Z (120 + generationCount * 5) in
  let multiplier :=
    JS.or_else (default 0%Q (moodMultipliers !! Schema.mood settings)) 1 in
  let baseDuration := (baseDuration * multiplier)%Q in
  let baseDuration :=
    if Qlt_le_dec (pace settings) 80 then (baseDuration * (12 # 10))%Q
    else if Qlt_le_dec 120 (pace settings) then (baseDuration * (8 # 10))%Q
    else baseDuration in
  clampDuration baseDuration.

Record Ratios : Type := mkRatios {
  r_intro : Q; r_verse : Q; r_hook : Q; r_bridge : Q; r_outro : Q }.

Definition structures : list Ratios := [
  mkRatios (1 # 10) (25 # 100) (4 # 10) (15 # 100) (1 # 10);
  mkRatios (2 # 10) (3 # 10) (3 # 10) (1 # 10) (1 # 10);
  mkRatios (1 # 10) (2 # 10) (5 # 10) (1 # 10) (1 # 10);
  mkRatios (15 # 100) (35 # 100) (25 # 100) (15 # 100) (1 # 10) ].

(** [generateEvolvedStructure]; the index [generationCount % 4] is within
    the four entries for every count [generateSong] can reach. *)
Definition generateEvolvedStructure (generationCount : Z)
    (settings : GenerationSettings) : option Structure :=
  let duration := inject_Z (calculateDynamicDuration generationCount settings) in
  let structureIndex := JS.rem generationCount (Z.of_nat (length structures)) in
  ratios ← JS.index structures structureIndex;
  let currentTime := 0%Q in
  let intro := mkRange currentTime (currentTime + duration * r_intro ratios) in
  let currentTime := end_ intro in
  let verse := mkRange currentTime (currentTime + duration * r_verse ratios) in
  let currentTime := end_ verse in
  let hook := mkRange currentTime (currentTime + duration * r_hook ratios) in
  let currentTime := end_ hook in
  let bridge := mkRange currentTime (currentTime + duration * r_bridge ratios) in
  let currentTime := end_ bridge in
  let outro := mkRange currentTime duration in
  Some (mkTimeline intro verse hook bridge outro).

Definition calculateProfessionalDuration
    (musicAnalysis : MusicTheoryEngine.MusicTheoryAnalysis)
    (settings : GenerationSettings) : Z :=
  let tempo := MusicTheoryEngine.tempo musicAnalysis in
  let baseDuration := 120%Q in
  let baseDuration :=
    if (tempo <? 80)%Z then (baseDuration * (13 # 10))%Q
    else if (120 <? tempo)%Z then (baseDuration * (8 # 10))%Q
    else baseDuration in
  let multiplier :=
    JS.or_else
      (default 0%Q (moodMultipliers !! MusicTheoryEngine.mood musicAnalysis)) 1 in
  let baseDuration := (baseDuration * multiplier)%Q in
  let structureMultiplier :=
    (inject_Z (MusicTheoryEngine.totalBars
                 (MusicTheoryEngine.songStructure musicAnalysis)) / 48)%Q in
  let baseDuration := (baseDuration * structureMultiplier)%Q in
  clampDuration baseDuration.

(** [a?.bars || b]: the bar count of an optional section, or [b] when the
    section is missing or its count is [0]. *)
Definition barsOr (s : option MusicTheoryEngine.SectionBars) (b : Q) : Q :=
  JS.or_else (default 0%Q ((fun x => inject_Z (MusicTheoryEngine.bars x)) <$> s)) b.

Definition createProfessionalSongStructure (duration : Z)
    (musicAnalysis : MusicTheoryEngine.MusicTheoryAnalysis) : Structure :=
  let sections :=
    MusicTheoryEngine.sections (MusicTheoryEngine.songStructure musicAnalysis) in
  let beatsPerSecond := (inject_Z (MusicTheoryEngine.tempo musicAnalysis) / 60)%Q in
  let barDuration := (4 / beatsPerSecond)%Q in
  let verseBars := inject_Z (MusicTheoryEngine.bars (MusicTheoryEngine.verse sections)) in
  let currentTime := 0%Q in
  let intro :=
    mkRange currentTime
      (currentTime
       + inject_Z (MusicTheoryEngine.bars (MusicTheoryEngine.intro sections))
         * barDuration) in
  let currentTime := end_ intro in
  let verse := mkRange currentTime (currentTime + verseBars * barDuration) in
  let currentTime := end_ verse in
  let hook :=
    mkRange currentTime
      (currentTime
       + barsOr (MusicTheoryEngine.chorus sections) verseBars * barDuration) in
  let currentTime := end_ hook in
  let bridge :=
    mkRange currentTime
      (currentTime
       + barsOr (MusicTheoryEngine.bridge sections) (verseBars * (1 # 2))
         * barDuration) in
  let currentTime := end_ bridge in
  let outro := mkRange currentTime (inject_Z duration) in
  mkTimeline intro verse hook bridge outro.

(** [createCustomPrompt] of the current generator: the trimmed custom
    prompt, or a fixed request when there is none. *)
Definition createCustomPrompt (settings : GenerationSettings) : string :=
  match customPrompt settings with
  | Some p => if String.eqb (JS.trim p) "" then "Create an ambient music track"
              else JS.trim p
  | None => "Create an ambient music track"
  end.

(** The analysis and the metadata of [generateEnhancedFallback].  The
    synthesis layers and the rendered audio lie between the two in the
    source and do not feed into the metadata. *)
Definition generateEnhancedFallback (settings : GenerationSettings)
    : M (MusicTheoryEngine.MusicTheoryAnalysis * GenerationMetadata) :=
  let prompt := createCustomPrompt settings in
  musicAnalysis ← MusicTheoryEngine.analyzePromptAdvanced prompt settings;
  let duration := calculateProfessionalDuration musicAnalysis settings in
  let songStructure := createProfessionalSongStructure duration musicAnalysis in
  mret (musicAnalysis,
        mkMetadata ("Professional: " ++ prompt) duration songStructure).

(** [createWAVBuffer] of [MusicGenerator]: the clamped sample times
    [0x7FFF] goes to [writeInt16LE] as it is. *)
Fixpoint writeSamples (i : Z) (audioData : list Float.t)
    (buffer : NodeBuffer.Buffer) : JS.result NodeBuffer.Buffer :=
  match audioData with
  | [] => mret buffer
  | x :: rest =>
      let sample := Float.max_with (-1) (Float.min_with 1 x) in
      buffer ← NodeBuffer.writeInt16LE buffer (Float.scale sample 32767)
                 (44 + i * 2);
      writeSamples (i + 1) rest buffer
  end.

Definition createWAVBuffer (audioData : list Float.t) (sampleRate : Z)
    : JS.result NodeBuffer.Buffer :=
  let length := Z.of_nat (List.length audioData) in
  let buffer := NodeBuffer.alloc (44 + length * 2) in
  buffer ← NodeBuffer.writeWAVHeader buffer length sampleRate;
  writeSamples 0 audioData buffer.

(** *** The placeholder generator: durations, sections and the prompt *)

(** [getRandomDuration]. *)
Definition getRandomDuration : M Z :=
  r ← random; mret (JS.floor (r * 61) + 120)%Z.

(** [generateSongStructure]: the section ends are whole seconds. *)
Definition generateSongStructure (duration : Z) : Structure :=
  let intro := mkRange 0 (inject_Z (JS.floor (inject_Z duration * (15 # 100)))) in
  let verse :=
    mkRange (end_ intro) (inject_Z (JS.floor (inject_Z duration * (4 # 10)))) in
  let hook :=
    mkRange (end_ verse) (inject_Z (JS.floor (inject_Z duration * (65 # 100)))) in
  let bridge :=
    mkRange (end_ hook) (inject_Z (JS.floor (inject_Z duration * (85 # 100)))) in
  let outro := mkRange (end_ bridge) (inject_Z duration) in
  mkTimeline intro verse hook bridge outro.

(** The separators of [/[\s,]+/]. *)
Definition is_word_separator (c : ascii) : bool :=
  JS.is_space c || Ascii.eqb c ",".

(** The result of [analyzePrompt]. *)
Record PromptAnalysis : Type := mkPromptAnalysis {
  pa_tempo : string;
  pa_mood : string;
  pa_style : string;
  pa_effects : list string;
  pa_energy : string;
  randomSeed : Q }.

Definition extractTempo (words : list string) : string :=
  if JS.some (JS.includes ["slow"; "languid"; "dreamy"]) words then "slow"
  else if JS.some (JS.includes ["fast"; "uptempo"; "energetic"]) words then "fast"
  else if JS.some (JS.includes ["medium"; "moderate"]) words then "medium"
  else "slow".

Definition extractMood (words : list string) : string :=
  if JS.some (JS.includes ["dark"; "brooding"; "mysterious"; "ominous"]) words
  then "dark"
  else if JS.some (JS.includes ["happy"; "uplifting"; "bright"; "cheerful"]) words
  then "uplifting"
  else if JS.some (JS.includes ["sad"; "melancholic"; "somber"; "tragic"]) words
  then "melancholic"
  else if JS.some
            (JS.includes ["ethereal"; "ghostly"; "spiritual"; "otherworldly"]) words
  then "ethereal"
  else if JS.some (JS.includes ["nostalgic"; "vintage"; "retro"; "memory"]) words
  then "nostalgic"
  else "dreamy".

Definition extractStyle (words : list string) : string :=
  if JS.some (JS.includes ["trap"; "hip"; "hop"; "beats"]) words then "trap"
  else if JS.some (JS.includes ["ambient"; "atmospheric"; "soundscape"]) words
  then "ambient"
  else if JS.some (JS.includes ["electronic"; "synth"; "digital"]) words
  then "electronic"
  else if JS.some (JS.includes ["classical"; "orchestral"; "piano"]) words
  then "classical"
  else "ambient".

Definition extractEffects (words : list string) : list string :=
  let effects := [] in
  let effects :=
    if JS.some (JS.includes ["reverb"; "echo"; "spacious"; "hall"]) words
    then (effects ++ ["reverb"])%list else effects in
  let effects :=
    if JS.some (JS.includes ["distortion"; "gritty"; "harsh"; "dirty"]) words
    then (effects ++ ["distortion"])%list else effects in
  let effects :=
    if JS.some (JS.includes ["delay"; "repeat"; "echo"]) words
    then (effects ++ ["delay"])%list else effects in
  if JS.some (JS.includes ["filter"; "sweep"; "wobble"]) words
  then (effects ++ ["filter"])%list else effects.

Definition extractEnergy (words : list string) : string :=
  if JS.some (JS.includes ["high"; "intense"; "powerful"; "strong"]) words
  then "high"
  else if JS.some (JS.includes ["low"; "subtle"; "gentle"; "soft"]) words
  then "low"
  else "medium".

Definition analyzePrompt (prompt : string) : M PromptAnalysis :=
  let words := JS.split is_word_separator (JS.toLowerCase prompt) in
  randomSeed ← random;
  mret (mkPromptAnalysis (extractTempo words) (extractMood words)
          (extractStyle words) (extractEffects words) (extractEnergy words)
          randomSeed).

(** [selectKeyFromPrompt]; the result is [undefined] when the index falls
    outside [keys]. *)
Definition selectKeyFromPrompt {A} (keys : list A) (analysis : PromptAnalysis)
    : option A :=
  let length := Z.of_nat (List.length keys) in
  let keyIndex := JS.floor (randomSeed analysis * inject_Z length) in
  let keyIndex :=
    if String.eqb (pa_mood analysis) "dark"
    then Z.min (keyIndex + 1) (length - 1) else keyIndex in
  let keyIndex :=
    if String.eqb (pa_mood analysis) "uplifting"
    then Z.max (keyIndex - 1) 0 else keyIndex in
  JS.index keys keyIndex.

(** [generateMelodicScale]: frequency ratios, slightly detuned. *)
Definition melodicScales : gmap string (list Q) :=
  list_to_map [
    ("dreamy", [1; 1125 # 1000; 12 # 10; 1333 # 1000; 15 # 10; 16 # 10;
                18 # 10; 2]%Q);
    ("dark", [1; 1067 # 1000; 12 # 10; 1333 # 1000; 15 # 10; 16 # 10;
              1778 # 1000; 2]%Q);
    ("uplifting", [1; 1125 # 1000; 126 # 100; 1333 # 1000; 15 # 10;
                   1682 # 1000; 1888 # 1000; 2]%Q);
    ("ethereal", [1; 1059 # 1000; 1189 # 1000; 1335 # 1000; 1498 # 1000;
                  1682 # 1000; 1888 # 1000; 2]%Q)
  ].

(** [scales[analysis.mood] || scales.dreamy] is a function, or
    [Object.prototype], for a mood that is an inherited key, and
    [baseScale.map] is then not a function. *)
Definition generateMelodicScale (analysis : PromptAnalysis)
    : JS.result (list Q) :=
  if JS.inherited (pa_mood analysis) then JS.Raise JS.TypeError
  else
    let baseScale :=
      default (default [] (melodicScales !! "dreamy"))
        (melodicScales !! pa_mood analysis) in
    mret ((fun note => note * ((995 # 1000) + randomSeed analysis * (1 # 100)))%Q
            <$> baseScale).

(** [generateRhythmPatterns]. *)
Record RhythmPatterns : Type := mkRhythm {
  kick : list Z; hihat : list Z; snare : list Z }.

Definition rhythmPatterns : gmap string RhythmPatterns :=
  list_to_map [
    ("trap",
     mkRhythm [1; 0; 0; 0; 0; 0; 1; 0; 0; 0; 0; 0; 1; 0; 0; 0]%Z
              [0; 0; 1; 0; 1; 0; 1; 0; 0; 0; 1; 0; 1; 0; 1; 0]%Z
              [0; 0; 0; 0; 1; 0; 0; 0; 0; 0; 0; 0; 1; 0; 0; 0]%Z);
    ("ambient",
     mkRhythm [1; 0; 0; 0; 0; 0; 0; 0; 1; 0; 0; 0; 0; 0; 0; 0]%Z
              [0; 0; 0; 1; 0; 0; 1; 0; 0; 0; 0; 1; 0; 0; 0; 0]%Z
              [0; 0; 0; 0; 0; 0; 1; 0; 0; 0; 0; 0; 0; 0; 0; 0]%Z)
  ].

(** The callback of [randomizePattern]: a beat is kept with probability
    0.9 and a rest is filled with probability 0.1. *)
Definition randomizeBeat (beat : Z) : M Z :=
  if (beat =? 1)%Z then
    r ← random; mret (if Qlt_le_dec r (9 # 10) then 1 else 0)%Z
  else if (beat =? 0)%Z then
    r ← random; mret (if Qlt_le_dec r (1 # 10) then 1 else 0)%Z
  else mret beat.

Definition randomizePattern (pattern : list Z) : M (list Z) :=
  mapM randomizeBeat pattern.

(** [patterns[analysis.style] || patterns.ambient] is a function, or
    [Object.prototype], for a style that is an inherited key; its [kick] is
    [undefined], and [randomizePattern] throws on [pattern.map] before it
    draws. *)
Definition generateRhythmPatterns (analysis : PromptAnalysis) : M RhythmPatterns :=
  if JS.inherited (pa_style analysis) then throw JS.TypeError
  else
    let basePattern :=
      default (mkRhythm [] [] []) (rhythmPatterns !! "ambient") in
    let basePattern :=
      default basePattern (rhythmPatterns !! pa_style analysis) in
    kick ← randomizePattern (kick basePattern);
    hihat ← randomizePattern (hihat basePattern);
    snare ← randomizePattern (snare basePattern);
    mret (mkRhythm kick hihat snare).

End MusicGenerator.

(** ** professional-audio-renderer.ts: [ProfessionalAudioRenderer] *)

Module ProfessionalAudioRenderer.
Import Schema.

Definition SAMPLE_RATE : Z := 44100.

(** [createWAVBuffer]: each sample is clamped, scaled, rounded and written. *)
Fixpoint writeSamples (i : Z) (audioData : list Float.t)
    (buffer : NodeBuffer.Buffer) : JS.result NodeBuffer.Buffer :=
  match audioData with
  | [] => mret buffer
  | x :: rest =>
      let sample := Float.max_with (-1) (Float.min_with 1 x) in
      let intSample := Float.round (Float.scale sample 32767) in
      buffer ← NodeBuffer.writeInt16LE buffer intSample (44 + i * 2);
      writeSamples (i + 1) rest buffer
  end.

Definition createWAVBuffer (audioData : list Float.t) (sampleRate : Z)
    : JS.result NodeBuffer.Buffer :=
  let length := Z.of_nat (List.length audioData) in
  let buffer := NodeBuffer.alloc (44 + length * 2) in
  buffer ← NodeBuffer.writeWAVHeader buffer length sampleRate;
  writeSamples 0 audioData buffer.

(** *** The per-layer effects chain *)

(** The state of a delay line: [{ buffer, index }]. *)
Record DelayLine : Type := mkLine { buffer : list R; index : nat }.

Record EffectsState : Type := mkEffects {
  reverb_state : DelayLine;
  delay_state : DelayLine;
  distortion_lastSample : R;
  chorus_lfo : R;
  filter_state : R }.

(** [initializeEffectsChain]: half a second and 0.3 seconds of silence. *)
Definition initializeEffectsChain : EffectsState :=
  mkEffects (mkLine (replicate (Z.to_nat 22050) 0%R) 0)
    (mkLine (replicate (Z.to_nat 13230) 0%R) 0)
    0%R 0%R 0%R.

(** [state.buffer[state.index]]; the index is kept below the length. *)
Definition readLine (state : DelayLine) : R :=
  default 0%R (buffer state !! index state).

(** [state.buffer[state.index] = v; state.index = (state.index + 1) %
    state.buffer.length]. *)
Definition advanceLine (state : DelayLine) (v : R) : DelayLine :=
  mkLine (<[index state := v]> (buffer state))
         ((index state + 1) mod length (buffer state))%nat.

Definition applyDistortion (sample : R) (state : EffectsState)
    (settings : GenerationSettings) : R :=
  let distAmount := (JS.or_else (distortion settings) 20 / 100)%Q in
  if Qeq_bool distAmount 0 then sample
  else
    let driven := (sample * (1 + Q2R distAmount * 3))%R in
    (tanh driven * (1 - Q2R distAmount * 0.1))%R.

(** [applyDistortion] on a sample that may be [NaN]: the bypass returns it
    as it is, and [Math.tanh(NaN * ...) * ...] is [NaN]. *)
Definition applyDistortionNaN (sample : option R) (state : EffectsState)
    (settings : GenerationSettings) : option R :=
  (fun sample => applyDistortion sample state settings) <$> sample.

Definition applyReverb (sample : R) (state : DelayLine)
    (settings : GenerationSettings) : R * DelayLine :=
  let reverbLevel := (JS.or_else (reverb settings) 70 / 100)%Q in
  if Qeq_bool reverbLevel 0 then (sample, state)
  else
    let delayedSample := readLine state in
    let state' :=
      advanceLine state (sample + delayedSample * Q2R reverbLevel * 0.4)%R in
    ((sample + delayedSample * Q2R reverbLevel)%R, state').

Definition applyDelay (sample : R) (state : DelayLine) : R * DelayLine :=
  let delayedSample := readLine state in
  let state' := advanceLine state (sample + delayedSample * 0.3)%R in
  ((sample + delayedSample * 0.2)%R, state').

(** [applyChorus] returns the sample and the low-frequency oscillator value
    it stores in [state.lfo]. *)
Definition applyChorus (sample : R) (t : R) : R * R :=
  let lfo := sin (2 * PI * 0.5 * t)%R in
  let modulation := (1 + lfo * 0.02)%R in
  ((sample * modulation)%R, lfo).

Definition applyFilter (sample : R) (t : R) : R :=
  let cutoffMod := (0.8 + 0.2 * sin (t * 0.3))%R in
  (sample * cutoffMod)%R.

(** One turn of the loop of [applyEffectsChain], at sample index [i]. *)
Definition effectsStep (i : nat) (sample : R) (state : EffectsState)
    (settings : GenerationSettings) : R * EffectsState :=
  let t := (INR i / IZR SAMPLE_RATE)%R in
  let sample := applyDistortion sample state settings in
  let sample := applyFilter sample t in
  let '(sample, lfo) := applyChorus sample t in
  let '(sample, delay') := applyDelay sample (delay_state state) in
  let '(sample, reverb') := applyReverb sample (reverb_state state) settings in
  (sample,
   mkEffects reverb' delay' (distortion_lastSample state) lfo
     (filter_state state)).

Fixpoint effectsLoop (i : nat) (samples : list R) (state : EffectsState)
    (settings : GenerationSettings) : list R * EffectsState :=
  match samples with
  | [] => ([], state)
  | x :: rest =>
      let '(y, state') := effectsStep i x state settings in
      let '(ys, state'') := effectsLoop (S i) rest state' settings in
      (y :: ys, state'')
  end.

(** [applyEffectsChain]: the buffer after the loop, and the effects state. *)
Definition applyEffectsChain (samples : list R) (effectsState : EffectsState)
    (settings : GenerationSettings) : list R * EffectsState :=
  effectsLoop 0 samples effectsState settings.

(** *** Synthesis of a layer *)

(** A note number, a frequency or a sample that may be [NaN] is an
    [option R], [None] being [NaN]: arithmetic on [NaN] yields [NaN].  The
    pad layer reads chord intervals past the end of the scale and passes
    [60 + NaN] on. *)

(** [midiToFrequency]: equal temperament around A4 = 440 Hz. *)
Definition midiToFrequency (midiNote : option R) : option R :=
  (fun midiNote => 440 * Rpower 2 ((midiNote - 69) / 12))%R <$> midiNote.

(** [generateOscillator]; only the noise oscillator draws.  On a phase that
    is [NaN] the comparison [Math.sin(phase) > 0] of the square wave is
    false, and the noise does not read the phase. *)
Definition generateOscillator (type : string) (frequency t : option R)
    : Comp.M (option R) :=
  let phase := frequency ← frequency; t ← t; Some (2 * PI * frequency * t)%R in
  if String.eqb type "sine" then mret (sin <$> phase)
  else if String.eqb type "sawtooth" then
    mret ((fun phase =>
             2 * (phase / (2 * PI) - IZR (JS.floorR (phase / (2 * PI) + 0.5))))%R
            <$> phase)
  else if String.eqb type "square" then
    mret (Some (match phase with
                | Some phase => if Rlt_dec 0 (sin phase) then 1 else -1
                | None => -1
                end)%R)
  else if String.eqb type "triangle" then
    mret ((fun phase =>
             2 * Rabs (2 * (phase / (2 * PI)
                            - IZR (JS.floorR (phase / (2 * PI) + 0.5)))) - 1)%R
            <$> phase)
  else if String.eqb type "noise" then
    r ← Comp.random; mret (Some (Q2R r * 2 - 1)%R)
  else mret (sin <$> phase).

(** [generateAtmosphericTexture]. *)
Definition generateAtmosphericTexture (t : R)
    (layer : ProfessionalSynthEngine.SynthLayer) (progress : R) : Comp.M R :=
  r ← Comp.random;
  let texture1 := ((Q2R r - 0.5) * 0.02 * (0.5 + 0.5 * sin (t * 0.1)))%R in
  let texture2 := (sin (2 * PI * 0.3 * t + sin (t * 0.07) * 2) * 0.01)%R in
  let texture3 :=
    (sin (2 * PI * 1000 * t + sin (t * 3) * 5) * 0.005 * sin (t * 0.4))%R in
  let evolution := (0.7 + 0.3 * sin (progress * PI * 2))%R in
  mret ((texture1 + texture2 + texture3) * evolution
        * Q2R (ProfessionalSynthEngine.volume layer))%R.

(** [applyEnvelope]: the sustain level, approached from 1. *)
Definition applyEnvelope (sample : R)
    (envelope : ProfessionalSynthEngine.Envelope) (t : R) : R :=
  let sustainLevel := Q2R (ProfessionalSynthEngine.sustain envelope) in
  let envelopeValue := (sustainLevel + (1 - sustainLevel) * exp (- t * 2))%R in
  (sample * envelopeValue)%R.

(** [getCurrentSection]. *)
Definition getCurrentSection (progress : Q) : string :=
  if Qlt_le_dec progress (15 # 100) then "intro"
  else if Qlt_le_dec progress (4 # 10) then "verse"
  else if Qlt_le_dec progress (65 # 100) then "chorus"
  else if Qlt_le_dec progress (85 # 100) then "bridge"
  else "outro".

(** [getCurrentChord]: the chord of the bar that contains [t], the two
    quotients being the binary64 ones: at a bar line [t / barLength] can
    fall just below the number of the bar.  For an empty progression the
    index is [NaN] in the source and the read is [undefined]; here the read
    of the empty list is [None] at any index. *)
Definition getCurrentChord {A} (t beatsPerSecond : Q) (progression : list A)
    : option A :=
  let barLength := JS.div64 4 beatsPerSecond in
  let barIndex :=
    JS.rem (JS.floor (JS.div64 t barLength)) (Z.of_nat (length progression)) in
  JS.index progression barIndex.

(** *** Mixing and mastering *)

(** The buffers of the mixer hold samples that are finite numbers or
    [NaN]. *)
Definition SampleBuffer : Type := list (option R).

(** [channel.buffer[i]]: [NaN] when the sample is, and when the read is
    past the end of the buffer and yields [undefined]. *)
Definition readSample (buffer : SampleBuffer) (i : nat) : option R :=
  mjoin (buffer !! i).

(** The mixed sample at index [i]: the sum of the channels, each scaled by
    the volume of its layer; it is [NaN] as soon as one term is. *)
Definition mixChannels (i : nat)
    (channels : list (SampleBuffer * ProfessionalSynthEngine.SynthLayer))
    : option R :=
  foldl (fun mixedSample channel =>
           m ← mixedSample;
           x ← readSample (fst channel) i;
           Some (m + x * Q2R (ProfessionalSynthEngine.volume (snd channel)))%R)
        (Some 0%R) channels.

(** [mixLayers]: the mixed samples after the soft compression. *)
Definition mixLayers (masterBuffer : SampleBuffer)
    (channels : list (SampleBuffer * ProfessionalSynthEngine.SynthLayer))
    : SampleBuffer :=
  (fun i =>
     (fun mixedSample => tanh (mixedSample * 0.8) * 0.9)%R
       <$> mixChannels i channels)
    <$> seq 0 (length masterBuffer).

(** One turn of the loop of [applyMasteringChain], at sample index [i] of
    a buffer of [length] samples. *)
Definition masterSample (length : nat) (settings : GenerationSettings)
    (i : nat) (sample : R) : R :=
  let fadeInSamples := (JS.or_else (fadeIn settings) 3 * inject_Z SAMPLE_RATE)%Q in
  let fadeOutSamples := (JS.or_else (fadeOut settings) 3 * inject_Z SAMPLE_RATE)%Q in
  let i := inject_Z (Z.of_nat i) in
  let length := inject_Z (Z.of_nat length) in
  let sample :=
    if Qlt_le_dec i fadeInSamples
    then (sample * Q2R (i / fadeInSamples))%R else sample in
  let sample :=
    if Qlt_le_dec (length - fadeOutSamples) i
    then (sample * Q2R ((length - i) / fadeOutSamples))%R else sample in
  (tanh (sample * 1.2) * 0.8)%R.

(** [applyMasteringChain]: a sample that is [NaN] stays [NaN] through the
    fades and the limiter. *)
Definition applyMasteringChain (buffer : SampleBuffer)
    (settings : GenerationSettings) : SampleBuffer :=
  imap (fun i sample => masterSample (length buffer) settings i <$> sample)
    buffer.

End ProfessionalAudioRenderer.

(** ** professional-audio-renderer.ts: [AdvancedMusicGenerator] *)

Module AdvancedMusicGenerator.
Import Comp.
Local Open Scope string_scope.
Local Open Scope Q_scope.

Record ChordInfo : Type := mkChordInfo {
  root : Z; type : string; extensions : list string }.

Record MelodyGenetics : Type := mkMelody {
  intervals : list Z; rhythms : list Q; contour : string;
  melody_density : string }.

Record RhythmGenetics : Type := mkRhythmGenetics {
  density : Q; swing : Q; syncopation : Q; rhythm_complexity : Q }.

Record BasslineGenetics : Type := mkBassline {
  level : Q; pattern : string; octave : Z; envelope : Q }.

Record EffectsGenetics : Type := mkEffectsGenetics {
  reverb : Q; delay : Q; distortion : Q; filter : Q; compression : Q }.

Record StructureGenetics : Type := mkStructureGenetics {
  sectionVariation : Q; transitionStyle : string; energyFlow : string;
  structure_complexity : Q }.

(** [MusicGenome], without the [id] (a label built from the clock and a
    draw, which nothing reads). *)
Record MusicGenome : Type := mkGenome {
  chordProgression : list ChordInfo;
  melodyPattern : MelodyGenetics;
  rhythmGenetics : RhythmGenetics;
  basslineGenetics : BasslineGenetics;
  effectsGenetics : EffectsGenetics;
  structureGenetics : StructureGenetics;
  fitness : Q;
  generation : Z }.

Record SectionInfo : Type := mkSectionInfo {
  name : string; startTime : Q; duration : Q; intensity : Q }.

Record SongStructure : Type := mkSongStructure {
  sections : list SectionInfo; totalDuration : Q }.

(** *** Random genes *)

Definition randomRhythmGenetics : M RhythmGenetics :=
  density ← random;
  swing ← random;
  syncopation ← random;
  complexity ← random;
  mret (mkRhythmGenetics (density * 60 + 20) (swing * (3 # 10))
          (syncopation * (5 # 10)) complexity).

Definition randomBasslineGenetics : M BasslineGenetics :=
  level ← random;
  pattern ← random;
  octave ← random;
  envelope ← random;
  mret (mkBassline (level * 80 + 20)
          (if Qlt_le_dec pattern (5 # 10) then "root" else "walking")
          (JS.floor (octave * 2) + 1)%Z
          (envelope * (3 # 10) + (1 # 10))).

Definition randomEffectsGenetics : M EffectsGenetics :=
  reverb ← random;
  delay ← random;
  distortion ← random;
  filter ← random;
  compression ← random;
  mret (mkEffectsGenetics (reverb * 40 + 60) (delay * 60 + 20)
          (distortion * 30) (filter * 50 + 25) (compression * 40 + 30)).

(** *** Fitness: the alignment with the settings *)

Record MoodTarget : Type := mkTarget {
  target_reverb : Q; target_pace : Q; target_density : Q }.

Definition moodMappings : gmap string MoodTarget :=
  list_to_map [
    ("dreamy", mkTarget 80 70 30);
    ("dark", mkTarget 60 60 40);
    ("uplifting", mkTarget 70 90 60);
    ("melancholic", mkTarget 90 50 20);
    ("ethereal", mkTarget 95 65 25);
    ("nostalgic", mkTarget 85 75 35)
  ].

Definition getMoodAlignment (genome : MusicGenome) (mood : string) : Q :=
  match moodMappings !! mood with
  | None => 5 # 10
  | Some target =>
      let reverbMatch :=
        1 - JS.absQ (reverb (effectsGenetics genome) - target_reverb target) / 100 in
      let densityMatch :=
        1 - JS.absQ (density (rhythmGenetics genome) - target_density target) / 100 in
      (reverbMatch + densityMatch) / 2
  end.

Definition evaluateUserPreferences (genome : MusicGenome)
    (settings : Schema.GenerationSettings) : Q :=
  let score := 0 in
  let bassAlignment :=
    1 - JS.absQ (level (basslineGenetics genome) - Schema.bass settings) / 100 in
  let score := score + bassAlignment * (3 # 10) in
  let reverbAlignment :=
    1 - JS.absQ (reverb (effectsGenetics genome) - Schema.reverb settings) / 100 in
  let score := score + reverbAlignment * (3 # 10) in
  let moodBonus := getMoodAlignment genome (Schema.mood settings) in
  score + moodBonus * (4 # 10).

(** *** Selection *)

(** [getBestGenome]: [reduce] without an initial value throws a
    [TypeError] on an empty population. *)
Definition getBestGenome (population : list MusicGenome)
    : JS.result MusicGenome :=
  match population with
  | [] => JS.Raise JS.TypeError
  | first :: rest =>
      JS.Return
        (foldl (fun best current =>
                  if Qlt_le_dec (fitness best) (fitness current)
                  then current else best)
               first rest)
  end.

(** [this.population[Math.floor(Math.random() * this.population.length)]]. *)
Definition pickGenome (population : list MusicGenome)
    : M (option MusicGenome) :=
  r ← random;
  mret (JS.index population
          (JS.floor (r * inject_Z (Z.of_nat (length population))))).

(** One turn of the loop of [tournamentSelection]; reading the fitness of
    an [undefined] candidate, or of an [undefined] best, throws. *)
Definition tournamentRound (population : list MusicGenome)
    (best : option MusicGenome) : M (option MusicGenome) :=
  candidate ← pickGenome population;
  c ← defined candidate;
  b ← defined best;
  mret (Some (if Qlt_le_dec (fitness b) (fitness c) then c else b)).

Definition tournamentSelection (population : list MusicGenome)
    : M (option MusicGenome) :=
  best ← pickGenome population;
  best ← tournamentRound population best;
  tournamentRound population best.

(** *** Crossover *)

Definition blendRhythmGenetics (parent1 parent2 : RhythmGenetics)
    : RhythmGenetics :=
  mkRhythmGenetics
    ((density parent1 + density parent2) / 2)
    ((swing parent1 + swing parent2) / 2)
    ((syncopation parent1 + syncopation parent2) / 2)
    ((rhythm_complexity parent1 + rhythm_complexity parent2) / 2).

Definition blendBasslineGenetics (parent1 parent2 : BasslineGenetics)
    : M BasslineGenetics :=
  r ← random;
  mret (mkBassline
          ((level parent1 + level parent2) / 2)
          (if Qlt_le_dec r (5 # 10) then pattern parent1 else pattern parent2)
          (JS.round (inject_Z (octave parent1 + octave parent2)%Z / 2))
          ((envelope parent1 + envelope parent2) / 2)).

Definition blendEffectsGenetics (parent1 parent2 : EffectsGenetics)
    : EffectsGenetics :=
  mkEffectsGenetics
    ((reverb parent1 + reverb parent2) / 2)
    ((delay parent1 + delay parent2) / 2)
    ((distortion parent1 + distortion parent2) / 2)
    ((filter parent1 + filter parent2) / 2)
    ((compression parent1 + compression parent2) / 2).

(** [crossover]; [generation] is the counter of the generator.  The draws
    are made in the order of the source: the crossover point, the label,
    the melody pattern, the bass pattern, the structure genes. *)
Definition crossover (parent1 parent2 : MusicGenome) (generation : Z)
    : M MusicGenome :=
  r ← random;
  let crossoverPoint :=
    JS.floor (r * inject_Z (Z.of_nat (length (chordProgression parent1)))) in
  label ← random;
  let chords :=
    (JS.slice_to (chordProgression parent1) crossoverPoint
     ++ JS.slice_from (chordProgression parent2) crossoverPoint)%list in
  melody ← random;
  let melodyPattern :=
    if Qlt_le_dec melody (5 # 10)
    then melodyPattern parent1 else melodyPattern parent2 in
  let rhythmGenetics :=
    blendRhythmGenetics (rhythmGenetics parent1) (rhythmGenetics parent2) in
  basslineGenetics ←
    blendBasslineGenetics (basslineGenetics parent1) (basslineGenetics parent2);
  let effectsGenetics :=
    blendEffectsGenetics (effectsGenetics parent1) (effectsGenetics parent2) in
  structure ← random;
  let structureGenetics :=
    if Qlt_le_dec structure (5 # 10)
    then structureGenetics parent1 else structureGenetics parent2 in
  mret (mkGenome chords melodyPattern rhythmGenetics basslineGenetics
          effectsGenetics structureGenetics 0 (generation + 1)%Z).

(** *** The structure of a song *)

Definition baseStructures : list (list string) := [
  ["intro"; "verse"; "chorus"; "verse"; "chorus"; "bridge"; "chorus"; "outro"];
  ["intro"; "build"; "drop"; "breakdown"; "build"; "drop"; "outro"];
  ["intro"; "verse"; "pre-chorus"; "chorus"; "verse"; "pre-chorus"; "chorus";
   "bridge"; "chorus"; "outro"] ].

Definition baseDurations : gmap string Q :=
  list_to_map [
    ("intro", 16); ("verse", 32); ("chorus", 32); ("bridge", 16);
    ("outro", 16); ("build", 24); ("drop", 32); ("breakdown", 16);
    ("pre-chorus", 16)
  ].

Definition getVariedSectionDuration (sectionName : string)
    (settings : Schema.GenerationSettings) : M Q :=
  let base := JS.or_else (default 0%Q (baseDurations !! sectionName)) 16 in
  r ← random;
  let variation := (r - (5 # 10)) * 8 in
  let paceMultiplier := Schema.pace settings / 85 in
  mret (Qmax 8 (base + variation) * paceMultiplier).

Definition intensityMap : gmap string Q :=
  list_to_map [
    ("intro", 3 # 10); ("verse", 6 # 10); ("pre-chorus", 8 # 10);
    ("chorus", 1); ("bridge", 7 # 10); ("outro", 2 # 10); ("build", 9 # 10);
    ("drop", 1); ("breakdown", 4 # 10)
  ].

Definition calculateSectionIntensity (name : string) (index total : Z) : Q :=
  let baseIntensity :=
    JS.or_else (default 0%Q (intensityMap !! name)) (5 # 10) in
  let progressionBoost := inject_Z index / inject_Z total * (2 # 10) in
  Qmin 1 (baseIntensity + progressionBoost).

(** The callback of the [map] over the section names of
    [generateVariedStructure]. *)
Definition variedSection (settings : Schema.GenerationSettings) (total : Z)
    (entry : nat * string) : M SectionInfo :=
  let index := Z.of_nat (fst entry) in
  duration ← getVariedSectionDuration (snd entry) settings;
  mret (mkSectionInfo (snd entry) (inject_Z (index * 16)%Z) duration
          (calculateSectionIntensity (snd entry) index total)).

(** [generateVariedStructure]; [generation] is the counter of the
    generator, and a base structure read out of range is [undefined],
    whose [map] throws. *)
Definition generateVariedStructure (generation : Z)
    (settings : Schema.GenerationSettings) : M SongStructure :=
  let structureIndex := JS.rem generation (Z.of_nat (length baseStructures)) in
  baseStructure ← defined (JS.index baseStructures structureIndex);
  sections ←
    mapM (variedSection settings (Z.of_nat (length baseStructure)))
         (imap (fun index name => (index, name)) baseStructure);
  mret (mkSongStructure sections
          (foldl (fun sum s => sum + duration s) 0 sections)).

(** [calculateTotalDuration]. *)
Definition calculateTotalDuration (structure : SongStructure) : Q :=
  foldl (fun sum section => sum + duration section) 0 (sections structure).

End AdvancedMusicGenerator.

(** ** Notions of the specification *)

Module Spec.
Import Schema.
Local Open Scope string_scope.

(** *** Tempo bias *)

(** The keyword sets of the tempo bias. *)
Definition slowKeywords : list string := ["slow"; "languid"; "dreamy"; "ambient"].
Definition fastKeywords : list string := ["fast"; "energetic"; "driving"; "intense"].

(** Some word of the prompt is one of [keywords]. *)
Definition mentions (words keywords : list string) : Prop :=
  exists w, In w words /\ In w keywords.

(** [m] is the mood of the first entry of [table] that has a keyword among
    the words, and [d] when no entry has one. *)
Definition firstMentioned (table : list (string * list string))
    (words : list string) (d m : string) : Prop :=
  (exists before keywords after,
     table = (before ++ (m, keywords) :: after)%list /\
     mentions words keywords /\
     Forall (fun entry => ~ mentions words (snd entry)) before) \/
  (Forall (fun entry => ~ mentions words (snd entry)) table /\ m = d).

(** Time [t] lies in bar [k], each bar lasting [4 / beatsPerSecond]
    seconds, and clear of its two bar lines by [2^-48] of the position in
    bars: [k + m <= t * beatsPerSecond / 4 <= k + 1 - m] with
    [m = (k + 1) / 2^48]. *)
Definition withinBar (t beatsPerSecond : Q) (k : nat) : Prop :=
  let position := (t * beatsPerSecond)%Q in
  let bar := inject_Z (Z.of_nat k) in
  let margin := ((bar + 1) * (1 # 281474976710656))%Q in
  (4 * (bar + margin) <= position)%Q /\
  (position <= 4 * (bar + 1 - margin))%Q.

(** *** Moods and chords *)

(** The moods that have an entry in [CHORD_PROGRESSIONS]. *)
Definition moodsWithProgressions : list string := ["dreamy"; "dark"; "uplifting"].

(** The scale degree [romanToChord] reads off a Roman numeral. *)
Definition degreeOf (roman : string) : Z :=
  JS.or_elseZ (default 0%Z (MusicTheoryEngine.romanMap !! roman)) 0.

(** A chord as the data model has it: every interval a semitone in
    [[0,11]], none of them [NaN]. *)
Definition semitone (n : JS.num) : Prop :=
  exists z : Z, n = Some z /\ (0 <= z <= 11)%Z.

Definition wellFormedChord (c : MusicTheoryEngine.ChordProgression) : Prop :=
  Forall semitone (MusicTheoryEngine.intervals c).

(** *** Song structures *)

(** The sections of a song structure tile [[0, d]]: the intro starts at 0,
    each section starts where the one before it ends and has a positive
    length, and the outro ends at [d]. *)
Definition partitions (st : MusicGenerator.Structure) (d : Q) : Prop :=
  let i := MusicGenerator.intro st in
  let v := MusicGenerator.verse st in
  let h := MusicGenerator.hook st in
  let b := MusicGenerator.bridge st in
  let o := MusicGenerator.outro st in
  (MusicGenerator.start i == 0)%Q /\
  (MusicGenerator.start i < MusicGenerator.end_ i)%Q /\
  (MusicGenerator.start v == MusicGenerator.end_ i)%Q /\
  (MusicGenerator.start v < MusicGenerator.end_ v)%Q /\
  (MusicGenerator.start h == MusicGenerator.end_ v)%Q /\
  (MusicGenerator.start h < MusicGenerator.end_ h)%Q /\
  (MusicGenerator.start b == MusicGenerator.end_ h)%Q /\
  (MusicGenerator.start b < MusicGenerator.end_ b)%Q /\
  (MusicGenerator.start o == MusicGenerator.end_ b)%Q /\
  (MusicGenerator.start o < MusicGenerator.end_ o)%Q /\
  (MusicGenerator.end_ o == d)%Q.

(** *** The canonical PCM WAV layout *)

(** The bytes of an unsigned integer, least significant first, and the
    decoding of four of them. *)
Definition le16 (v : Z) : list Z := [v mod 256; (v / 256) mod 256]%Z.

Definition le32 (v : Z) : list Z :=
  [v mod 256; (v / 256) mod 256; (v / 65536) mod 256; (v / 16777216) mod 256]%Z.

Definition decodeUInt32 (bytes : list Z) : option Z :=
  match bytes with
  | [b0; b1; b2; b3] => Some (b0 + 256 * b1 + 65536 * b2 + 16777216 * b3)%Z
  | _ => None
  end.

(** A signed 16-bit integer in two's complement, least significant byte
    first, and its decoding. *)
Definition int16le (v : Z) : list Z := le16 (v mod 65536).

Definition decodeInt16 (lo hi : Z) : Z :=
  let u := (lo + 256 * hi)%Z in
  if (u <? 32768)%Z then u else (u - 65536)%Z.

(** The ASCII codes of a chunk tag. *)
Definition tag (s : string) : list Z :=
  (fun c => Z.of_nat (nat_of_ascii c)) <$> list_ascii_of_string s.

(** The 44-byte header of a mono 16-bit PCM file of [n] samples: RIFF size
    [36 + 2n], format 1, one channel, the sample rate, the byte rate, block
    align 2, 16 bits per sample, data size [2n]. *)
Definition wavHeader (n sampleRate : Z) : list Z :=
  tag "RIFF" ++ le32 (36 + 2 * n) ++ tag "WAVE" ++
  tag "fmt " ++ le32 16 ++ le16 1 ++ le16 1 ++
  le32 sampleRate ++ le32 (sampleRate * 2) ++ le16 2 ++ le16 16 ++
  tag "data" ++ le32 (2 * n).

(** [clamp(sample, -1, 1)]; [NaN] has no clamped value. *)
Definition clamp (x : Float.t) : option Q :=
  match x with
  | Float.Finite q => Some (Qmax (-1) (Qmin 1 q))
  | Float.PosInf => Some 1%Q
  | Float.NegInf => Some (-1)%Q
  | Float.NaN => None
  end.

(** [round(clamp(sample, -1, 1) * 32767)]; for [NaN], which the formula
    leaves without a value, the integer 0. *)
Definition pcm16 (x : Float.t) : Z :=
  match clamp x with
  | Some c => JS.round (c * 32767)
  | None => 0%Z
  end.

(** The PCM file of the specification. *)
Definition wavFile (audioData : list Float.t) (sampleRate : Z) : list Z :=
  wavHeader (Z.of_nat (length audioData)) sampleRate
  ++ mbind (fun x => int16le (pcm16 x)) audioData.

(** The clamped, scaled sample with its fraction dropped instead of
    rounded: the integer a store of the unrounded product keeps. *)
Definition truncated16 (x : Float.t) : Z :=
  match clamp x with
  | Some c => Z.quot (Qnum (c * 32767)) (Zpos (Qden (c * 32767)))
  | None => 0%Z
  end.

(** *** Effects *)

(** The reverb effect applied to a sequence of samples, one after the
    other on the same delay line. *)
Fixpoint reverbSequence (settings : GenerationSettings) (samples : list R)
    (state : ProfessionalAudioRenderer.DelayLine)
    : list R * ProfessionalAudioRenderer.DelayLine :=
  match samples with
  | [] => ([], state)
  | x :: rest =>
      let '(y, state') :=
        ProfessionalAudioRenderer.applyReverb x state settings in
      let '(ys, state'') := reverbSequence settings rest state' in
      (y :: ys, state'')
  end.

(** *** The requests the properties are evaluated at *)

(** A request for a sad track: valid settings whose prompt resolves to the
    melancholic mood. *)
Definition sadRequest : GenerationSettings :=
  mkSettings 50 85 70 20 3 3 (mkInstruments true true true true false)
    "melancholic" (Some "sad").

(** A request whose mood setting and prompt disagree. *)
Definition upliftingDarkRequest : GenerationSettings :=
  mkSettings 50 85 70 20 3 3 (mkInstruments true true true true false)
    "uplifting" (Some "dark brooding").

(** A request at 80 BPM whose prompt resolves to the uplifting mood. *)
Definition upliftingAt80 : GenerationSettings :=
  mkSettings 50 80 70 20 3 3 (mkInstruments true true true true false)
    "uplifting" (Some "uplifting").

(** *** Bars *)

(** The bars of the five sections of a song structure, a missing section
    counting for none. *)
Definition sectionBars (s : MusicTheoryEngine.Sections) : Z :=
  MusicTheoryEngine.bars (MusicTheoryEngine.intro s)
  + MusicTheoryEngine.bars (MusicTheoryEngine.verse s)
  + default 0 (MusicTheoryEngine.bars <$> MusicTheoryEngine.chorus s)
  + default 0 (MusicTheoryEngine.bars <$> MusicTheoryEngine.bridge s)
  + MusicTheoryEngine.bars (MusicTheoryEngine.outro s).

(** *** Layers *)

(** The parameters of a synthesis layer are in the ranges the renderer
    works with: the volume, the distortion amount, the reverb level and the
    sustain level in [[0,1]], a delay feedback below 1, and a filter cutoff
    that is positive and below the Nyquist frequency of 22050 Hz. *)
Definition layerInRange (layer : ProfessionalSynthEngine.SynthLayer) : Prop :=
  let effects := ProfessionalSynthEngine.effects layer in
  (0 <= ProfessionalSynthEngine.volume layer <= 1)%Q /\
  (0 <= ProfessionalSynthEngine.amount
          (ProfessionalSynthEngine.fx_distortion effects) <= 1)%Q /\
  (0 <= ProfessionalSynthEngine.reverb_wetLevel
          (ProfessionalSynthEngine.fx_reverb effects) <= 1)%Q /\
  (0 <= ProfessionalSynthEngine.feedback
          (ProfessionalSynthEngine.fx_delay effects) < 1)%Q /\
  (0 <= ProfessionalSynthEngine.sustain
          (ProfessionalSynthEngine.envelope layer) <= 1)%Q /\
  (0 < ProfessionalSynthEngine.filter_frequency
         (ProfessionalSynthEngine.filter layer) < 22050)%Q.

End Spec.

(** * Properties *)

(** Unfolds the binds of a computation that draws and may throw. *)
Ltac unfold_comp :=
  unfold mbind, Comp.M_bind, mret, Comp.M_ret, Comp.throw, Comp.defined,
    Comp.random in *.

(** ** The music theory resolver *)

Section TheoryResolver.
Import Comp Schema MusicTheoryEngine.
Local Open Scope string_scope.

Lemma first_entry_cases table words d :
  first_entry table words d = d \/
  In (first_entry table words d) (List.map fst table).
Proof.
  unfold first_entry.
  destruct (List.find _ table) as [entry|] eqn:Hfind; [right | now left].
  apply List.find_some in Hfind as [Hin _].
  now apply List.in_map.
Qed.

Lemma extractAdvancedMood_in_enum words :
  extractAdvancedMood words ∈ moods.
Proof.
  apply list_elem_of_In.
  destruct (first_entry_cases moodKeywords words "dreamy") as [H | H];
    unfold extractAdvancedMood.
  - rewrite H. cbn. tauto.
  - exact H.
Qed.

(** No mood of the enumeration is a key an object literal inherits. *)
Lemma extractAdvancedMood_not_inherited words :
  JS.inherited (extractAdvancedMood words) = false.
Proof.
  pose proof (extractAdvancedMood_in_enum words) as H. unfold moods in H.
  repeat (apply elem_of_cons in H as [-> | H]); try reflexivity.
  now apply elem_of_nil in H.
Qed.

End TheoryResolver.

(** ** Binary64 rounding *)

Section Binary64.

Lemma roundEven_error (y : Q) :
  (y - (1 # 2) <= inject_Z (JS.roundEven y))%Q /\
  (inject_Z (JS.roundEven y) <= y + (1 # 2))%Q.
Proof.
  unfold JS.roundEven.
  pose proof (Qfloor_le y) as Hlo. pose proof (Qlt_floor y) as Hhi.
  rewrite inject_Z_plus in Hhi. change (inject_Z 1) with 1%Q in Hhi.
  set (f := Qfloor y) in *.
  destruct (y - inject_Z f ?= 1 # 2)%Q eqn:E.
  - apply Qeq_alt in E.
    destruct (Z.even f); rewrite ?inject_Z_plus; change (inject_Z 1) with 1%Q;
      split; Lqa.lra.
  - apply Qlt_alt in E. split; Lqa.lra.
  - apply Qgt_alt in E. rewrite inject_Z_plus. change (inject_Z 1) with 1%Q.
    split; Lqa.lra.
Qed.

Lemma pow2_pos (e : Z) : (0 < 2 ^ e)%Q.
Proof. apply Qpower_0_lt. reflexivity. Qed.

Lemma binade_low (x : Q) :
  (0 < x)%Q -> (2 ^ 51 * 2 ^ JS.binade x <= x)%Q.
Proof.
  intros Hx.
  assert (0 < Qnum x) as Hn by (destruct x as [n d]; unfold Qlt in Hx; cbn in *; lia).
  set (ln := Z.log2 (Z.abs (Qnum x))). set (ld := Z.log2 (Zpos (Qden x))).
  assert (2 ^ 51 * 2 ^ (ln - ld - 52) <= x)%Q as Hbase.
  { rewrite <- Qpower_plus by discriminate.
    replace (51 + (ln - ld - 52)) with (ln - (ld + 1)) by lia.
    rewrite Qpower_minus by discriminate.
    pose proof (Z.log2_spec (Z.abs (Qnum x)) ltac:(lia)) as [Hl1 _].
    pose proof (Z.log2_spec (Zpos (Qden x)) ltac:(lia)) as [_ Hl2].
    fold ln in Hl1. fold ld in Hl2. rewrite Z.abs_eq in Hl1 by lia.
    pose proof (Z.log2_nonneg (Z.abs (Qnum x))) as Hln. fold ln in Hln.
    pose proof (Z.log2_nonneg (Zpos (Qden x))) as Hld. fold ld in Hld.
    change 2%Q with (inject_Z 2).
    rewrite <- !Zpower_Qpower by lia.
    replace (Z.succ ld) with (ld + 1) in Hl2 by lia.
    assert (0 < 2 ^ (ld + 1)) as Hpos by (apply Z.pow_pos_nonneg; lia).
    apply Qle_shift_div_r.
    - rewrite <- (Zlt_Qlt 0). exact Hpos.
    - destruct x as [n d]. cbn [Qnum Qden] in *.
      unfold Qle, Qmult, inject_Z. cbn [Qnum Qden].
      rewrite !Z.mul_1_r. rewrite Pos.mul_1_r. nia. }
  unfold JS.binade. fold ln. fold ld.
  destruct (Qlt_le_dec _ _); [|exact Hbase].
  eapply Qle_trans; [|exact Hbase].
  apply Qmult_le_l; [reflexivity|].
  apply Qpower_le_compat_l; [lia | discriminate].
Qed.

(** The relative error of a rounding to binary64 is at most [2^-52]. *)
Lemma fl_error (x : Q) :
  (0 < x)%Q ->
  (x * (1 - (1 # 4503599627370496)) <= JS.fl x)%Q /\
  (JS.fl x <= x * (1 + (1 # 4503599627370496)))%Q.
Proof.
  intros Hx. unfold JS.fl.
  destruct (Qeq_bool x 0) eqn:E; [apply Qeq_bool_eq in E; Lqa.lra|].
  cbv zeta. pose proof (binade_low x Hx) as Hlow.
  pose proof (pow2_pos (JS.binade x)) as Hpos.
  set (P := (2 ^ JS.binade x)%Q) in *.
  destruct (roundEven_error (x / P)) as [Hk0 Hk1].
  set (k := inject_Z (JS.roundEven (x / P))) in *.
  assert (x / P * P == x)%Q as Hy by (field; Lqa.lra).
  set (y := (x / P)%Q) in *.
  change (2 ^ 51)%Q with 2251799813685248%Q in Hlow.
  split; Lqa.nra.
Qed.

Lemma fl_zero : JS.fl 0 = 0%Q.
Proof. reflexivity. Qed.

(** The binary64 numbers of the tempo literals: [0.7] is
    [0x1.6666666666666p-1], just below 7/10, [1.3] is
    [0x1.4cccccccccccdp+0], just above 13/10, and small integers are
    exact. *)
Lemma fl_literals :
  (JS.fl (7 # 10) == 3152519739159347 # 4503599627370496)%Q /\
  (JS.fl (13 # 10) == 5854679515581645 # 4503599627370496)%Q /\
  (JS.fl 85 == 85)%Q /\ (JS.fl 4 == 4)%Q /\
  (JS.mul64 85 (7 # 10) == 8373880557142015 # 140737488355328)%Q /\
  (JS.mul64 85 (7 # 10) < 119 # 2)%Q.
Proof. repeat split; vm_compute; reflexivity. Qed.

Lemma fl_nonneg (x : Q) : (0 <= x)%Q -> (0 <= JS.fl x)%Q.
Proof.
  intros Hx. apply Qle_lteq in Hx as [Hx | Hx].
  - destruct (fl_error x Hx). Lqa.lra.
  - unfold JS.fl. destruct (Qeq_bool x 0) eqn:E; [Lqa.lra|].
    apply Qeq_bool_neq in E. exfalso. apply E. now symmetry.
Qed.

End Binary64.

(** ** Tempo *)

Section Tempo.
Import Comp Schema MusicTheoryEngine Spec.
Local Open Scope string_scope.

Lemma some_includes_iff words keywords :
  JS.some (JS.includes keywords) words = true <-> mentions words keywords.
Proof.
  unfold JS.some, JS.includes, mentions.
  rewrite List.existsb_exists.
  split.
  - intros (w & Hw & Hk). apply List.existsb_exists in Hk as (k & Hk & Heq).
    apply String.eqb_eq in Heq. subst k. eauto.
  - intros (w & Hw & Hk). exists w. split; [assumption|].
    apply List.existsb_exists. exists w. split; [assumption|].
    apply String.eqb_refl.
Qed.

Lemma tempoMultiplier_cases words :
  (mentions words slowKeywords /\ tempoMultiplier words = 7 # 10) \/
  (~ mentions words slowKeywords /\ mentions words fastKeywords /\
   tempoMultiplier words = 13 # 10) \/
  (~ mentions words slowKeywords /\ ~ mentions words fastKeywords /\
   tempoMultiplier words = 1%Q).
Proof.
  unfold tempoMultiplier.
  destruct (JS.some (JS.includes ["slow"; "languid"; "dreamy"; "ambient"]) words)
    eqn:Hslow.
  - left. split; [now apply some_includes_iff | reflexivity].
  - assert (~ mentions words slowKeywords) as Hns.
    { intros H. apply some_includes_iff in H. unfold slowKeywords in H. congruence. }
    destruct (JS.some (JS.includes ["fast"; "energetic"; "driving"; "intense"]) words)
      eqn:Hfast.
    + right; left. repeat split; [assumption | now apply some_includes_iff].
    + right; right. repeat split; [assumption|].
      intros H. apply some_includes_iff in H. unfold fastKeywords in H. congruence.
Qed.

Lemma round_bounds (x : Q) (lo hi : Z) :
  (inject_Z lo <= x + (1 # 2))%Q -> (x + (1 # 2) < inject_Z (hi + 1))%Q ->
  lo <= JS.round x <= hi.
Proof.
  intros Hlo Hhi. unfold JS.round. split.
  - rewrite <- (Qfloor_Z lo). now apply Qfloor_resp_le.
  - pose proof (Qfloor_le (x + (1 # 2))) as Hfl.
    assert (inject_Z (Qfloor (x + (1 # 2))) < inject_Z (hi + 1))%Q as Hlt
      by (eapply Qle_lt_trans; eassumption).
    rewrite <- Zlt_Qlt in Hlt. lia.
Qed.

(** C6, the claim as stated fails: a base of 180 BPM with a fast keyword
    resolves to 234 BPM, above 180, and a base of 60 BPM with a slow keyword
    resolves to 42 BPM, below 53. *)
Lemma tempo_not_clamped :
  (60 <= 180 <= 180)%Q /\
  calculateProfessionalTempo (promptWords "fast") 180 = 234 /\
  ~ (53 <= calculateProfessionalTempo (promptWords "fast") 180 <= 180) /\
  (60 <= 60 <= 180)%Q /\
  calculateProfessionalTempo (promptWords "slow") 60 = 42 /\
  ~ (53 <= calculateProfessionalTempo (promptWords "slow") 60 <= 180).
Proof.
  repeat split; try (vm_compute; congruence); vm_compute; intros [H1 H2]; congruence.
Qed.

(** C6, amended.  The resolved tempo is [Math.round] of the binary64
    product [baseBPM * m], with [m = 0.7] when a word of the prompt is a slow
    keyword, [m = 1.3] when none is and a word is a fast keyword, and [m = 1]
    otherwise.  The binary64 product is within [10^-12] of the exact one, so
    the tempo is the exact product rounded to the nearest integer except
    next to a half ([85 * 0.7] gives 59, the exact product 59.5 rounds to
    60).  It is not clamped: for a base between 60 and 180 BPM it lies
    between 42 and 234 BPM. *)
Theorem tempo_is_rounded_product (words : list string) (baseBPM : Q) :
  (60 <= baseBPM <= 180)%Q ->
  exists m : Q,
    calculateProfessionalTempo words baseBPM = JS.round (JS.mul64 baseBPM m) /\
    ((mentions words slowKeywords /\ m = 7 # 10) \/
     (~ mentions words slowKeywords /\ mentions words fastKeywords /\
      m = 13 # 10) \/
     (~ mentions words slowKeywords /\ ~ mentions words fastKeywords /\ m = 1%Q)) /\
    (baseBPM * m - (1 # 1000000000000) <= JS.mul64 baseBPM m)%Q /\
    (JS.mul64 baseBPM m <= baseBPM * m + (1 # 1000000000000))%Q /\
    42 <= calculateProfessionalTempo words baseBPM <= 234.
Proof.
  intros [Hlo Hhi].
  exists (tempoMultiplier words). split; [reflexivity|].
  split; [apply tempoMultiplier_cases|].
  assert ((baseBPM * tempoMultiplier words - (1 # 1000000000000)
           <= JS.mul64 baseBPM (tempoMultiplier words))%Q /\
          (JS.mul64 baseBPM (tempoMultiplier words)
           <= baseBPM * tempoMultiplier words + (1 # 1000000000000))%Q /\
          (83 # 2 <= JS.mul64 baseBPM (tempoMultiplier words))%Q /\
          (JS.mul64 baseBPM (tempoMultiplier words) < 469 # 2)%Q) as Hmul.
  { unfold JS.mul64.
    destruct (fl_error baseBPM ltac:(Lqa.lra)) as [Hb0 Hb1].
    set (b := JS.fl baseBPM) in *.
    destruct (tempoMultiplier_cases words) as [[_ ->] | [(_ & _ & ->) | (_ & _ & ->)]].
    - let v := eval vm_compute in (JS.fl (7 # 10)) in change (JS.fl (7 # 10)) with v.
      match goal with |- context [JS.fl (b * ?c)] =>
        destruct (fl_error (b * c) ltac:(Lqa.lra)) as [Hp0 Hp1];
        set (p := JS.fl (b * c)) in * end.
      repeat split; Lqa.lra.
    - let v := eval vm_compute in (JS.fl (13 # 10)) in change (JS.fl (13 # 10)) with v.
      match goal with |- context [JS.fl (b * ?c)] =>
        destruct (fl_error (b * c) ltac:(Lqa.lra)) as [Hp0 Hp1];
        set (p := JS.fl (b * c)) in * end.
      repeat split; Lqa.lra.
    - let v := eval vm_compute in (JS.fl 1) in change (JS.fl 1) with v.
      match goal with |- context [JS.fl (b * ?c)] =>
        destruct (fl_error (b * c) ltac:(Lqa.lra)) as [Hp0 Hp1];
        set (p := JS.fl (b * c)) in * end.
      repeat split; Lqa.lra. }
  destruct Hmul as (H1 & H2 & H3 & H4).
  split; [exact H1|]. split; [exact H2|].
  unfold calculateProfessionalTempo.
  apply round_bounds;
    change (inject_Z 42) with (42 # 1); change (inject_Z (234 + 1)) with (235 # 1);
    Lqa.lra.
Qed.

Lemma tempo_is_rounded_product_witness :
  (60 <= 85 <= 180)%Q /\
  exists m : Q,
    calculateProfessionalTempo ["ambient"; "trap"] 85 = JS.round (JS.mul64 85 m) /\
    ((mentions ["ambient"; "trap"] slowKeywords /\ m = 7 # 10) \/
     (~ mentions ["ambient"; "trap"] slowKeywords /\
      mentions ["ambient"; "trap"] fastKeywords /\ m = 13 # 10) \/
     (~ mentions ["ambient"; "trap"] slowKeywords /\
      ~ mentions ["ambient"; "trap"] fastKeywords /\ m = 1%Q)) /\
    (85 * m - (1 # 1000000000000) <= JS.mul64 85 m)%Q /\
    (JS.mul64 85 m <= 85 * m + (1 # 1000000000000))%Q /\
    42 <= calculateProfessionalTempo ["ambient"; "trap"] 85 <= 234.
Proof.
  split; [split; vm_compute; congruence|].
  apply (tempo_is_rounded_product ["ambient"; "trap"] 85).
  split; vm_compute; congruence.
Defined.

(** The rounding of the product shows in the tempo: at 85, 165 and 175 BPM
    with a slow keyword the exact product ends in a half and would round
    up, the binary64 product lies just below it. *)
Lemma tempo_at_a_half :
  calculateProfessionalTempo ["ambient"] 85 = 59 /\
  JS.round (85 * (7 # 10)) = 60 /\
  calculateProfessionalTempo ["ambient"] 165 = 115 /\
  JS.round (165 * (7 # 10)) = 116 /\
  calculateProfessionalTempo ["ambient"] 175 = 122 /\
  JS.round (175 * (7 # 10)) = 123.
Proof. repeat split; vm_compute; reflexivity. Qed.

End Tempo.

(** ** Prompt analysis: the resolved mood and the chord progression *)

Section PromptAnalysis.
Import Comp Schema MusicTheoryEngine MusicGenerator Spec.
Local Open Scope string_scope.

Lemma selectProfessionalKey_returns mood style g :
  exists k g', selectProfessionalKey mood style g = Ok k g' /\ draws g' = draws g.
Proof.
  unfold selectProfessionalKey, randomIndex.
  destruct (JS.inherited mood); unfold_comp; simpl; eauto.
Qed.

(** A mood without an entry in [CHORD_PROGRESSIONS] makes the chord
    progression step throw, whatever the key, the scale and the draws. *)
Lemma chord_progression_missing_mood key scale mood style g :
  CHORD_PROGRESSIONS !! mood = None ->
  generateProfessionalChordProgression key scale mood style g = Throw JS.TypeError.
Proof.
  intros Hnone. unfold generateProfessionalChordProgression. unfold_comp.
  simpl. rewrite Hnone. reflexivity.
Qed.

Lemma analyze_missing_mood prompt settings g :
  CHORD_PROGRESSIONS !! extractAdvancedMood (promptWords prompt) = None ->
  analyzePromptAdvanced prompt settings g = Throw JS.TypeError.
Proof.
  intros Hnone. unfold analyzePromptAdvanced.
  destruct (selectProfessionalKey_returns
              (extractAdvancedMood (promptWords prompt))
              (extractMusicStyle (promptWords prompt)) g) as (k & g' & Hk & _).
  unfold mbind at 1. unfold M_bind at 1. rewrite Hk.
  unfold mbind at 1. unfold M_bind at 1.
  now rewrite chord_progression_missing_mood.
Qed.

(** The three moods of the enumeration that have no entry. *)
Lemma moods_without_progressions mood :
  mood ∈ moods -> mood ∉ moodsWithProgressions ->
  CHORD_PROGRESSIONS !! mood = None /\
  mood ∈ ["melancholic"; "ethereal"; "nostalgic"].
Proof.
  intros Hin Hout. unfold moods in Hin.
  repeat (apply elem_of_cons in Hin as [-> | Hin]);
    try (exfalso; apply Hout; unfold moodsWithProgressions; set_solver);
    try (split; [reflexivity | set_solver]).
Qed.

(** Decides [valid] on concrete settings. *)
Ltac valid_settings :=
  unfold valid; repeat split; try (vm_compute; congruence);
  unfold moods; set_solver.

Lemma sadRequest_valid : valid sadRequest.
Proof. valid_settings. Qed.

Lemma upliftingDarkRequest_valid : valid upliftingDarkRequest.
Proof. valid_settings. Qed.

Lemma upliftingAt80_valid : valid upliftingAt80.
Proof. valid_settings. Qed.

Lemma getDefaultSettings_valid : valid getDefaultSettings.
Proof. valid_settings. Qed.

(** C1, at the failing input: a valid request whose prompt is "sad"
    resolves to the melancholic mood, for which [CHORD_PROGRESSIONS] has no
    entry, and the generation throws a [TypeError] whatever the random
    draws. *)
Theorem generate_throws_on_sad_prompt :
  valid sadRequest /\
  extractAdvancedMood (promptWords (createCustomPrompt sadRequest)) = "melancholic" /\
  forall g, generateEnhancedFallback sadRequest g = Throw JS.TypeError.
Proof.
  split; [apply sadRequest_valid|]. split; [reflexivity|].
  intros g. unfold generateEnhancedFallback.
  unfold mbind at 1. unfold M_bind at 1.
  rewrite analyze_missing_mood; reflexivity.
Qed.

(** C9, the claim as stated fails: with the mood set to uplifting and the
    prompt "dark brooding" the analysis resolves the mood dark. *)
Lemma prompt_mood_wins_over_setting :
  valid upliftingDarkRequest /\
  Schema.mood upliftingDarkRequest = "uplifting" /\
  (MusicTheoryEngine.mood ∘ fst)
    <$> value (generateEnhancedFallback upliftingDarkRequest (constant_rng 0))
  = Some "dark" /\
  (MusicTheoryEngine.mood ∘ fst)
    <$> value (generateEnhancedFallback upliftingDarkRequest (constant_rng 0))
  <> Some (Schema.mood upliftingDarkRequest).
Proof.
  split; [apply upliftingDarkRequest_valid|].
  split; [reflexivity|]. split; [vm_compute; reflexivity|].
  vm_compute. congruence.
Qed.

Lemma analyze_mood prompt settings g :
  match analyzePromptAdvanced prompt settings g with
  | Ok a _ => MusicTheoryEngine.mood a = extractAdvancedMood (promptWords prompt)
  | Throw _ => True
  end.
Proof.
  unfold analyzePromptAdvanced.
  unfold mbind at 1. unfold M_bind at 1.
  destruct (selectProfessionalKey _ _ g) as [k g1|e]; [|exact I].
  unfold mbind at 1. unfold M_bind at 1.
  destruct (generateProfessionalChordProgression _ _ _ _ g1) as [c g2|e]; [|exact I].
  reflexivity.
Qed.

(** The tempo the analysis resolves is the one [calculateProfessionalTempo]
    computes from the words of the prompt and the pace of the settings, 85
    BPM standing in for a pace of 0. *)
Lemma analyze_tempo prompt settings g :
  match analyzePromptAdvanced prompt settings g with
  | Ok a _ =>
      tempo a = calculateProfessionalTempo (promptWords prompt)
                  (JS.or_else (pace settings) 85)
  | Throw _ => True
  end.
Proof.
  unfold analyzePromptAdvanced.
  unfold mbind at 1. unfold M_bind at 1.
  destruct (selectProfessionalKey _ _ g) as [k g1|e]; [|exact I].
  unfold mbind at 1. unfold M_bind at 1.
  destruct (generateProfessionalChordProgression _ _ _ _ g1) as [c g2|e]; [|exact I].
  reflexivity.
Qed.

End PromptAnalysis.

(** ** Chords *)

Section Chords.
Import Comp Schema MusicTheoryEngine MusicGenerator Spec.
Local Open Scope string_scope.
Local Open Scope Z_scope.

Lemma addChordTensions_returns roman intervals g :
  exists t g', addChordTensions roman intervals g = Ok t g' /\ draws g' = draws g.
Proof.
  unfold addChordTensions. unfold_comp. simpl.
  destruct (Qlt_le_dec (8 # 10) _); simpl; eauto.
Qed.

(** [romanToChord] always returns, and the random draws only decide the
    tensions: the intervals are a function of the numeral, the root and the
    scale. *)
Lemma romanToChord_returns roman root scale g :
  exists info g',
    romanToChord roman root scale g = Ok info g' /\ draws g' = draws g /\
    info_intervals info =
      let chordRoot :=
        JS.remn (JS.add (Some root) (JS.index scale (degreeOf roman))) 12 in
      [ chordRoot;
        JS.remn (JS.sub (JS.add chordRoot (JS.index scale (degreeOf roman + 2)))
                        (JS.index scale (degreeOf roman))) 12;
        JS.remn (JS.sub (JS.add chordRoot (JS.index scale (degreeOf roman + 4)))
                        (JS.index scale (degreeOf roman))) 12 ].
Proof.
  unfold romanToChord.
  match goal with
  | |- context [addChordTensions roman ?i] =>
      destruct (addChordTensions_returns roman i g) as (t & g' & Ht & Hd)
  end.
  unfold mbind at 1. unfold M_bind at 1. rewrite Ht.
  eexists _, g'. split; [reflexivity|]. split; [exact Hd | reflexivity].
Qed.

(** In a seven-note scale the fifth of every chord built on the fourth
    degree or above is read past the end of the scale, and is [NaN]; so is
    the third from the sixth degree on. *)
Lemma romanToChord_fifth_NaN roman root scale g :
  length scale = 7%nat -> 3 <= degreeOf roman ->
  exists info g',
    romanToChord roman root scale g = Ok info g' /\
    info_intervals info !! 2%nat = Some None.
Proof.
  intros Hlen Hdeg.
  destruct (romanToChord_returns roman root scale g) as (info & g' & Hr & _ & Hi).
  exists info, g'. split; [exact Hr|]. rewrite Hi.
  generalize dependent (degreeOf roman). intros d Hdeg.
  assert (JS.index scale (d + 4) = None) as Hnone.
  { unfold JS.index. destruct (d + 4 <? 0) eqn:E; [reflexivity|].
    apply lookup_ge_None. lia. }
  cbv zeta. cbn [lookup list_lookup]. rewrite Hnone. f_equal.
  destruct (JS.remn (JS.add (Some root) (JS.index scale d)) 12); reflexivity.
Qed.

Lemma degreeOf_range roman : 0 <= degreeOf roman <= 6.
Proof.
  unfold degreeOf.
  destruct (romanMap !! roman) as [d|] eqn:Hd; [|cbv; split; discriminate].
  assert (In d [0; 1; 2; 3; 4; 5; 6]) as Hin.
  { apply (map_Forall_lookup_1 (fun _ d => In d [0; 1; 2; 3; 4; 5; 6]) romanMap roman d);
      [|exact Hd].
    apply map_Forall_to_list. vm_compute.
    repeat (constructor; [tauto|]). constructor. }
  unfold JS.or_elseZ. cbn in Hin.
  destruct Hin as [<- | [<- | [<- | [<- | [<- | [<- | [<- | []]]]]]]]; cbn; lia.
Qed.

(** The root of a chord is never [NaN] in a seven-note scale of semitones:
    it is read at a degree within the scale and reduced modulo 12. *)
Lemma romanToChord_root_semitone roman root scale g :
  length scale = 7%nat -> 0 <= root -> Forall (fun x => 0 <= x) scale ->
  exists info g',
    romanToChord roman root scale g = Ok info g' /\
    exists r, info_intervals info !! 0%nat = Some r /\ semitone r.
Proof.
  intros Hlen Hroot Hscale.
  destruct (romanToChord_returns roman root scale g) as (info & g' & Hr & _ & Hi).
  exists info, g'. split; [exact Hr|]. rewrite Hi. cbn [lookup list_lookup].
  eexists. split; [reflexivity|].
  pose proof (degreeOf_range roman) as Hdeg.
  unfold JS.index. destruct (degreeOf roman <? 0) eqn:E; [lia|].
  destruct (scale !! Z.to_nat (degreeOf roman)) as [x|] eqn:Hx.
  - exists (JS.rem (root + x) 12). split; [reflexivity|].
    assert (0 <= x).
    { rewrite Forall_forall in Hscale. apply Hscale.
      eapply list_elem_of_lookup_2. exact Hx. }
    unfold JS.rem. pose proof (Z.rem_bound_pos (root + x) 12). lia.
  - apply lookup_ge_None in Hx. lia.
Qed.

(** C7, at the failing input: the default request, with draws that are all
    0, plays vi-IV-I-V in E minor; the third and the fifth of vi and the
    fifths of IV and V are read past the end of the seven-note scale and are
    [NaN], so three of the four chords are not chords of semitones. *)
Theorem default_progression_has_NaN_intervals :
  valid getDefaultSettings /\
  exists analysis metadata g',
    generateEnhancedFallback getDefaultSettings (constant_rng 0)
    = Ok (analysis, metadata) g' /\
    List.map intervals (chordProgression analysis)
    = [ [Some 0; None; None];
        [Some 9; Some 0; None];
        [Some 4; Some 7; Some 11];
        [Some 11; Some 2; None] ] /\
    ~ Forall wellFormedChord (chordProgression analysis).
Proof.
  split; [apply getDefaultSettings_valid|].
  eexists _, _, _. split; [vm_compute; reflexivity|].
  split; [reflexivity|].
  intros Hall. apply Forall_cons in Hall as [Hvi _].
  unfold wellFormedChord in Hvi. cbn [intervals] in Hvi.
  apply Forall_cons in Hvi as [_ Hvi]. apply Forall_cons in Hvi as [Hthird _].
  destruct Hthird as (z & Hz & _). discriminate.
Qed.

End Chords.

(** ** The moods that do have progressions *)

Section ProgressionsPresent.
Import Comp Schema MusicTheoryEngine MusicGenerator Spec.
Local Open Scope string_scope.
Local Open Scope Z_scope.

Lemma bind_Ok {A B} (m : M A) (f : A -> M B) g a g1 :
  m g = Ok a g1 -> (m ≫= f) g = f a g1.
Proof. intros H. unfold mbind, M_bind. now rewrite H. Qed.

Lemma mapM_returns {A B} (f : A -> M B) (l : list A) :
  (forall a g, exists b g', f a g = Ok b g' /\ draws g' = draws g) ->
  forall g, exists bs g',
    mapM f l g = Ok bs g' /\ length bs = length l /\ draws g' = draws g.
Proof.
  intros Hf. induction l as [|a l IH]; intros g.
  - exists [], g. repeat split.
  - destruct (Hf a g) as (b & g1 & Hb & Hd1).
    destruct (IH g1) as (bs & g2 & Hbs & Hlen & Hd2).
    exists (b :: bs), g2. cbn [mapM].
    rewrite (bind_Ok _ _ _ _ _ Hb), (bind_Ok _ _ _ _ _ Hbs).
    repeat split; [cbn; now rewrite Hlen | congruence].
Qed.

(** [Math.floor(Math.random() * n)] is an index below [n]. *)
Lemma floor_random_range (r : Q) (n : Z) :
  (0 <= r)%Q -> (r < 1)%Q -> 0 < n -> 0 <= JS.floor (r * inject_Z n) < n.
Proof.
  intros Hr0 Hr1 Hn. unfold JS.floor.
  assert (0 < inject_Z n)%Q as HnQ by (rewrite Zlt_Qlt in Hn; exact Hn).
  split.
  - change 0 with (Qfloor 0). apply Qfloor_resp_le. Lqa.nra.
  - assert (inject_Z (Qfloor (r * inject_Z n)) < inject_Z n)%Q as Hlt.
    { eapply Qle_lt_trans; [apply Qfloor_le|]. Lqa.nra. }
    now rewrite <- Zlt_Qlt in Hlt.
Qed.

Lemma chord_of_roman_returns rootNote scale roman g :
  exists c g',
    (chordInfo ← romanToChord roman rootNote scale;
     mret (mkChord roman (info_name chordInfo) (info_intervals chordInfo)
             (info_tensions chordInfo) (getHarmonicFunction roman) 4)) g
    = Ok c g' /\ draws g' = draws g.
Proof.
  destruct (romanToChord_returns roman rootNote scale g) as (info & g' & Hr & Hd & _).
  eexists _, g'. rewrite (bind_Ok _ _ _ _ _ Hr). split; [reflexivity | exact Hd].
Qed.

(** For a mood with an entry in [CHORD_PROGRESSIONS], a defined key and
    draws in [[0,1)], the chord progression step returns four chords. *)
Lemma chord_progression_returns k scale mood style g :
  mood ∈ moodsWithProgressions -> rng_ok g ->
  exists chords g',
    generateProfessionalChordProgression (Some k) scale mood style g
    = Ok chords g' /\ length chords = 4%nat.
Proof.
  intros Hmood Hg. destruct (Hg (cursor g)) as [Hr0 Hr1].
  pose proof (floor_random_range _ 3 Hr0 Hr1 eq_refl) as Hi.
  unfold generateProfessionalChordProgression.
  rewrite (bind_Ok random _ g _ _ eq_refl).
  unfold moodsWithProgressions in Hmood.
  repeat (apply elem_of_cons in Hmood as [-> | Hmood]);
    [ | | | now apply elem_of_nil in Hmood ].
  all: match goal with
       | |- context [CHORD_PROGRESSIONS !! ?m] =>
           let d := eval vm_compute in (CHORD_PROGRESSIONS !! m) in
           change (CHORD_PROGRESSIONS !! m) with d
       end.
  all: cbn [defined]; rewrite (bind_Ok (mret _) _ _ _ _ eq_refl).
  all: change (Z.of_nat (length _)) with 3.
  all: set (i := JS.floor (draws g (cursor g) * inject_Z 3)) in *.
  all: assert (i = 0 \/ i = 1 \/ i = 2) as [-> | [-> | ->]] by lia.
  all: rewrite (bind_Ok (parseKey (Some k)) _ _ _ _ eq_refl).
  all: match goal with
       | |- context [JS.index ?d ?j] =>
           let v := eval vm_compute in (JS.index d j) in
           change (JS.index d j) with v
       end.
  all: cbn [defined]; rewrite (bind_Ok (mret _) _ _ _ _ eq_refl).
  all: cbn [progression].
  all: match goal with
       | |- context [mapM ?f ?l ?g0] =>
           destruct (mapM_returns f l (chord_of_roman_returns _ scale) g0)
             as (chords & g' & Hm & Hlen & _)
       end.
  all: exists chords, g'; split; [exact Hm | exact Hlen].
Qed.

Lemma selectProfessionalKey_defined mood style g :
  mood ∈ moodsWithProgressions -> rng_ok g ->
  exists k, selectProfessionalKey mood style g
            = Ok (Some k) (mkRng (draws g) (S (cursor g))).
Proof.
  intros Hmood Hg. destruct (Hg (cursor g)) as [Hr0 Hr1].
  pose proof (floor_random_range _ 4 Hr0 Hr1 eq_refl) as Hi.
  unfold selectProfessionalKey.
  unfold moodsWithProgressions in Hmood.
  repeat (apply elem_of_cons in Hmood as [-> | Hmood]);
    [ | | | now apply elem_of_nil in Hmood ].
  all: match goal with
       | |- context [JS.inherited ?m] =>
           change (JS.inherited m) with false; cbv iota
       end.
  all: match goal with
       | |- context [default ?d (keysByMood !! ?m)] =>
           let v := eval vm_compute in (default d (keysByMood !! m)) in
           change (default d (keysByMood !! m)) with v
       end.
  all: cbv zeta.
  all: match goal with
       | |- context [randomIndex ?arr] =>
           rewrite (bind_Ok (randomIndex arr) _ g _ _ eq_refl)
       end.
  all: change (Z.of_nat (length _)) with 4.
  all: set (i := JS.floor (draws g (cursor g) * inject_Z 4)) in *.
  all: assert (i = 0 \/ i = 1 \/ i = 2 \/ i = 3) as [-> | [-> | [-> | ->]]] by lia.
  all: eexists; reflexivity.
Qed.

(** For a prompt that resolves to a mood with an entry in
    [CHORD_PROGRESSIONS] and draws in [[0,1)], the analysis returns, with a
    progression of four chords. *)
Lemma analyze_returns_four_chords prompt settings g :
  extractAdvancedMood (promptWords prompt) ∈ moodsWithProgressions -> rng_ok g ->
  exists a g',
    analyzePromptAdvanced prompt settings g = Ok a g' /\
    length (chordProgression a) = 4%nat.
Proof.
  intros Hmood Hg. unfold analyzePromptAdvanced.
  destruct (selectProfessionalKey_defined _
              (extractMusicStyle (promptWords prompt)) g Hmood Hg) as (k & Hk).
  rewrite (bind_Ok _ _ _ _ _ Hk).
  destruct (chord_progression_returns k
              (selectScale (extractAdvancedMood (promptWords prompt))
                 (extractMusicStyle (promptWords prompt)))
              _ (extractMusicStyle (promptWords prompt))
              (mkRng (draws g) (S (cursor g))) Hmood)
    as (chords & g' & Hc & Hlen).
  { intros n. apply (Hg n). }
  rewrite (bind_Ok _ _ _ _ _ Hc).
  eexists _, g'. split; [reflexivity | exact Hlen].
Qed.

End ProgressionsPresent.

(** ** The resolved mood and scale *)

Section ResolvedAnalysis.
Import Comp Schema MusicTheoryEngine MusicGenerator Spec.
Local Open Scope string_scope.

Lemma find_first_mentioned (table : list (string * list string)) words :
  match List.find (fun entry =>
          JS.some (fun word => JS.includes (snd entry) word) words) table with
  | Some entry =>
      exists before after,
        table = (before ++ entry :: after)%list /\
        mentions words (snd entry) /\
        Forall (fun entry => ~ mentions words (snd entry)) before
  | None => Forall (fun entry => ~ mentions words (snd entry)) table
  end.
Proof.
  induction table as [|entry table IH]; cbn [List.find]; [constructor|].
  destruct (JS.some (fun word => JS.includes (snd entry) word) words) eqn:E.
  - exists [], table. repeat split; [|constructor].
    now apply some_includes_iff.
  - assert (~ mentions words (snd entry)) as Hno.
    { intros H. apply some_includes_iff in H.
      change (JS.some (JS.includes (snd entry)) words)
        with (JS.some (fun word => JS.includes (snd entry) word) words) in H.
      congruence. }
    destruct (List.find _ table) as [found|].
    + destruct IH as (before & after & -> & Hfound & Hbefore).
      exists (entry :: before), after. repeat split; [exact Hfound|].
      constructor; assumption.
    + constructor; assumption.
Qed.

Lemma first_entry_is_first_mentioned table words d :
  firstMentioned table words d (first_entry table words d).
Proof.
  unfold first_entry, firstMentioned.
  pose proof (find_first_mentioned table words) as H.
  destruct (List.find _ table) as [[m keywords]|].
  - left. destruct H as (before & after & -> & Hm & Hbefore).
    exists before, keywords, after. repeat split; assumption.
  - right. split; [exact H | reflexivity].
Qed.

Lemma analyze_outcome prompt settings g a g' :
  analyzePromptAdvanced prompt settings g = Ok a g' ->
  MusicTheoryEngine.mood a = extractAdvancedMood (promptWords prompt) /\
  scale a = selectScale (MusicTheoryEngine.mood a) (style a).
Proof.
  unfold analyzePromptAdvanced.
  unfold mbind at 1. unfold M_bind at 1.
  destruct (selectProfessionalKey _ _ g) as [k g1|e]; [|discriminate].
  unfold mbind at 1. unfold M_bind at 1.
  destruct (generateProfessionalChordProgression _ _ _ _ g1) as [c g2|e];
    [|discriminate].
  intros H. injection H as <- _. split; reflexivity.
Qed.

Lemma analyze_throws_without_progressions prompt settings g :
  extractAdvancedMood (promptWords prompt) ∉ moodsWithProgressions ->
  analyzePromptAdvanced prompt settings g = Throw JS.TypeError.
Proof.
  intros Hout. apply analyze_missing_mood.
  now apply moods_without_progressions; [apply extractAdvancedMood_in_enum|].
Qed.

(** C2.  Each mood of the enumeration selects one scale, whatever the
    style: dreamy, melancholic and nostalgic the natural minor, dark the
    phrygian, uplifting the major, ethereal the dorian.  The mood the
    prompt analysis resolves is one of the six, and the scale of every
    analysis it returns is the scale selected by the mood of that analysis;
    the analysis returns whenever the resolved mood has chord
    progressions. *)
Theorem selectScale_by_mood (style : string) :
  selectScale "dreamy" style = [0; 2; 3; 5; 7; 8; 10] /\
  selectScale "melancholic" style = [0; 2; 3; 5; 7; 8; 10] /\
  selectScale "nostalgic" style = [0; 2; 3; 5; 7; 8; 10] /\
  selectScale "dark" style = [0; 1; 3; 5; 7; 8; 10] /\
  selectScale "uplifting" style = [0; 2; 4; 5; 7; 9; 11] /\
  selectScale "ethereal" style = [0; 2; 3; 5; 7; 9; 10] /\
  (forall words, extractAdvancedMood words ∈ moods) /\
  (forall prompt settings g a g',
     analyzePromptAdvanced prompt settings g = Ok a g' ->
     MusicTheoryEngine.mood a = extractAdvancedMood (promptWords prompt) /\
     MusicTheoryEngine.mood a ∈ moods /\
     scale a = selectScale (MusicTheoryEngine.mood a) (MusicTheoryEngine.style a)) /\
  (forall prompt settings g,
     rng_ok g ->
     extractAdvancedMood (promptWords prompt) ∈ moodsWithProgressions ->
     exists a g',
       analyzePromptAdvanced prompt settings g = Ok a g' /\
       scale a = selectScale (extractAdvancedMood (promptWords prompt))
                   (MusicTheoryEngine.style a)).
Proof.
  repeat split; try reflexivity.
  - apply extractAdvancedMood_in_enum.
  - now apply analyze_outcome in H.
  - apply analyze_outcome in H as [-> _]. apply extractAdvancedMood_in_enum.
  - now apply analyze_outcome in H.
  - intros prompt settings g Hg Hmood.
    destruct (analyze_returns_four_chords prompt settings g Hmood Hg)
      as (a & g' & Ha & _).
    exists a, g'. split; [exact Ha|].
    apply analyze_outcome in Ha as [<- Hs]. exact Hs.
Qed.

(** C9, amended.  The professional path ([analyzePromptAdvanced], which
    [generateEnhancedFallback] calls) reads the mood off the prompt alone:
    the resolved mood is that of the first of dreamy, dark, uplifting,
    melancholic, ethereal and nostalgic one of whose keywords is a word of
    the prompt, and dreamy when there is none.  The mood of the settings is
    not read there: changing it changes neither the analysis nor the
    outcome of [generateEnhancedFallback].  The analysis returns, with that
    mood, when the mood is dreamy, dark or uplifting and the draws lie in
    [[0,1)], and throws otherwise. *)
Theorem resolved_mood_ignores_setting
    (settings : GenerationSettings) (m : string) (g : Rng) :
  (forall prompt,
     analyzePromptAdvanced prompt (with_mood m settings) g
     = analyzePromptAdvanced prompt settings g) /\
  generateEnhancedFallback (with_mood m settings) g
  = generateEnhancedFallback settings g /\
  (forall words,
     firstMentioned moodKeywords words "dreamy" (extractAdvancedMood words)) /\
  (forall prompt a g',
     analyzePromptAdvanced prompt settings g = Ok a g' ->
     firstMentioned moodKeywords (promptWords prompt) "dreamy"
       (MusicTheoryEngine.mood a)) /\
  (forall prompt,
     rng_ok g ->
     extractAdvancedMood (promptWords prompt) ∈ moodsWithProgressions ->
     exists a g',
       analyzePromptAdvanced prompt settings g = Ok a g' /\
       MusicTheoryEngine.mood a = extractAdvancedMood (promptWords prompt)) /\
  (forall prompt,
     extractAdvancedMood (promptWords prompt) ∉ moodsWithProgressions ->
     analyzePromptAdvanced prompt settings g = Throw JS.TypeError).
Proof.
  split; [reflexivity|]. split; [reflexivity|].
  split; [intros words; apply first_entry_is_first_mentioned|].
  split; [|split].
  - intros prompt a g' Ha. apply analyze_outcome in Ha as [-> _].
    apply first_entry_is_first_mentioned.
  - intros prompt Hg Hmood.
    destruct (analyze_returns_four_chords prompt settings g Hmood Hg)
      as (a & g' & Ha & _).
    exists a, g'. split; [exact Ha|]. now apply analyze_outcome in Ha.
  - intros prompt. apply analyze_throws_without_progressions.
Qed.

End ResolvedAnalysis.

(** ** Durations and song structures *)

Section Durations.
Import Comp Schema MusicTheoryEngine MusicGenerator Spec.
Local Open Scope string_scope.
Local Open Scope Z_scope.

Lemma clampDuration_bounds (x : Q) : 90 <= clampDuration x <= 180.
Proof. unfold clampDuration. lia. Qed.

(** C3.  The duration of a track lies in [[90,180]] seconds: the one
    [generateSong] computes from the settings and the generation count, and
    the one the professional path computes from the analysis, whatever the
    mood, the pace, the random draws and the count. *)
Theorem duration_within_bounds
    (generationCount : Z) (settings : GenerationSettings)
    (analysis : MusicTheoryAnalysis) (g : Rng) :
  90 <= calculateDynamicDuration generationCount settings <= 180 /\
  90 <= calculateProfessionalDuration analysis settings <= 180 /\
  match generateEnhancedFallback settings g with
  | Ok (_, metadata) _ => 90 <= MusicGenerator.duration metadata <= 180
  | Throw _ => True
  end.
Proof.
  split; [apply clampDuration_bounds|]. split; [apply clampDuration_bounds|].
  unfold generateEnhancedFallback. unfold mbind, M_bind.
  destruct (analyzePromptAdvanced _ settings g) as [a g'|e]; [|exact I].
  apply clampDuration_bounds.
Qed.

(** The sibling path: the structure [generateSong] attaches to a track of
    its main path tiles the duration it reports, for every settings and
    every generation count. *)
Lemma evolved_structure_partitions (generationCount : Z)
    (settings : GenerationSettings) :
  0 <= generationCount ->
  exists st,
    generateEvolvedStructure generationCount settings = Some st /\
    partitions st (inject_Z (calculateDynamicDuration generationCount settings)).
Proof.
  intros Hcount. unfold generateEvolvedStructure.
  pose proof (clampDuration_bounds
                (let baseDuration := inject_Z (120 + generationCount * 5) in
                 let multiplier :=
                   JS.or_else (default 0%Q (moodMultipliers !! Schema.mood settings)) 1 in
                 let baseDuration := (baseDuration * multiplier)%Q in
                 if Qlt_le_dec (pace settings) 80 then (baseDuration * (12 # 10))%Q
                 else if Qlt_le_dec 120 (pace settings)
                      then (baseDuration * (8 # 10))%Q else baseDuration))
    as Hd.
  change (clampDuration _) with (calculateDynamicDuration generationCount settings) in Hd.
  set (d := calculateDynamicDuration generationCount settings) in *.
  assert (90 <= inject_Z d)%Q as HdQ.
  { change 90%Q with (inject_Z 90). rewrite <- Zle_Qle. lia. }
  generalize dependent (inject_Z d). intros q Hq.
  change (Z.of_nat (length structures)) with 4.
  pose proof (Z.rem_bound_pos generationCount 4 Hcount eq_refl) as Hrem.
  unfold JS.rem.
  assert (Z.rem generationCount 4 = 0 \/ Z.rem generationCount 4 = 1 \/
          Z.rem generationCount 4 = 2 \/ Z.rem generationCount 4 = 3)
    as [-> | [-> | [-> | ->]]] by lia.
  all: eexists; split; [reflexivity|].
  all: unfold partitions; cbn -[Qplus Qmult Qlt Qeq Qle].
  all: repeat split; Lqa.lra.
Qed.

(** C4, at the failing input: a request at 80 BPM whose prompt is
    "uplifting" gets a duration of 108 seconds and 8 + 16 + 8 + 8 bars of 3
    seconds before the outro; the bridge ends and the outro starts at 120
    seconds, past the end of the track, and the outro runs backwards to 108
    seconds. *)
Theorem professional_structure_overruns :
  valid upliftingAt80 /\
  exists analysis metadata g',
    generateEnhancedFallback upliftingAt80 (constant_rng 0)
    = Ok (analysis, metadata) g' /\
    MusicGenerator.duration metadata = 108 /\
    (end_ (MusicGenerator.bridge (structure metadata)) == 120)%Q /\
    (start (MusicGenerator.outro (structure metadata)) == 120)%Q /\
    (end_ (MusicGenerator.outro (structure metadata)) == 108)%Q /\
    ~ partitions (structure metadata)
        (inject_Z (MusicGenerator.duration metadata)).
Proof.
  split; [apply upliftingAt80_valid|].
  eexists _, _, _. split; [vm_compute; reflexivity|].
  split; [reflexivity|].
  split; [vm_compute; reflexivity|].
  split; [vm_compute; reflexivity|].
  split; [vm_compute; reflexivity|].
  unfold partitions. intros (_ & _ & _ & _ & _ & _ & _ & _ & _ & Hlt & _).
  vm_compute in Hlt. discriminate.
Qed.

End Durations.

(** ** The WAV encoders *)

Section WavEncoder.
Import NodeBuffer Spec.
Local Open Scope string_scope.
Local Open Scope Z_scope.
Local Open Scope list_scope.

Lemma land_255 v : Z.land v 255 = v mod 256.
Proof. exact (Z.land_ones v 8 ltac:(lia)). Qed.

Lemma ushr8_div v : ushr8 v = (v mod 2 ^ 32) / 256.
Proof. unfold ushr8. now rewrite Z.shiftr_div_pow2 by lia. Qed.

Lemma store_insert buf off v :
  store buf off v = <[Z.to_nat off := v mod 256]> buf.
Proof. unfold store. now rewrite land_255. Qed.

Lemma inBounds_true buf off n :
  0 <= off -> off + n <= Z.of_nat (length buf) -> inBounds buf off n = true.
Proof.
  intros H0 H1. unfold inBounds.
  apply andb_true_intro. split; [now apply Z.leb_le | now apply Z.leb_le].
Qed.

(** The stores of a little-endian write, first byte first, as one
    [list_inserts]. *)
Lemma inserts_two (buf : list Z) (i : nat) a b :
  <[S i := b]> (<[i := a]> buf) = list_inserts i [a; b] buf.
Proof. cbn. apply list_insert_insert_ne. lia. Qed.

Lemma inserts_four (buf : list Z) (i : nat) a b c d :
  <[S (S (S i)) := d]> (<[S (S i) := c]> (<[S i := b]> (<[i := a]> buf)))
  = list_inserts i [a; b; c; d] buf.
Proof.
  cbn.
  rewrite (list_insert_insert_ne _ (S (S (S i))) (S (S i))) by lia.
  rewrite (list_insert_insert_ne _ (S (S (S i))) (S i)) by lia.
  rewrite (list_insert_insert_ne _ (S (S (S i))) i) by lia.
  rewrite (list_insert_insert_ne _ (S (S i)) (S i)) by lia.
  rewrite (list_insert_insert_ne _ (S (S i)) i) by lia.
  rewrite (list_insert_insert_ne _ (S i) i) by lia.
  reflexivity.
Qed.

Lemma le32_bytes v :
  0 <= v <= 4294967295 ->
  [v mod 256; ushr8 v mod 256; ushr8 (ushr8 v) mod 256;
   ushr8 (ushr8 (ushr8 v)) mod 256] = le32 v.
Proof.
  intros Hv. unfold le32. rewrite !ushr8_div. change (2 ^ 32) with 4294967296.
  repeat (apply (f_equal2 cons);
          [try reflexivity; Z.div_mod_to_equations; lia|]).
  reflexivity.
Qed.

Lemma le16_bytes v :
  0 <= v <= 65535 -> [v mod 256; ushr8 v mod 256] = le16 v.
Proof.
  intros Hv. unfold le16. rewrite !ushr8_div. change (2 ^ 32) with 4294967296.
  repeat (apply (f_equal2 cons);
          [try reflexivity; Z.div_mod_to_equations; lia|]).
  reflexivity.
Qed.

(** A signed 16-bit value is stored as its two's complement. *)
Lemma int16_bytes v :
  -32768 <= v <= 32767 -> [v mod 256; ushr8 v mod 256] = int16le v.
Proof.
  intros Hv. unfold int16le, le16. rewrite !ushr8_div.
  change (2 ^ 32) with 4294967296.
  repeat (apply (f_equal2 cons);
          [try reflexivity; Z.div_mod_to_equations; lia|]).
  reflexivity.
Qed.

Lemma decodeUInt32_le32 v :
  0 <= v <= 4294967295 -> decodeUInt32 (le32 v) = Some v.
Proof.
  intros Hv. unfold le32, decodeUInt32. f_equal.
  Z.div_mod_to_equations. lia.
Qed.

Lemma decodeInt16_int16le v :
  -32768 <= v <= 32767 ->
  exists lo hi, int16le v = [lo; hi] /\ 0 <= lo <= 255 /\ 0 <= hi <= 255 /\
                decodeInt16 lo hi = v.
Proof.
  intros Hv. unfold int16le, le16. eexists _, _. split; [reflexivity|].
  unfold decodeInt16.
  repeat split; try (Z.div_mod_to_equations; lia).
  destruct (_ <? 32768) eqn:E; [apply Z.ltb_lt in E | apply Z.ltb_ge in E];
    Z.div_mod_to_equations; lia.
Qed.

Lemma writeUInt32LE_inserts buf v off :
  0 <= v <= 4294967295 -> 0 <= off -> off + 4 <= Z.of_nat (length buf) ->
  writeUInt32LE buf v off = JS.Return (list_inserts (Z.to_nat off) (le32 v) buf).
Proof.
  intros Hv Hoff Hlen. unfold writeUInt32LE.
  rewrite inBounds_true by assumption.
  replace ((0 <=? v) && (v <=? 4294967295)) with true
    by (symmetry; apply andb_true_intro; split; apply Z.leb_le; lia).
  cbn [andb]. rewrite !store_insert.
  replace (Z.to_nat (off + 1)) with (S (Z.to_nat off)) by lia.
  replace (Z.to_nat (off + 2)) with (S (S (Z.to_nat off))) by lia.
  replace (Z.to_nat (off + 3)) with (S (S (S (Z.to_nat off)))) by lia.
  rewrite inserts_four. now rewrite le32_bytes.
Qed.

Lemma writeUInt16LE_inserts buf v off :
  0 <= v <= 65535 -> 0 <= off -> off + 2 <= Z.of_nat (length buf) ->
  writeUInt16LE buf v off = JS.Return (list_inserts (Z.to_nat off) (le16 v) buf).
Proof.
  intros Hv Hoff Hlen. unfold writeUInt16LE.
  rewrite inBounds_true by assumption.
  replace ((0 <=? v) && (v <=? 65535)) with true
    by (symmetry; apply andb_true_intro; split; apply Z.leb_le; lia).
  cbn [andb]. rewrite !store_insert.
  replace (Z.to_nat (off + 1)) with (S (Z.to_nat off)) by lia.
  rewrite inserts_two. now rewrite le16_bytes.
Qed.

Lemma tag_cons c s : tag (String c s) = Z.of_nat (nat_of_ascii c) :: tag s.
Proof. reflexivity. Qed.

Lemma storeChars_inserts s : forall buf off,
  0 <= off -> storeChars buf off s = list_inserts (Z.to_nat off) (tag s) buf.
Proof.
  induction s as [|c s IH]; intros buf off Hoff; [reflexivity|].
  cbn [storeChars]. rewrite IH by lia. rewrite tag_cons. cbn [list_inserts].
  replace (Z.to_nat (off + 1)) with (S (Z.to_nat off)) by lia.
  rewrite list_insert_inserts_lt by lia. rewrite store_insert.
  do 2 f_equal. apply Z.mod_small.
  pose proof (nat_ascii_bounded c). lia.
Qed.

Lemma write_inserts buf s off :
  0 <= off -> off + Z.of_nat (String.length s) <= Z.of_nat (length buf) ->
  write buf s off = JS.Return (list_inserts (Z.to_nat off) (tag s) buf).
Proof.
  intros Hoff Hlen. unfold write. rewrite inBounds_true by assumption.
  now rewrite storeChars_inserts.
Qed.

Lemma result_bind_Return {A B} (a : A) (f : A -> JS.result B) :
  (JS.Return a ≫= f) = f a.
Proof. reflexivity. Qed.

(** The header writes leave the canonical header in front of the zeroed
    sample area. *)
Lemma writeWAVHeader_spec (n sampleRate : Z) :
  0 <= n -> 0 <= sampleRate -> sampleRate * 2 <= 4294967295 ->
  36 + 2 * n <= 4294967295 ->
  writeWAVHeader (alloc (44 + n * 2)) n sampleRate
  = JS.Return (wavHeader n sampleRate ++ replicate (Z.to_nat (n * 2)) 0).
Proof.
  intros Hn Hsr Hrate Hsize. unfold writeWAVHeader.
  assert (Z.of_nat (length (alloc (44 + n * 2))) = 44 + n * 2) as Hlen
    by (unfold alloc; rewrite length_replicate; lia).
  repeat
    (first [ rewrite write_inserts
               by (rewrite ?length_inserts, ?Hlen; cbn [String.length]; lia)
           | rewrite writeUInt32LE_inserts
               by (rewrite ?length_inserts, ?Hlen; lia)
           | rewrite writeUInt16LE_inserts
               by (rewrite ?length_inserts, ?Hlen; lia) ];
     rewrite result_bind_Return).
  rewrite writeUInt32LE_inserts by (rewrite ?length_inserts, ?Hlen; lia).
  f_equal. unfold alloc.
  replace (Z.to_nat (44 + n * 2)) with (44 + Z.to_nat (n * 2))%nat by lia.
  rewrite replicate_add.
  generalize (replicate (Z.to_nat (n * 2)) 0). intros rest.
  replace (36 + n * 2) with (36 + 2 * n) by lia.
  replace (n * 2) with (2 * n) by lia.
  unfold wavHeader, le32, le16.
  repeat match goal with
         | |- context [?a mod 256] =>
             let b := fresh "b" in generalize (a mod 256); intros b
         end.
  reflexivity.
Qed.

Lemma wavHeader_length n sampleRate : length (wavHeader n sampleRate) = 44%nat.
Proof. reflexivity. Qed.

(** The conversion of the professional encoder yields the integer of the
    specification, a 16-bit one, on every sample but [NaN]. *)
Lemma pcm16_range x : -32767 <= pcm16 x <= 32767.
Proof.
  unfold pcm16.
  assert (forall c : Q, (-1 <= c)%Q -> (c <= 1)%Q ->
                        -32767 <= JS.round (c * 32767) <= 32767) as Hc.
  { intros c Hlo Hhi. apply round_bounds.
    - change (inject_Z (-32767)) with (-32767 # 1). Lqa.lra.
    - change (inject_Z (32767 + 1)) with (32768 # 1). Lqa.lra. }
  destruct x as [q| | |]; cbn [clamp]; try (apply Hc; Lqa.lra); [|lia].
  apply Hc.
  - apply Q.le_max_l.
  - apply Q.max_lub; [Lqa.lra | apply Q.le_min_l].
Qed.

Lemma professional_conversion x :
  Float.round (Float.scale (Float.max_with (-1) (Float.min_with 1 x)) 32767)
  = match x with
    | Float.NaN => Float.NaN
    | _ => Float.Finite (inject_Z (pcm16 x))
    end.
Proof. destruct x; reflexivity. Qed.

Lemma writeInt16LE_integer buf r off :
  -32768 <= r <= 32767 -> 0 <= off -> off + 2 <= Z.of_nat (length buf) ->
  writeInt16LE buf (Float.Finite (inject_Z r)) off
  = JS.Return (list_inserts (Z.to_nat off) (int16le r) buf).
Proof.
  intros Hr Hoff Hlen. unfold writeInt16LE, Float.gtb, Float.ltb.
  assert (Qle_bool (inject_Z r) 32767 = true) as ->.
  { apply Qle_bool_iff. change 32767%Q with (inject_Z 32767).
    rewrite <- Zle_Qle. lia. }
  assert (Qle_bool (-32768) (inject_Z r) = true) as ->.
  { apply Qle_bool_iff. change (-32768)%Q with (inject_Z (-32768)).
    rewrite <- Zle_Qle. lia. }
  cbn [negb orb]. rewrite inBounds_true by assumption.
  cbn [Float.toInteger inject_Z Qnum Qden]. rewrite Z.quot_1_r.
  rewrite !store_insert.
  replace (Z.to_nat (off + 1)) with (S (Z.to_nat off)) by lia.
  rewrite inserts_two. now rewrite int16_bytes.
Qed.

Lemma writeInt16LE_NaN buf off :
  0 <= off -> off + 2 <= Z.of_nat (length buf) ->
  writeInt16LE buf Float.NaN off
  = JS.Return (list_inserts (Z.to_nat off) (int16le 0) buf).
Proof.
  intros Hoff Hlen. unfold writeInt16LE, Float.gtb, Float.ltb.
  cbn [orb]. rewrite inBounds_true by assumption.
  cbn [Float.toInteger]. rewrite !store_insert.
  replace (Z.to_nat (off + 1)) with (S (Z.to_nat off)) by lia.
  rewrite inserts_two. reflexivity.
Qed.

Lemma professional_writeSamples audioData : forall (pre : list Z) (i : Z),
  0 <= i -> Z.of_nat (length pre) = 44 + i * 2 ->
  ProfessionalAudioRenderer.writeSamples i audioData
    (pre ++ replicate (2 * length audioData) 0)
  = JS.Return (pre ++ (audioData ≫= fun x => int16le (pcm16 x))).
Proof.
  induction audioData as [|x rest IH]; intros pre i Hi Hpre.
  - cbn. reflexivity.
  - cbn [ProfessionalAudioRenderer.writeSamples].
    replace (2 * length (x :: rest))%nat with (S (S (2 * length rest))) by (cbn; lia).
    cbn [replicate].
    assert (ProfessionalAudioRenderer.writeSamples (i + 1) rest
              ((pre ++ int16le (pcm16 x)) ++ replicate (2 * length rest) 0)
            = JS.Return ((pre ++ int16le (pcm16 x))
                         ++ (rest ≫= fun x => int16le (pcm16 x)))) as Hrest.
    { apply IH; [lia|]. rewrite length_app. cbn [int16le le16 length]. lia. }
    assert (list_inserts (Z.to_nat (44 + i * 2)) (int16le (pcm16 x))
              (pre ++ 0 :: 0 :: replicate (2 * length rest) 0)
            = (pre ++ int16le (pcm16 x)) ++ replicate (2 * length rest) 0) as Hins.
    { replace (Z.to_nat (44 + i * 2)) with (length pre + 0)%nat by lia.
      rewrite list_inserts_app_r. rewrite <- app_assoc. reflexivity. }
    rewrite professional_conversion.
    assert (44 + i * 2 + 2
            <= Z.of_nat (length (pre ++ 0 :: 0 :: replicate (2 * length rest) 0)))
      as Hfit by (rewrite length_app; cbn [length]; lia).
    pose proof (pcm16_range x) as Hrange.
    destruct x as [q| | |].
    4: { rewrite writeInt16LE_NaN by lia.
         rewrite result_bind_Return.
         change (int16le 0) with (int16le (pcm16 Float.NaN)).
         rewrite Hins, Hrest. now rewrite <- app_assoc. }
    all: rewrite writeInt16LE_integer by lia.
    all: rewrite result_bind_Return, Hins, Hrest.
    all: now rewrite <- app_assoc.
Qed.

Lemma wavFile_length audioData sampleRate :
  length (wavFile audioData sampleRate) = (44 + 2 * length audioData)%nat.
Proof.
  unfold wavFile. rewrite length_app, wavHeader_length. f_equal.
  induction audioData as [|x rest IH]; [reflexivity|].
  cbn [mbind list_bind]. rewrite length_app, IH. cbn [int16le le16 length]. lia.
Qed.

(** The professional encoder produces the PCM file of the specification:
    44 header bytes, then two bytes a sample, the rounded clamped sample in
    two's complement, least significant byte first. *)
Lemma professional_wav_layout (audioData : list Float.t) (sampleRate : Z) :
  0 <= sampleRate -> sampleRate * 2 <= 4294967295 ->
  36 + 2 * Z.of_nat (length audioData) <= 4294967295 ->
  ProfessionalAudioRenderer.createWAVBuffer audioData sampleRate
  = JS.Return (wavFile audioData sampleRate) /\
  length (wavFile audioData sampleRate) = (44 + 2 * length audioData)%nat.
Proof.
  intros Hsr Hrate Hsize. split.
  - unfold ProfessionalAudioRenderer.createWAVBuffer. cbv zeta.
    rewrite writeWAVHeader_spec by lia. rewrite result_bind_Return.
    replace (Z.to_nat (Z.of_nat (length audioData) * 2))
      with (2 * length audioData)%nat by lia.
    now rewrite professional_writeSamples by (rewrite ?wavHeader_length; lia).
  - apply wavFile_length.
Qed.

Lemma truncate_range (q : Q) :
  (-32767 <= q)%Q -> (q <= 32767)%Q ->
  -32767 <= Z.quot (Qnum q) (Zpos (Qden q)) <= 32767.
Proof.
  destruct q as [n d]. unfold Qle. cbn [Qnum Qden]. intros Hlo Hhi.
  pose proof (Z.quot_rem' n (Zpos d)) as Hqr.
  pose proof (Z.rem_bound_abs n (Zpos d) ltac:(lia)) as Hrem.
  nia.
Qed.

Lemma writeInt16LE_finite buf q off :
  (-32767 <= q)%Q -> (q <= 32767)%Q ->
  0 <= off -> off + 2 <= Z.of_nat (length buf) ->
  writeInt16LE buf (Float.Finite q) off
  = JS.Return (list_inserts (Z.to_nat off)
                 (int16le (Z.quot (Qnum q) (Zpos (Qden q)))) buf).
Proof.
  intros Hlo Hhi Hoff Hlen. unfold writeInt16LE, Float.gtb, Float.ltb.
  assert (Qle_bool q 32767 = true) as -> by now apply Qle_bool_iff.
  assert (Qle_bool (-32768) q = true) as -> by (apply Qle_bool_iff; Lqa.lra).
  cbn [negb orb]. rewrite inBounds_true by assumption.
  cbn [Float.toInteger]. rewrite !store_insert.
  replace (Z.to_nat (off + 1)) with (S (Z.to_nat off)) by lia.
  rewrite inserts_two. rewrite int16_bytes; [reflexivity|].
  pose proof (truncate_range q Hlo Hhi). lia.
Qed.

Lemma clamp_scaled_range x c :
  clamp x = Some c -> (-32767 <= c * 32767)%Q /\ (c * 32767 <= 32767)%Q.
Proof.
  assert ((-1 <= c)%Q -> (c <= 1)%Q ->
          (-32767 <= c * 32767)%Q /\ (c * 32767 <= 32767)%Q) as Hc
    by (intros; split; Lqa.lra).
  destruct x as [q| | |]; cbn [clamp]; intros [= <-]; apply Hc; try Lqa.lra.
  - apply Q.le_max_l.
  - apply Q.max_lub; [Lqa.lra | apply Q.le_min_l].
Qed.

Lemma legacy_conversion x :
  (x = Float.NaN /\
   Float.scale (Float.max_with (-1) (Float.min_with 1 x)) 32767 = Float.NaN) \/
  exists q,
    Float.scale (Float.max_with (-1) (Float.min_with 1 x)) 32767 = Float.Finite q /\
    (-32767 <= q)%Q /\ (q <= 32767)%Q /\
    Z.quot (Qnum q) (Zpos (Qden q)) = truncated16 x.
Proof.
  destruct x as [q0| | |]; [right | right | right | left; now split].
  - destruct (clamp_scaled_range (Float.Finite q0) _ eq_refl) as [Hlo Hhi].
    eexists. split; [reflexivity|]. repeat split; assumption.
  - eexists. split; [reflexivity|].
    repeat split; vm_compute; congruence.
  - eexists. split; [reflexivity|].
    repeat split; vm_compute; congruence.
Qed.

Lemma legacy_writeSamples audioData : forall (pre : list Z) (i : Z),
  0 <= i -> Z.of_nat (length pre) = 44 + i * 2 ->
  MusicGenerator.writeSamples i audioData
    (pre ++ replicate (2 * length audioData) 0)
  = JS.Return (pre ++ (audioData ≫= fun x => int16le (truncated16 x))).
Proof.
  induction audioData as [|x rest IH]; intros pre i Hi Hpre.
  - cbn. reflexivity.
  - cbn [MusicGenerator.writeSamples].
    replace (2 * length (x :: rest))%nat with (S (S (2 * length rest))) by (cbn; lia).
    cbn [replicate].
    assert (MusicGenerator.writeSamples (i + 1) rest
              ((pre ++ int16le (truncated16 x)) ++ replicate (2 * length rest) 0)
            = JS.Return ((pre ++ int16le (truncated16 x))
                         ++ (rest ≫= fun x => int16le (truncated16 x)))) as Hrest.
    { apply IH; [lia|]. rewrite length_app. cbn [int16le le16 length]. lia. }
    assert (list_inserts (Z.to_nat (44 + i * 2)) (int16le (truncated16 x))
              (pre ++ 0 :: 0 :: replicate (2 * length rest) 0)
            = (pre ++ int16le (truncated16 x)) ++ replicate (2 * length rest) 0)
      as Hins.
    { replace (Z.to_nat (44 + i * 2)) with (length pre + 0)%nat by lia.
      rewrite list_inserts_app_r. rewrite <- app_assoc. reflexivity. }
    assert (44 + i * 2 + 2
            <= Z.of_nat (length (pre ++ 0 :: 0 :: replicate (2 * length rest) 0)))
      as Hfit by (rewrite length_app; cbn [length]; lia).
    destruct (legacy_conversion x) as [(-> & Hconv) | (q & Hconv & Hlo & Hhi & Hq)];
      rewrite Hconv.
    + rewrite writeInt16LE_NaN by lia. rewrite result_bind_Return.
      change (int16le 0) with (int16le (truncated16 Float.NaN)).
      rewrite Hins, Hrest. now rewrite <- app_assoc.
    + rewrite writeInt16LE_finite by (assumption || lia).
      rewrite result_bind_Return, Hq, Hins, Hrest. now rewrite <- app_assoc.
Qed.

(** The encoder of [MusicGenerator] writes the same file with each sample
    truncated toward zero rather than rounded. *)
Lemma legacy_wav_layout (audioData : list Float.t) (sampleRate : Z) :
  0 <= sampleRate -> sampleRate * 2 <= 4294967295 ->
  36 + 2 * Z.of_nat (length audioData) <= 4294967295 ->
  MusicGenerator.createWAVBuffer audioData sampleRate
  = JS.Return (wavHeader (Z.of_nat (length audioData)) sampleRate
               ++ (audioData ≫= fun x => int16le (truncated16 x))).
Proof.
  intros Hsr Hrate Hsize.
  unfold MusicGenerator.createWAVBuffer. cbv zeta.
  rewrite writeWAVHeader_spec by lia. rewrite result_bind_Return.
  replace (Z.to_nat (Z.of_nat (length audioData) * 2))
    with (2 * length audioData)%nat by lia.
  now rewrite legacy_writeSamples by (rewrite ?wavHeader_length; lia).
Qed.

(** C5, at the failing input.  For the one-sample array [[0.5]] at 44100 Hz
    the encoder of [MusicGenerator] writes the header and the bytes FF 3F,
    the integer 16383: 0.5 * 32767 = 16383.5 reaches [writeInt16LE]
    unrounded and its fraction is dropped.  The specification asks for
    round(16383.5) = 16384, the bytes 00 40, which is what the encoder of
    [ProfessionalAudioRenderer] writes. *)
Theorem legacy_encoder_truncates :
  MusicGenerator.createWAVBuffer [Float.Finite (1 # 2)] 44100
  = JS.Return (wavHeader 1 44100 ++ [255; 63]) /\
  decodeInt16 255 63 = 16383 /\
  pcm16 (Float.Finite (1 # 2)) = 16384 /\
  ProfessionalAudioRenderer.createWAVBuffer [Float.Finite (1 # 2)] 44100
  = JS.Return (wavHeader 1 44100 ++ [0; 64]) /\
  wavFile [Float.Finite (1 # 2)] 44100 = wavHeader 1 44100 ++ [0; 64] /\
  MusicGenerator.createWAVBuffer [Float.Finite (1 # 2)] 44100
  <> JS.Return (wavFile [Float.Finite (1 # 2)] 44100).
Proof.
  repeat split; try (vm_compute; reflexivity).
  vm_compute. discriminate.
Qed.

End WavEncoder.

(** ** The per-layer effects *)

Section Effects.
Import Schema ProfessionalAudioRenderer Spec.
Local Open Scope R_scope.

Lemma tanh_lt_1 (x : R) : tanh x < 1.
Proof.
  unfold tanh, sinh, cosh.
  pose proof (exp_pos x) as Hp. pose proof (exp_pos (- x)) as Hn.
  apply Rmult_lt_reg_r with ((exp x + exp (- x)) / 2); [Lra.lra|].
  field_simplify; Lra.lra.
Qed.

Lemma or_else_nonzero (x d : Q) : ~ (x == 0)%Q -> JS.or_else x d = x.
Proof.
  intros Hx. unfold JS.or_else.
  destruct (Qeq_bool x 0) eqn:E; [|reflexivity].
  apply Qeq_bool_eq in E. contradiction.
Qed.

(** With a distortion setting other than 0 the effect is the saturation
    curve of the specification, at [amount = distortion / 100]. *)
Lemma applyDistortion_formula (sample : R) (state : EffectsState)
    (settings : GenerationSettings) :
  ~ (distortion settings == 0)%Q ->
  let amount := Q2R (distortion settings / 100) in
  applyDistortion sample state settings
  = tanh (sample * (1 + amount * 3)) * (1 - amount * 0.1).
Proof.
  intros Hd amount. unfold applyDistortion.
  rewrite or_else_nonzero by assumption.
  destruct (Qeq_bool (distortion settings / 100) 0) eqn:E; [|reflexivity].
  apply Qeq_bool_eq in E. exfalso. apply Hd.
  rewrite <- (Qmult_div_r (distortion settings) 100) by discriminate.
  rewrite E. reflexivity.
Qed.

(** In one turn of the per-layer chain the sample goes through distortion,
    then the filter, the chorus, the delay and the reverb, in that order. *)
Lemma effectsStep_order (i : nat) (sample : R) (state : EffectsState)
    (settings : GenerationSettings) :
  let t := INR i / IZR SAMPLE_RATE in
  fst (effectsStep i sample state settings)
  = fst (applyReverb
           (fst (applyDelay
                   (fst (applyChorus
                           (applyFilter (applyDistortion sample state settings) t)
                           t))
                   (delay_state state)))
           (reverb_state state) settings).
Proof.
  intros t. unfold effectsStep. fold t.
  destruct (applyChorus _ t) as [c lfo]. cbn [fst].
  destruct (applyDelay c _) as [d delay']. cbn [fst].
  destruct (applyReverb d _ settings) as [r reverb']. reflexivity.
Qed.

(** The slider at 0 is a valid distortion setting. *)
Lemma with_distortion_zero_valid (settings : GenerationSettings) :
  valid settings -> valid (with_distortion 0 settings).
Proof.
  unfold valid. cbn [with_distortion bass pace reverb distortion fadeIn fadeOut mood].
  intros (Hb & Hp & Hr & _ & Hi & Ho & Hm).
  repeat split; try tauto; vm_compute; congruence.
Qed.

(** C8, at the failing input: with the distortion slider at 0 the amount
    is not 0 but 20 / 100, the default taking the place of the falsy 0; the
    sample 1 comes out as tanh(1.6) * 0.98, which is below 0.98, and not
    unchanged. *)
Theorem distortion_zero_is_not_bypass (state : EffectsState)
    (settings : GenerationSettings) :
  applyDistortion 1 state (with_distortion 0 settings)
  = tanh (1 * (1 + Q2R (20 / 100) * 3)) * (1 - Q2R (20 / 100) * 0.1) /\
  applyDistortion 1 state (with_distortion 0 settings) < 0.98 /\
  applyDistortion 1 state (with_distortion 0 settings) <> 1.
Proof.
  assert (applyDistortion 1 state (with_distortion 0 settings)
          = tanh (1 * (1 + Q2R (20 / 100) * 3)) * (1 - Q2R (20 / 100) * 0.1))
    as Heq by reflexivity.
  assert (applyDistortion 1 state (with_distortion 0 settings) < 0.98) as Hlt.
  { rewrite Heq.
    pose proof (tanh_lt_1 (1 * (1 + Q2R (20 / 100) * 3))) as Ht.
    generalize dependent (tanh (1 * (1 + Q2R (20 / 100) * 3))). intros y _ Hy.
    change (20 / 100)%Q with (20 # 100)%Q.
    unfold Q2R. cbn [Qnum Qden]. Lra.lra. }
  split; [exact Heq|]. split; [exact Hlt | Lra.lra].
Qed.

(** A delay line that is not empty keeps its index within its buffer, so
    [readLine] never reads past the end. *)
Lemma advanceLine_in_range (line : DelayLine) (v : R) :
  (0 < length (buffer line))%nat ->
  (index (advanceLine line v) < length (buffer (advanceLine line v)))%nat /\
  length (buffer (advanceLine line v)) = length (buffer line).
Proof.
  intros Hlen. unfold advanceLine. cbn [index buffer].
  rewrite length_insert. split; [|reflexivity].
  apply Nat.mod_upper_bound. lia.
Qed.

Lemma applyReverb_zero_default (x : R) (state : DelayLine)
    (settings : GenerationSettings) :
  applyReverb x state (with_reverb 0 settings)
  = applyReverb x state (with_reverb 70 settings).
Proof. reflexivity. Qed.

Lemma effectsStep_zero_default (i : nat) (x : R) (state : EffectsState)
    (settings : GenerationSettings) :
  effectsStep i x state (with_reverb 0 settings)
  = effectsStep i x state (with_reverb 70 settings).
Proof. reflexivity. Qed.

Lemma effectsLoop_zero_default (samples : list R) (settings : GenerationSettings) :
  forall (i : nat) (state : EffectsState),
    effectsLoop i samples state (with_reverb 0 settings)
    = effectsLoop i samples state (with_reverb 70 settings).
Proof.
  induction samples as [|x rest IH]; intros i state; [reflexivity|].
  cbn [effectsLoop]. rewrite effectsStep_zero_default.
  destruct (effectsStep i x state _) as [y state']. now rewrite IH.
Qed.

(** C10.  A reverb setting of 0 cannot be told from the default of 70:
    on every sample sequence and every delay-line state the reverb effect
    gives the same outputs and the same final state under both, and so does
    the whole per-layer chain.  Under the setting 0 the wet level is
    70 / 100, so the delayed signal is mixed in and never dropped. *)
Theorem reverb_zero_is_default (settings : GenerationSettings)
    (samples : list R) (line : DelayLine) (state : EffectsState) :
  reverbSequence (with_reverb 0 settings) samples line
  = reverbSequence (with_reverb 70 settings) samples line /\
  applyEffectsChain samples state (with_reverb 0 settings)
  = applyEffectsChain samples state (with_reverb 70 settings) /\
  forall x : R,
    applyReverb x line (with_reverb 0 settings)
    = (x + readLine line * Q2R (70 / 100),
       advanceLine line (x + readLine line * Q2R (70 / 100) * 0.4)).
Proof.
  split; [|split].
  - revert line. induction samples as [|x rest IH]; intros line; [reflexivity|].
    cbn [reverbSequence]. rewrite applyReverb_zero_default.
    destruct (applyReverb x line _) as [y line']. now rewrite IH.
  - apply effectsLoop_zero_default.
  - intros x. reflexivity.
Qed.

End Effects.

(** ** The synthesis layers *)

Section SynthLayers.
Import Schema ProfessionalSynthEngine.
Local Open Scope string_scope.
Local Open Scope Z_scope.
Local Open Scope list_scope.

(** X1.  The layers follow the instrument switches: pad, bass, arpeggio,
    percussion and lead, in that order, each present exactly when its
    switch (pads, bass, arps, drums, synths) is on, and the atmospheric
    texture layer always last, so that no request is left without a layer
    and no layer type occurs twice. *)
Theorem layers_follow_instruments
    (analysis : MusicTheoryEngine.MusicTheoryAnalysis)
    (settings : GenerationSettings) :
  type <$> createSynthLayers analysis settings
  = (if pads (instruments settings) then ["pad"] else [])
    ++ (if bass_on (instruments settings) then ["bass"] else [])
    ++ (if arps (instruments settings) then ["arp"] else [])
    ++ (if drums (instruments settings) then ["percussion"] else [])
    ++ (if synths (instruments settings) then ["lead"] else [])
    ++ ["texture"] /\
  last (createSynthLayers analysis settings)
  = Some (createAtmosphericLayer analysis settings) /\
  NoDup (type <$> createSynthLayers analysis settings).
Proof.
  unfold createSynthLayers.
  destruct (pads _), (bass_on _), (arps _), (drums _), (synths _);
    cbn [app fmap list_fmap type createChordPadLayer createProfessionalBassLayer
         createArpeggioLayer createTrapPercussionLayer createSynthLeadLayer
         createAtmosphericLayer last];
    (split; [reflexivity|]; split; [reflexivity|]);
    apply (bool_decide_unpack _); vm_compute; exact I.
Qed.

Lemma bass_pattern_steps chords tempo :
  length (generateBassPattern chords tempo) = 64%nat /\
  Forall (fun q => (0 <= q)%Q /\ (q <= 1)%Q) (generateBassPattern chords tempo).
Proof.
  unfold generateBassPattern.
  destruct (100 <? tempo); (split; [reflexivity|]);
    cbn; repeat (constructor; [split; discriminate|]); constructor.
Qed.

Lemma trap_pattern_steps tempo :
  length (generateTrapPattern tempo) = 64%nat /\
  Forall (fun q => (0 <= q)%Q /\ (q <= 1)%Q) (generateTrapPattern tempo).
Proof.
  split; [reflexivity|].
  cbn; repeat (constructor; [split; discriminate|]); constructor.
Qed.

Lemma arpeggio_pattern_length scale tempo :
  length (generateArpeggioPattern scale tempo) = 64%nat.
Proof. unfold generateArpeggioPattern. now rewrite length_fmap, length_seq. Qed.

(** X2.  Every rhythm pattern has 64 steps, whatever the tempo, the chords
    and the scale; the steps of the bass and percussion patterns are trigger
    strengths in [[0,1]]; the bass pattern always triggers on the four
    downbeats, and carries its syncopated hits exactly above 100 BPM. *)
Theorem rhythm_patterns_have_64_steps
    (chords : list MusicTheoryEngine.ChordProgression) (scale : list Z)
    (tempo : Z) :
  length (generateBassPattern chords tempo) = 64%nat /\
  length (generateTrapPattern tempo) = 64%nat /\
  length (generateArpeggioPattern scale tempo) = 64%nat /\
  Forall (fun q => (0 <= q)%Q /\ (q <= 1)%Q) (generateBassPattern chords tempo) /\
  Forall (fun q => (0 <= q)%Q /\ (q <= 1)%Q) (generateTrapPattern tempo) /\
  (forall k : nat, (k < 4)%nat ->
     generateBassPattern chords tempo !! (16 * k)%nat = Some 1%Q) /\
  (forall k : nat, (k < 4)%nat ->
     generateBassPattern chords tempo !! (6 + 16 * k)%nat
     = Some (if 100 <? tempo then 7 # 10 else 0)%Q).
Proof.
  split; [apply bass_pattern_steps|]. split; [apply trap_pattern_steps|].
  split; [apply arpeggio_pattern_length|].
  split; [apply bass_pattern_steps|]. split; [apply trap_pattern_steps|].
  split; intros k Hk;
    assert (k = 0 \/ k = 1 \/ k = 2 \/ k = 3)%nat as [-> | [-> | [-> | ->]]] by lia;
    unfold generateBassPattern; destruct (100 <? tempo); reflexivity.
Qed.

(** X3.  Over a scale that is not empty the arpeggio pattern has no
    undefined step: each of its 64 steps holds 0 or a note of the scale, a
    step that is not a multiple of the step size (8 below 80 BPM, 4 above
    120 BPM, 6 otherwise) holds 0, and step 0 holds the first note of the
    scale. *)
Theorem arpeggio_steps_are_scale_notes
    (scale : list Z) (tempo : Z) (i : nat) :
  scale <> [] -> (i < 64)%nat ->
  exists note : Z,
    generateArpeggioPattern scale tempo !! i = Some (Some note) /\
    (note = 0 \/ note ∈ scale) /\
    (Z.of_nat i mod arpeggioStepSize tempo <> 0 -> note = 0) /\
    (i = 0%nat -> head scale = Some note).
Proof.
  intros Hscale Hi. unfold generateArpeggioPattern.
  rewrite list_lookup_fmap, lookup_seq_lt by lia. cbn [fmap option_fmap option_map].
  change (0 + i)%nat with i. unfold arpeggioStep.
  assert (0 < arpeggioStepSize tempo) as Hstep
    by (unfold arpeggioStepSize; destruct (tempo <? 80), (120 <? tempo); lia).
  set (step := arpeggioStepSize tempo) in *.
  assert (JS.rem (Z.of_nat i) step = Z.of_nat i mod step) as ->
    by (unfold JS.rem; apply Z.rem_mod_nonneg; lia).
  destruct (Z.of_nat i mod step =? 0) eqn:Hmod.
  - apply Z.eqb_eq in Hmod.
    assert (0 < Z.of_nat (length scale)) as Hlen
      by (destruct scale; [contradiction | cbn; lia]).
    assert (0 <= Z.of_nat i / step) as Hq by (apply Z.div_pos; lia).
    pose proof (Z.rem_bound_pos (Z.of_nat i / step) (Z.of_nat (length scale)) Hq Hlen)
      as Hrem.
    unfold JS.index, JS.rem.
    destruct (Z.rem (Z.of_nat i / step) (Z.of_nat (length scale)) <? 0) eqn:E;
      [apply Z.ltb_lt in E; lia|].
    destruct (scale !! Z.to_nat (Z.rem (Z.of_nat i / step) (Z.of_nat (length scale))))
      as [note|] eqn:Hnote.
    + exists note. split; [reflexivity|].
      split; [right; eapply list_elem_of_lookup_2; exact Hnote|].
      split; [intros Hne; contradiction|].
      intros ->. cbn in Hnote. destruct scale; [contradiction|].
      cbn in Hnote. rewrite Z.div_0_l in Hnote by lia. cbn in Hnote.
      rewrite Z.rem_0_l in Hnote by lia. cbn in Hnote. exact Hnote.
    + apply lookup_ge_None in Hnote. lia.
  - apply Z.eqb_neq in Hmod. exists 0. split; [reflexivity|].
    split; [now left|]. split; [reflexivity|].
    intros ->. cbn in Hmod. rewrite Z.mod_0_l in Hmod by lia. contradiction.
Qed.

Lemma arpeggio_steps_are_scale_notes_witness :
  [0; 2; 3; 5; 7; 8; 10] <> [] /\ (16 < 64)%nat /\
  exists note : Z,
    generateArpeggioPattern [0; 2; 3; 5; 7; 8; 10] 60 !! 16%nat = Some (Some note) /\
    (note = 0 \/ note ∈ [0; 2; 3; 5; 7; 8; 10]) /\
    (Z.of_nat 16 mod arpeggioStepSize 60 <> 0 -> note = 0) /\
    (16%nat = 0%nat -> head [0; 2; 3; 5; 7; 8; 10] = Some note).
Proof.
  split; [discriminate|]. split; [lia|].
  apply (arpeggio_steps_are_scale_notes [0; 2; 3; 5; 7; 8; 10] 60 16);
    [discriminate | lia].
Defined.

End SynthLayers.

(** ** The placeholder generator *)

Section PlaceholderGenerator.
Import Comp Schema MusicGenerator Spec.
Local Open Scope string_scope.
Local Open Scope Z_scope.
Local Open Scope list_scope.

Lemma floor_scaled (d n : Z) (m : positive) :
  JS.floor (inject_Z d * (n # m)) = d * n / Zpos m.
Proof. unfold JS.floor, Qfloor, Qmult, inject_Z. cbn [Qnum Qden]. reflexivity. Qed.

Lemma song_structure_tiles (d : Z) :
  7 <= d -> partitions (generateSongStructure d) (inject_Z d).
Proof.
  intros Hd. unfold partitions, generateSongStructure.
  cbn [MusicGenerator.intro MusicGenerator.verse MusicGenerator.hook
       MusicGenerator.bridge MusicGenerator.outro start end_].
  rewrite !floor_scaled.
  change 0%Q with (inject_Z 0).
  rewrite <- !Zlt_Qlt.
  repeat split; try reflexivity; Z.div_mod_to_equations; lia.
Qed.

(** X4.  With draws in [[0,1)], [getRandomDuration] returns a whole number
    of seconds between 120 and 180, after one draw, and the structure
    [generateSongStructure] builds for it tiles the track. *)
Theorem random_duration_is_tiled (g : Rng) :
  rng_ok g ->
  exists d,
    getRandomDuration g = Ok d (mkRng (draws g) (S (cursor g))) /\
    120 <= d <= 180 /\
    partitions (generateSongStructure d) (inject_Z d).
Proof.
  intros Hg. destruct (Hg (cursor g)) as [Hr0 Hr1].
  pose proof (floor_random_range _ 61 Hr0 Hr1 eq_refl) as Hi.
  eexists. split; [reflexivity|].
  change (inject_Z 61) with 61%Q in Hi.
  split; [lia|]. apply song_structure_tiles. lia.
Qed.

Lemma random_duration_is_tiled_witness :
  rng_ok (constant_rng (1 # 2)) /\
  exists d,
    getRandomDuration (constant_rng (1 # 2))
    = Ok d (mkRng (draws (constant_rng (1 # 2))) (S (cursor (constant_rng (1 # 2))))) /\
    120 <= d <= 180 /\
    partitions (generateSongStructure d) (inject_Z d).
Proof.
  assert (rng_ok (constant_rng (1 # 2))) as Hg
    by (intros n; split; vm_compute; congruence).
  split; [exact Hg|]. apply (random_duration_is_tiled (constant_rng (1 # 2)) Hg).
Defined.

(** X5.  The key the placeholder generator selects is always one of the
    candidate keys: for a list of keys that is not empty and draws in
    [[0,1)], the index [analyzePrompt] and [selectKeyFromPrompt] compute,
    moved up by one for a dark prompt and down by one for an uplifting
    prompt, stays within the list. *)
Theorem selected_key_is_a_candidate {A} (keys : list A) (prompt : string)
    (g : Rng) :
  keys <> [] -> rng_ok g ->
  exists analysis g' k,
    analyzePrompt prompt g = Ok analysis g' /\
    selectKeyFromPrompt keys analysis = Some k /\ k ∈ keys.
Proof.
  intros Hkeys Hg. destruct (Hg (cursor g)) as [Hr0 Hr1].
  assert (0 < Z.of_nat (length keys)) as Hlen
    by (destruct keys; [contradiction | cbn [length]; lia]).
  pose proof (floor_random_range _ _ Hr0 Hr1 Hlen) as Hi.
  eexists _, _. unfold analyzePrompt.
  rewrite (bind_Ok random _ g _ _ eq_refl).
  assert (forall i, 0 <= i < Z.of_nat (length keys) ->
                    exists k, JS.index keys i = Some k /\ k ∈ keys) as Hread.
  { intros i Hrange. unfold JS.index.
    destruct (i <? 0) eqn:E; [apply Z.ltb_lt in E; lia|].
    destruct (keys !! Z.to_nat i) as [k|] eqn:Hk.
    - exists k. split; [reflexivity|]. eapply list_elem_of_lookup_2. exact Hk.
    - apply lookup_ge_None in Hk. lia. }
  unfold selectKeyFromPrompt. cbn [randomSeed pa_mood mret M_ret].
  set (i := JS.floor _) in *.
  destruct (Hread (let keyIndex :=
                     if String.eqb (extractMood
                          (JS.split is_word_separator (JS.toLowerCase prompt))) "dark"
                     then Z.min (i + 1) (Z.of_nat (length keys) - 1) else i in
                   if String.eqb (extractMood
                        (JS.split is_word_separator (JS.toLowerCase prompt)))
                        "uplifting"
                   then Z.max (keyIndex - 1) 0 else keyIndex)) as (k & Hk & Hin).
  { cbv zeta. destruct (String.eqb _ "dark"), (String.eqb _ "uplifting"); lia. }
  exists k. split; [reflexivity|]. split; [exact Hk | exact Hin].
Qed.

Lemma selected_key_is_a_candidate_witness :
  ["E2"; "G2"; "D2"; "F2"; "A2"; "B2"] <> [] /\
  rng_ok (constant_rng (99 # 100)) /\
  exists analysis g' k,
    analyzePrompt "dark, brooding trap" (constant_rng (99 # 100))
    = Ok analysis g' /\
    selectKeyFromPrompt ["E2"; "G2"; "D2"; "F2"; "A2"; "B2"] analysis = Some k /\
    k ∈ ["E2"; "G2"; "D2"; "F2"; "A2"; "B2"].
Proof.
  assert (rng_ok (constant_rng (99 # 100))) as Hg
    by (intros n; split; vm_compute; congruence).
  split; [discriminate|]. split; [exact Hg|].
  apply (selected_key_is_a_candidate ["E2"; "G2"; "D2"; "F2"; "A2"; "B2"]
           "dark, brooding trap" (constant_rng (99 # 100)));
    [discriminate | exact Hg].
Defined.

(** A step of a rhythm pattern is a rest or a beat. *)
Lemma randomizeBeat_binary (beat : Z) (g : Rng) :
  beat = 0 \/ beat = 1 ->
  exists b,
    randomizeBeat beat g = Ok b (mkRng (draws g) (S (cursor g))) /\
    (b = 0 \/ b = 1).
Proof.
  intros [-> | ->]; unfold randomizeBeat;
    [change (0 =? 1) with false; change (0 =? 0) with true
    | change (1 =? 1) with true]; cbv iota;
    rewrite (bind_Ok random _ g _ _ eq_refl); cbn [mret M_ret];
    destruct (Qlt_le_dec _ _); eexists; (split; [reflexivity|]); tauto.
Qed.

Lemma randomizePattern_binary (pattern : list Z) :
  Forall (fun beat => beat = 0 \/ beat = 1) pattern ->
  forall g, exists out,
    randomizePattern pattern g
    = Ok out (mkRng (draws g) (length pattern + cursor g)) /\
    length out = length pattern /\
    Forall (fun beat => beat = 0 \/ beat = 1) out.
Proof.
  unfold randomizePattern.
  induction 1 as [|beat pattern Hbeat Hrest IH]; intros g.
  - exists []. destruct g. repeat split. constructor.
  - destruct (randomizeBeat_binary beat g Hbeat) as (b & Hb & Hbin).
    destruct (IH (mkRng (draws g) (S (cursor g)))) as (out & Hout & Hlen & Hall).
    exists (b :: out). cbn [mapM].
    rewrite (bind_Ok _ _ _ _ _ Hb), (bind_Ok _ _ _ _ _ Hout).
    cbn [mret M_ret draws cursor length].
    split; [f_equal; f_equal; lia|].
    split; [now rewrite Hlen | now constructor].
Qed.

Lemma extractStyle_not_inherited (words : list string) :
  JS.inherited (extractStyle words) = false.
Proof.
  unfold extractStyle. repeat (destruct (JS.some _ words); [reflexivity|]).
  reflexivity.
Qed.

Lemma extractMood_not_inherited (words : list string) :
  JS.inherited (extractMood words) = false.
Proof.
  unfold extractMood. repeat (destruct (JS.some _ words); [reflexivity|]).
  reflexivity.
Qed.

(** X6.  For a style that is not a key inherited from [Object.prototype],
    one of its table or not, and whatever the draws,
    [generateRhythmPatterns] returns a kick, a hi-hat and a snare pattern of
    16 steps each, every step a rest (0) or a beat (1), and consumes exactly
    48 draws: one for each step of the base pattern.  For an inherited key
    such as ["constructor"] it throws a [TypeError] before it draws.  The
    style [extractStyle] reads off a prompt is never an inherited key. *)
Theorem rhythm_patterns_are_binary (analysis : PromptAnalysis) (g : Rng) :
  (JS.inherited (pa_style analysis) = false ->
   exists patterns,
     generateRhythmPatterns analysis g
     = Ok patterns (mkRng (draws g) (48 + cursor g)) /\
     length (kick patterns) = 16%nat /\
     length (hihat patterns) = 16%nat /\
     length (snare patterns) = 16%nat /\
     Forall (fun beat => beat = 0 \/ beat = 1)
       (kick patterns ++ hihat patterns ++ snare patterns)) /\
  (JS.inherited (pa_style analysis) = true ->
   generateRhythmPatterns analysis g = Throw JS.TypeError) /\
  (forall words, JS.inherited (extractStyle words) = false).
Proof.
  split; [|split; [|apply extractStyle_not_inherited]];
    unfold generateRhythmPatterns; intros ->; [|reflexivity].
  set (ambient := default (mkRhythm [] [] []) (rhythmPatterns !! "ambient")).
  assert (exists base,
            default ambient (rhythmPatterns !! pa_style analysis) = base /\
            length (kick base) = 16%nat /\ length (hihat base) = 16%nat /\
            length (snare base) = 16%nat /\
            Forall (fun beat => beat = 0 \/ beat = 1) (kick base) /\
            Forall (fun beat => beat = 0 \/ beat = 1) (hihat base) /\
            Forall (fun beat => beat = 0 \/ beat = 1) (snare base))
    as (base & -> & Hk & Hh & Hs & Hkb & Hhb & Hsb).
  { eexists. split; [reflexivity|].
    destruct (rhythmPatterns !! pa_style analysis) as [p|] eqn:E.
    - apply elem_of_list_to_map_2 in E.
      repeat (apply elem_of_cons in E as [E | E]);
        [ | | now apply elem_of_nil in E ].
      all: injection E as _ ->; cbn [default kick hihat snare].
      all: repeat split; try reflexivity.
      all: repeat (constructor; [lia|]); constructor.
    - cbn [default]. subst ambient.
      repeat split; try reflexivity.
      all: vm_compute; repeat (constructor; [lia|]); constructor. }
  destruct (randomizePattern_binary _ Hkb g) as (k & Hkr & Hkl & Hkall).
  destruct (randomizePattern_binary _ Hhb (mkRng (draws g) (length (kick base) + cursor g)))
    as (h & Hhr & Hhl & Hhall).
  cbn [draws cursor] in Hhr.
  destruct (randomizePattern_binary _ Hsb
              (mkRng (draws g) (length (hihat base) + (length (kick base) + cursor g))))
    as (s & Hsr & Hsl & Hsall).
  cbn [draws cursor] in Hsr.
  exists (mkRhythm k h s).
  rewrite (bind_Ok _ _ _ _ _ Hkr), (bind_Ok _ _ _ _ _ Hhr), (bind_Ok _ _ _ _ _ Hsr).
  cbn [mret M_ret kick hihat snare].
  split; [f_equal; f_equal; lia|].
  split; [congruence|]. split; [congruence|]. split; [congruence|].
  apply Forall_app; split; [exact Hkall|]. apply Forall_app; split; assumption.
Qed.

End PlaceholderGenerator.

(** ** The tables of the music theory engine *)

Section TheoryTables.
Import Comp Schema MusicTheoryEngine Spec.
Local Open Scope string_scope.
Local Open Scope Z_scope.
Local Open Scope list_scope.

(** X7.  Every key the engine can select is parsed to its own pitch class:
    for every mood that is not a key inherited from [Object.prototype], one
    of its table or not, every style and draws in [[0,1)],
    [selectProfessionalKey] returns a key of the table, and [parseKey] maps
    it, without throwing and without a draw, to the number in [[0,11]] at
    which [noteNames] holds the key's note.  For an inherited key such as
    ["constructor"] the key selected is [undefined].  The moods the prompt
    analysis resolves are never inherited keys. *)
Theorem selected_key_parses_to_its_note (mood style : string) (g : Rng) :
  rng_ok g ->
  (JS.inherited mood = false ->
   exists k n,
     selectProfessionalKey mood style g
     = Ok (Some k) (mkRng (draws g) (S (cursor g))) /\
     parseKey (Some k) (mkRng (draws g) (S (cursor g)))
     = Ok n (mkRng (draws g) (S (cursor g))) /\
     0 <= n <= 11 /\
     noteNames !! Z.to_nat n = Some (removeFinalM k)) /\
  (JS.inherited mood = true ->
   selectProfessionalKey mood style g
   = Ok None (mkRng (draws g) (S (cursor g)))) /\
  (forall words, JS.inherited (extractAdvancedMood words) = false).
Proof.
  intros Hg.
  split; [|split; [|exact extractAdvancedMood_not_inherited]];
    unfold selectProfessionalKey; intros ->; [|reflexivity].
  destruct (Hg (cursor g)) as [Hr0 Hr1].
  pose proof (floor_random_range _ 4 Hr0 Hr1 eq_refl) as Hi.
  unfold randomIndex.
  assert (exists keys,
            default (default [] (keysByMood !! "dreamy")) (keysByMood !! mood) = keys /\
            length keys = 4%nat /\
            Forall (fun k =>
                      exists n, parseKey (Some k) (mkRng (draws g) (S (cursor g)))
                                = Ok n (mkRng (draws g) (S (cursor g))) /\
                                0 <= n <= 11 /\
                                noteNames !! Z.to_nat n = Some (removeFinalM k)) keys)
    as (keys & -> & Hlen & Hall).
  { eexists. split; [reflexivity|].
    destruct (keysByMood !! mood) as [keys|] eqn:E.
    - apply elem_of_list_to_map_2 in E.
      repeat (apply elem_of_cons in E as [E | E]); [ | | | | | | now apply elem_of_nil in E ].
      all: injection E as _ ->; cbn [default]; split; [reflexivity|].
      all: repeat (constructor; [eexists; split; [reflexivity|]; split;
                                 [ vm_compute; split; discriminate
                                 | vm_compute; reflexivity ] |]).
      all: constructor.
    - cbn [default].
      replace (default [] (keysByMood !! "dreamy")) with ["Em"; "Am"; "Dm"; "F#m"]
        by (vm_compute; reflexivity).
      split; [reflexivity|].
      repeat (constructor; [eexists; split; [reflexivity|]; split;
                            [ vm_compute; split; discriminate
                            | vm_compute; reflexivity ] |]).
      constructor. }
  rewrite (bind_Ok (A := Z) (r ← random; mret (JS.floor (r * inject_Z (Z.of_nat (length keys))))) _ g
             (JS.floor (draws g (cursor g) * inject_Z (Z.of_nat (length keys))))
             (mkRng (draws g) (S (cursor g))) eq_refl).
  rewrite Hlen. change (Z.of_nat 4) with 4.
  set (i := JS.floor _) in *.
  unfold JS.index. destruct (i <? 0) eqn:E; [apply Z.ltb_lt in E; lia|].
  destruct (keys !! Z.to_nat i) as [k|] eqn:Hk;
    [|apply lookup_ge_None in Hk; lia].
  rewrite Forall_lookup in Hall. destruct (Hall _ _ Hk) as (n & Hn & Hrange & Hname).
  exists k, n. split; [reflexivity|]. split; [exact Hn|]. split; assumption.
Qed.

Lemma selected_key_parses_to_its_note_witness :
  let g := constant_rng (3 # 4) in
  rng_ok g /\
  (JS.inherited "ethereal" = false ->
   exists k n,
     selectProfessionalKey "ethereal" "ambient" g
     = Ok (Some k) (mkRng (draws g) (S (cursor g))) /\
     parseKey (Some k) (mkRng (draws g) (S (cursor g)))
     = Ok n (mkRng (draws g) (S (cursor g))) /\
     0 <= n <= 11 /\
     noteNames !! Z.to_nat n = Some (removeFinalM k)) /\
  (JS.inherited "ethereal" = true ->
   selectProfessionalKey "ethereal" "ambient" g
   = Ok None (mkRng (draws g) (S (cursor g)))) /\
  (forall words, JS.inherited (extractAdvancedMood words) = false).
Proof.
  intros g.
  assert (rng_ok g) as Hg by (intros n; split; vm_compute; congruence).
  split; [exact Hg|].
  apply (selected_key_parses_to_its_note "ethereal" "ambient" g Hg).
Defined.

(** X8.  A numeral that is neither a key of [romanMap] nor a key inherited
    from [Object.prototype] is built on the first degree: [romanToChord]
    returns for it what it returns for ["I"], and [getHarmonicFunction]
    calls it a tonic.  The diminished ["ii°"] of the dark progressions is
    such a numeral. *)
Theorem unmapped_numeral_is_the_tonic (roman : string) (root : Z)
    (scale : list Z) (g : Rng) :
  JS.inherited roman = false ->
  romanMap !! roman = None ->
  romanToChord roman root scale g = romanToChord "I" root scale g /\
  getHarmonicFunction roman = "tonic".
Proof.
  intros _ Hnone. split.
  - unfold romanToChord. rewrite Hnone.
    replace (romanMap !! "I") with (Some 0) by (vm_compute; reflexivity).
    reflexivity.
  - unfold getHarmonicFunction.
    destruct (functions !! roman) as [f|] eqn:E; [|reflexivity].
    apply elem_of_list_to_map_2 in E.
    repeat (apply elem_of_cons in E as [E | E]);
      try (injection E as -> _; vm_compute in Hnone; discriminate).
    now apply elem_of_nil in E.
Qed.

Lemma unmapped_numeral_is_the_tonic_witness :
  JS.inherited "ii°" = false /\
  romanMap !! "ii°" = None /\
  romanToChord "ii°" 2 [0; 1; 3; 5; 7; 8; 10] (constant_rng 0)
  = romanToChord "I" 2 [0; 1; 3; 5; 7; 8; 10] (constant_rng 0) /\
  getHarmonicFunction "ii°" = "tonic".
Proof.
  split; [reflexivity|]. split; [vm_compute; reflexivity|].
  apply (unmapped_numeral_is_the_tonic "ii°" 2 [0; 1; 3; 5; 7; 8; 10]
           (constant_rng 0)); vm_compute; reflexivity.
Defined.

(** X9.  The bar counts of [createProfessionalStructure] are those of the
    base structure scaled by 1.5 below 80 BPM, by 0.8 above 120 BPM and by
    1 in between, each rounded on its own: the sections add up to the
    [totalBars] of the structure exactly when the tempo is at most 120 BPM;
    above it the sections hold 37 bars and [totalBars] is 38. *)
Theorem section_bars_add_up_to_120_bpm (style : string) (tempo : Z) :
  let s := createProfessionalStructure style tempo in
  (sectionBars (sections s) = totalBars s <-> tempo <= 120) /\
  (tempo < 80 -> sectionBars (sections s) = 72 /\ totalBars s = 72) /\
  (80 <= tempo <= 120 -> sectionBars (sections s) = 48 /\ totalBars s = 48) /\
  (120 < tempo -> sectionBars (sections s) = 37 /\ totalBars s = 38).
Proof.
  unfold createProfessionalStructure, barMultiplier.
  destruct (tempo <? 80) eqn:E1; [|destruct (120 <? tempo) eqn:E2].
  all: try apply Z.ltb_lt in E1; try apply Z.ltb_ge in E1.
  all: try apply Z.ltb_lt in E2; try apply Z.ltb_ge in E2.
  all: vm_compute sectionBars; vm_compute totalBars.
  all: cbv zeta; repeat split; intros; try reflexivity; try lia.
Qed.

End TheoryTables.

(** ** Synthesis *)

Section Synthesis.
Import Comp Schema ProfessionalSynthEngine ProfessionalAudioRenderer.
Local Open Scope R_scope.

Lemma tanh_gt_m1 (x : R) : -1 < tanh x.
Proof.
  unfold tanh, sinh, cosh.
  pose proof (exp_pos x) as Hp. pose proof (exp_pos (- x)) as Hn.
  apply Rmult_lt_reg_r with ((exp x + exp (- x)) / 2); [Lra.lra|].
  field_simplify; Lra.lra.
Qed.

Lemma tanh_0 : tanh 0 = 0.
Proof.
  unfold tanh, sinh, cosh. rewrite Ropp_0, exp_0. field.
Qed.

Lemma exp_le_1 (x : R) : x <= 0 -> exp x <= 1.
Proof.
  intros [Hlt | ->]; [|rewrite exp_0; Lra.lra].
  rewrite <- exp_0. left. now apply exp_increasing.
Qed.

Lemma rng_draw_R (g : Rng) :
  rng_ok g -> 0 <= Q2R (draws g (cursor g)) < 1.
Proof.
  intros Hg. destruct (Hg (cursor g)) as [H0 H1].
  apply Qle_Rle in H0. apply Qlt_Rlt in H1.
  rewrite RMicromega.Q2R_0 in H0. rewrite RMicromega.Q2R_1 in H1. Lra.lra.
Qed.

Lemma semitone_ratio : 1.05 < Rpower 2 (1 / 12).
Proof.
  destruct (Rlt_le_dec 1.05 (Rpower 2 (1 / 12))) as [H | H]; [exact H|].
  exfalso.
  assert (0 < Rpower 2 (1 / 12)) as Hpos by (unfold Rpower; apply exp_pos).
  assert (Rpower 2 (1 / 12) ^ 12 = 2) as Hpow.
  { rewrite <- Rpower_pow by exact Hpos. rewrite Rpower_mult.
    replace (1 / 12 * INR 12) with 1 by (simpl; Lra.lra).
    apply Rpower_1. Lra.lra. }
  assert (Rpower 2 (1 / 12) ^ 12 <= 1.05 ^ 12) as Hle
    by (apply pow_incr; Lra.lra).
  rewrite Hpow in Hle. Lra.lra.
Qed.

(** X10.  [midiToFrequency] is the equal-tempered scale around A4: note 69
    sounds at 440 Hz, a note number that is [NaN] gives [NaN], and over the
    MIDI range from 0 to 127 the frequency is positive, a note a semitone
    or more above another sounds more than 5 percent higher, and twelve
    notes up double the frequency to within one part in [10^9]. *)
Theorem midi_frequency_doubles_per_octave :
  midiToFrequency None = None /\
  midiToFrequency (Some 69) = Some 440 /\
  (forall m, 0 <= m <= 127 ->
     exists f, midiToFrequency (Some m) = Some f /\ 0 < f) /\
  (forall m m' f f',
     0 <= m -> m + 1 <= m' -> m' <= 127 ->
     midiToFrequency (Some m) = Some f -> midiToFrequency (Some m') = Some f' ->
     1.05 * f < f') /\
  (forall m f f',
     0 <= m -> m + 12 <= 127 ->
     midiToFrequency (Some m) = Some f ->
     midiToFrequency (Some (m + 12)) = Some f' ->
     Rabs (f' - 2 * f) <= f / 1000000000).
Proof.
  unfold midiToFrequency. cbn [fmap option_fmap option_map].
  split; [reflexivity|]. split; [|split; [|split]].
  - f_equal. replace ((69 - 69) / 12) with 0 by Lra.lra.
    rewrite Rpower_O by Lra.lra. Lra.lra.
  - intros m _. eexists. split; [reflexivity|].
    apply Rmult_lt_0_compat; [Lra.lra|]. unfold Rpower. apply exp_pos.
  - intros m m' f f' _ Hstep _ [= <-] [= <-].
    assert (0 < Rpower 2 ((m - 69) / 12)) as Hpos by (unfold Rpower; apply exp_pos).
    assert (Rpower 2 ((m - 69) / 12) * Rpower 2 (1 / 12)
            <= Rpower 2 ((m' - 69) / 12)) as Hle.
    { rewrite <- Rpower_plus. apply Rle_Rpower; Lra.lra. }
    pose proof semitone_ratio as Hsemi.
    set (a := Rpower 2 ((m - 69) / 12)) in *. set (s := Rpower 2 (1 / 12)) in *.
    Lra.nra.
  - intros m f f' _ _ [= <-] [= <-].
    replace ((m + 12 - 69) / 12) with ((m - 69) / 12 + 1) by Lra.lra.
    rewrite Rpower_plus, Rpower_1 by Lra.lra.
    assert (0 < Rpower 2 ((m - 69) / 12)) as Hpos by (unfold Rpower; apply exp_pos).
    replace (440 * (Rpower 2 ((m - 69) / 12) * 2)
             - 2 * (440 * Rpower 2 ((m - 69) / 12))) with 0 by Lra.lra.
    rewrite Rabs_R0. Lra.lra.
Qed.

Lemma sawtooth_range (u : R) :
  -1 <= 2 * (u - IZR (JS.floorR (u + 0.5))) <= 1.
Proof.
  unfold JS.floorR. destruct (base_Int_part (u + 0.5)) as [Hlo Hhi]. Lra.lra.
Qed.

(** X11.  The waveforms of [generateOscillator] stay within the unit
    range.  At a frequency of at most 50 kHz and a time of at most 200
    seconds, in absolute value, the oscillator returns a number: the sine,
    the square, the noise drawn from [Math.random()] and the sine an
    unknown type falls back to lie in [[-1, 1]], and so do, to within
    [10^-6], the sawtooth and the triangle.  When the frequency or the time
    is [NaN] the square wave is -1, the noise is still a number of
    [[-1, 1)], and every other waveform is [NaN]. *)
Theorem oscillator_stays_within_unit (type : string)
    (frequency t : option R) (g : Rng) :
  rng_ok g ->
  exists x g',
    generateOscillator type frequency t g = Ok x g' /\
    match frequency, t with
    | Some f, Some s =>
        Rabs f <= 50000 -> Rabs s <= 200 ->
        exists v,
          x = Some v /\
          -1 - 1 / 1000000 <= v <= 1 + 1 / 1000000 /\
          (type <> "sawtooth"%string -> type <> "triangle"%string ->
           -1 <= v <= 1)
    | _, _ =>
        (type = "square"%string -> x = Some (-1)) /\
        (type = "noise"%string -> exists v, x = Some v /\ -1 <= v < 1) /\
        (type <> "square"%string -> type <> "noise"%string -> x = None)
    end.
Proof.
  intros Hg. pose proof (rng_draw_R g Hg) as Hr.
  assert (forall v : R, -1 <= v <= 1 ->
            -1 - 1 / 1000000 <= v <= 1 + 1 / 1000000) as Hslack
    by (intros v Hv; Lra.lra).
  assert (forall (type : string) (x : option R),
            type <> "square"%string -> type <> "noise"%string -> x = None ->
            (type = "square"%string -> x = Some (-1)) /\
            (type = "noise"%string -> exists v, x = Some v /\ -1 <= v < 1) /\
            (type <> "square"%string -> type <> "noise"%string -> x = None))
    as Hnan by (intros ty x H1 H2 ->; repeat split; intros; congruence).
  unfold generateOscillator.
  destruct (String.eqb_spec type "sine") as [-> | Hsine].
  { eexists _, _; split; [reflexivity|].
    destruct frequency as [f|], t as [s|]; cbn;
      try (apply Hnan; [discriminate | discriminate | reflexivity]).
    intros _ _. eexists; split; [reflexivity|].
    pose proof (SIN_bound (2 * PI * f * s)). split; auto. }
  destruct (String.eqb_spec type "sawtooth") as [-> | Hsaw].
  { eexists _, _; split; [reflexivity|].
    destruct frequency as [f|], t as [s|]; cbn;
      try (apply Hnan; [discriminate | discriminate | reflexivity]).
    intros _ _. eexists; split; [reflexivity|].
    pose proof (sawtooth_range (2 * PI * f * s / (2 * PI))).
    split; [auto | congruence]. }
  destruct (String.eqb_spec type "square") as [-> | Hsquare].
  { eexists _, _; split; [reflexivity|].
    destruct frequency as [f|], t as [s|]; cbn;
      try (split; [reflexivity | split; [discriminate | congruence]]).
    intros _ _. eexists; split; [reflexivity|].
    destruct (Rlt_dec _ _); split; intros; Lra.lra. }
  destruct (String.eqb_spec type "triangle") as [-> | Htriangle].
  { eexists _, _; split; [reflexivity|].
    destruct frequency as [f|], t as [s|]; cbn;
      try (apply Hnan; [discriminate | discriminate | reflexivity]).
    intros _ _. eexists; split; [reflexivity|].
    pose proof (sawtooth_range (2 * PI * f * s / (2 * PI))) as Hs.
    split; [|congruence]. apply Hslack.
    unfold Rabs. destruct (Rcase_abs _); Lra.lra. }
  destruct (String.eqb_spec type "noise") as [-> | Hnoise].
  { rewrite (bind_Ok random _ g _ _ eq_refl).
    eexists _, _; split; [reflexivity|].
    destruct frequency as [f|], t as [s|]; cbn;
      try (split; [discriminate | split; [|congruence]];
           intros _; eexists; split; [reflexivity | Lra.lra]).
    intros _ _. eexists; split; [reflexivity|]. split; intros; Lra.lra. }
  eexists _, _; split; [reflexivity|].
  destruct frequency as [f|], t as [s|]; cbn;
    try (apply Hnan; [assumption | assumption | reflexivity]).
  intros _ _. eexists; split; [reflexivity|].
  pose proof (SIN_bound (2 * PI * f * s)). split; auto.
Qed.

Lemma oscillator_stays_within_unit_witness :
  let g := constant_rng (1 # 4) in
  rng_ok g /\
  exists x g',
    generateOscillator "triangle" (Some 440) (Some 1) g = Ok x g' /\
    (Rabs 440 <= 50000 -> Rabs 1 <= 200 ->
     exists v,
       x = Some v /\
       -1 - 1 / 1000000 <= v <= 1 + 1 / 1000000 /\
       ("triangle"%string <> "sawtooth"%string ->
        "triangle"%string <> "triangle"%string -> -1 <= v <= 1)).
Proof.
  intros g.
  assert (rng_ok g) as Hg by (intros n; split; vm_compute; congruence).
  split; [exact Hg|].
  apply (oscillator_stays_within_unit "triangle" (Some 440) (Some 1) g Hg).
Defined.

(** X12.  The envelope and the filter [renderSynthLayer] applies to each
    sample never amplify it: for a sustain level in [[0,1]] and a time that
    is not negative the result is at most the sample in absolute value, and
    the envelope leaves the sample at time 0 as it is. *)
Theorem envelope_and_filter_never_amplify (sample : R) (envelope : Envelope)
    (t : R) :
  (0 <= sustain envelope)%Q -> (sustain envelope <= 1)%Q -> 0 <= t ->
  Rabs (applyFilter (applyEnvelope sample envelope t) t) <= Rabs sample /\
  applyEnvelope sample envelope 0 = sample.
Proof.
  intros Hs0 Hs1 Ht.
  apply Qle_Rle in Hs0. apply Qle_Rle in Hs1.
  rewrite RMicromega.Q2R_0 in Hs0. rewrite RMicromega.Q2R_1 in Hs1.
  unfold applyFilter, applyEnvelope. split.
  - pose proof (exp_pos (- t * 2)) as He0.
    assert (exp (- t * 2) <= 1) as He1 by (apply exp_le_1; Lra.lra).
    pose proof (SIN_bound (t * 0.3)) as Hsin.
    set (s := Q2R (sustain envelope)) in *.
    set (e := exp (- t * 2)) in *. set (w := sin (t * 0.3)) in *.
    assert (0 <= s + (1 - s) * e <= 1) as Henv by (split; Lra.nra).
    assert (0 <= 0.8 + 0.2 * w <= 1) as Hcut by Lra.lra.
    rewrite !Rabs_mult.
    rewrite (Rabs_pos_eq (s + (1 - s) * e)) by tauto.
    rewrite (Rabs_pos_eq (0.8 + 0.2 * w)) by tauto.
    pose proof (Rabs_pos sample) as Hpos.
    set (a := Rabs sample) in *.
    set (x := s + (1 - s) * e) in *. set (y := 0.8 + 0.2 * w) in *.
    assert (a * x <= a) by Lra.nra. assert (0 <= a * x) by Lra.nra. Lra.nra.
  - replace (- 0 * 2) with 0 by Lra.lra. rewrite exp_0. Lra.lra.
Qed.

Lemma envelope_and_filter_never_amplify_witness :
  (0 <= sustain (mkEnvelope 2 (5 # 10) (8 # 10) 3))%Q /\
  (sustain (mkEnvelope 2 (5 # 10) (8 # 10) 3) <= 1)%Q /\ 0 <= 1 /\
  Rabs (applyFilter (applyEnvelope 1 (mkEnvelope 2 (5 # 10) (8 # 10) 3) 1) 1)
  <= Rabs 1 /\
  applyEnvelope 1 (mkEnvelope 2 (5 # 10) (8 # 10) 3) 0 = 1.
Proof.
  split; [vm_compute; congruence|]. split; [vm_compute; congruence|].
  split; [Lra.lra|].
  apply (envelope_and_filter_never_amplify 1 (mkEnvelope 2 (5 # 10) (8 # 10) 3) 1);
    [vm_compute; congruence | vm_compute; congruence | Lra.lra].
Defined.

End Synthesis.

(** ** Bars, mixing and mastering *)

Section Mixing.
Import Comp Schema ProfessionalSynthEngine ProfessionalAudioRenderer.
Local Open Scope Z_scope.

Lemma floor_unique (x : Q) (k : Z) :
  (inject_Z k <= x)%Q -> (x < inject_Z (k + 1))%Q -> JS.floor x = k.
Proof.
  intros Hlo Hhi. unfold JS.floor.
  pose proof (Qfloor_resp_le _ _ Hlo) as H1. rewrite Qfloor_Z in H1.
  pose proof (Qfloor_le x) as H2.
  assert (inject_Z (Qfloor x) < inject_Z (k + 1))%Q as H3
    by (eapply Qle_lt_trans; eassumption).
  rewrite <- Zlt_Qlt in H3. lia.
Qed.

Lemma div64_error (x y : Q) :
  (0 < x)%Q -> (0 < y)%Q ->
  (x * (1 - (5 # 4503599627370496)) <= JS.div64 x y * y)%Q /\
  (JS.div64 x y * y <= x * (1 + (5 # 4503599627370496)))%Q /\
  (0 < JS.div64 x y)%Q.
Proof.
  intros Hx Hy. unfold JS.div64.
  destruct (fl_error x Hx) as [Hx0 Hx1]. destruct (fl_error y Hy) as [Hy0 Hy1].
  set (a := JS.fl x) in *. set (b := JS.fl y) in *.
  assert (0 < a)%Q as Ha by Lqa.lra. assert (0 < b)%Q as Hb by Lqa.lra.
  assert (0 < a / b)%Q as Hq by (apply Qlt_shift_div_l; Lqa.lra).
  assert (a / b * b == a)%Q as Hdiv by (field; Lqa.lra).
  destruct (fl_error (a / b) Hq) as [Hq0 Hq1].
  set (q := (a / b)%Q) in *. set (r := JS.fl q) in *.
  set (e := (1 # 4503599627370496)%Q) in *.
  assert (0 < r)%Q as Hr by (subst e; Lqa.lra).
  split; [|split; [|exact Hr]].
  - (* r * y >= q (1 - e) * b / (1 + e) *)
    assert (q * (1 - e) * b <= r * b)%Q as H1 by (subst e; Lqa.nra).
    assert (r * b <= r * (y * (1 + e)))%Q as H2 by Lqa.nra.
    assert (a * (1 - e) <= r * y * (1 + e))%Q as H3 by Lqa.nra.
    assert (x * (1 - e) * (1 - e) <= r * y * (1 + e))%Q as H4
      by (subst e; Lqa.nra).
    assert (0 < r * y)%Q as Hry by Lqa.nra.
    set (ry := (r * y)%Q) in *.
    change (5 # 4503599627370496)%Q with (5 * e)%Q.
    subst e. Lqa.nra.
  - assert (r * b <= q * (1 + e) * b)%Q as H1 by (subst e; Lqa.nra).
    assert (r * (y * (1 - e)) <= r * b)%Q as H2 by Lqa.nra.
    assert (r * y * (1 - e) <= a * (1 + e))%Q as H3 by Lqa.nra.
    assert (r * y * (1 - e) <= x * (1 + e) * (1 + e))%Q as H4
      by (subst e; Lqa.nra).
    assert (0 < r * y)%Q as Hry by Lqa.nra.
    set (ry := (r * y)%Q) in *.
    change (5 # 4503599627370496)%Q with (5 * e)%Q.
    subst e. Lqa.nra.
Qed.

(** X13.  [getCurrentChord] plays the progression bar by bar and starts
    over at its end: at between 0.01 and 100 beats per second, a time of at
    most [10^6] seconds that lies within bar [k] and clear of its bar lines
    by the rounding margin gets the chord at position [k mod n] of a
    progression of [n] chords, and no chord when the progression is empty.
    On a bar line the binary64 quotient decides. *)
Theorem current_chord_cycles_by_bar {A} (t beatsPerSecond : Q)
    (progression : list A) (k : nat) :
  (1 # 100 <= beatsPerSecond)%Q -> (beatsPerSecond <= 100)%Q ->
  (t <= 1000000)%Q ->
  Spec.withinBar t beatsPerSecond k ->
  getCurrentChord t beatsPerSecond progression
  = progression !! (k mod length progression)%nat.
Proof.
  intros Hslow _ _ [Hlo Hhi]. cbv zeta in Hlo, Hhi. unfold getCurrentChord.
  assert (0 < beatsPerSecond)%Q as Hbps by Lqa.lra.
  assert (0 <= inject_Z (Z.of_nat k))%Q as Hk
    by (rewrite <- (Zle_Qle 0); lia).
  set (K := inject_Z (Z.of_nat k)) in *.
  assert (0 < t)%Q as Ht.
  { destruct (Qlt_le_dec 0 t) as [H | H]; [exact H|]. exfalso. Lqa.nra. }
  destruct (div64_error 4 beatsPerSecond ltac:(Lqa.lra) Hbps)
    as (HL0 & HL1 & HL).
  set (L := JS.div64 4 beatsPerSecond) in *.
  destruct (div64_error t L Ht HL) as (Hq0 & Hq1 & Hq).
  set (q := JS.div64 t L) in *.
  assert (JS.floor q = Z.of_nat k) as ->.
  { apply floor_unique; rewrite ?inject_Z_plus; fold K;
      change (inject_Z 1) with 1%Q.
    - (* q * 4 (1 + 5e) >= q * L * bps >= t * bps (1 - 5e) *)
      set (e := (5 # 4503599627370496)%Q) in *.
      assert (q * (L * beatsPerSecond) <= q * (4 * (1 + e)))%Q as H1 by Lqa.nra.
      assert (t * (1 - e) * beatsPerSecond <= q * L * beatsPerSecond)%Q as H2
        by Lqa.nra.
      assert (t * beatsPerSecond * (1 - e) <= q * (4 * (1 + e)))%Q as H3
        by Lqa.nra.
      set (p := (t * beatsPerSecond)%Q) in *.
      assert (4 * (K + (K + 1) * (1 # 281474976710656)) * (1 - e)
              <= q * (4 * (1 + e)))%Q as H4 by (subst e; Lqa.nra).
      subst e. Lqa.nra.
    - set (e := (5 # 4503599627370496)%Q) in *.
      assert (q * (4 * (1 - e)) <= q * (L * beatsPerSecond))%Q as H1 by Lqa.nra.
      assert (q * L * beatsPerSecond <= t * (1 + e) * beatsPerSecond)%Q as H2
        by Lqa.nra.
      assert (q * (4 * (1 - e)) <= t * beatsPerSecond * (1 + e))%Q as H3
        by Lqa.nra.
      set (p := (t * beatsPerSecond)%Q) in *.
      assert (q * (4 * (1 - e))
              <= 4 * (K + 1 - (K + 1) * (1 # 281474976710656)) * (1 + e))%Q
        as H4 by (subst e; Lqa.nra).
      subst e. Lqa.nra. }
  destruct progression as [|c rest].
  - unfold JS.index. destruct (_ <? 0); reflexivity.
  - set (n := length (c :: rest)). assert (0 < n)%nat as Hn by (cbn; lia).
    unfold JS.rem. rewrite Z.rem_mod_nonneg by lia.
    rewrite <- Nat2Z.inj_mod. unfold JS.index.
    destruct (_ <? 0) eqn:E; [apply Z.ltb_lt in E; lia|].
    now rewrite Nat2Z.id.
Qed.

Lemma current_chord_cycles_by_bar_witness :
  (1 # 100 <= 2)%Q /\ (2 <= 100)%Q /\ (11 <= 1000000)%Q /\
  Spec.withinBar 11 2 5 /\
  getCurrentChord 11 2 ["vi"; "IV"; "I"; "V"]%string
  = ["vi"; "IV"; "I"; "V"]%string !! (5 mod length ["vi"; "IV"; "I"; "V"]%string)%nat.
Proof.
  split; [vm_compute; congruence|]. split; [vm_compute; congruence|].
  split; [vm_compute; congruence|].
  assert (Spec.withinBar 11 2 5) as Hbar by (split; vm_compute; congruence).
  split; [exact Hbar|].
  apply (current_chord_cycles_by_bar 11 2 ["vi"; "IV"; "I"; "V"]%string 5);
    [vm_compute; congruence | vm_compute; congruence | vm_compute; congruence
    | exact Hbar].
Defined.

(** On a bar line the rounding decides.  At 44 BPM a bar lasts 60/11
    seconds and bar 11 starts at 60 seconds, where the binary64 quotient is
    10.999999999999998: the chord is still that of bar 10. *)
Lemma current_chord_at_a_bar_line :
  let beatsPerSecond := JS.div64 44 60 in
  JS.floor (JS.div64 60 (JS.div64 4 beatsPerSecond)) = 10 /\
  JS.floor (60 / (4 / (44 / 60))) = 11 /\
  getCurrentChord 60 beatsPerSecond ["vi"; "IV"; "I"; "V"]%string = Some "I"%string.
Proof. repeat split; vm_compute; reflexivity. Qed.

Local Open Scope R_scope.

Lemma compress_range (x k c : R) :
  0 < c -> - c < tanh (x * k) * c < c.
Proof.
  intros Hc. pose proof (tanh_lt_1 (x * k)). pose proof (tanh_gt_m1 (x * k)).
  split; Lra.nra.
Qed.

(** The sum over the channels is [NaN] exactly when it starts from [NaN]
    or one of the channels reads [NaN] at the index. *)
Lemma mixChannels_nan (i : nat) (channels : list (SampleBuffer * SynthLayer))
    (acc : option R) :
  foldl (fun mixedSample channel =>
           m ← mixedSample;
           x ← readSample (fst channel) i;
           Some (m + x * Q2R (volume (snd channel))))
        acc channels = None
  <-> acc = None \/
      exists channel, channel ∈ channels /\ readSample (fst channel) i = None.
Proof.
  revert acc. induction channels as [|channel channels IH]; intros acc.
  - cbn [foldl]. split; [now left|].
    intros [H | (channel & Hin & _)]; [exact H|]. now apply elem_of_nil in Hin.
  - cbn [foldl]. rewrite IH. split.
    + intros [Hacc | (c & Hin & Hc)].
      * destruct acc as [m|]; [|now left]. right. exists channel.
        split; [apply list_elem_of_here|].
        cbn in Hacc. destruct (readSample (fst channel) i); [discriminate|].
        reflexivity.
      * right. exists c. split; [now apply list_elem_of_further | exact Hc].
    + intros [-> | (c & Hin & Hc)]; [now left|].
      apply elem_of_cons in Hin as [-> | Hin].
      * left. rewrite Hc. now destruct acc.
      * right. exists c. split; assumption.
Qed.

(** X14.  The mix never clips: every sample [mixLayers] writes that is not
    [NaN] lies between -0.9 and 0.9, to within [10^-6], whatever the
    channels hold and however many there are.  A sample of the mix is [NaN]
    exactly when some channel holds [NaN] at its index, or ends before
    it. *)
Theorem mix_stays_below_clipping (masterBuffer : SampleBuffer)
    (channels : list (SampleBuffer * SynthLayer)) :
  length (mixLayers masterBuffer channels) = length masterBuffer /\
  (forall i x, mixLayers masterBuffer channels !! i = Some (Some x) ->
               -0.9 - 1 / 1000000 <= x <= 0.9 + 1 / 1000000) /\
  (forall i, (i < length masterBuffer)%nat ->
     (mixLayers masterBuffer channels !! i = Some None
      <-> exists channel,
            channel ∈ channels /\ readSample (fst channel) i = None)).
Proof.
  unfold mixLayers. change SampleBuffer with (list (option R)) in *.
  split; [now rewrite length_fmap, length_seq|]. split.
  - intros i x Hx. rewrite list_lookup_fmap in Hx.
    destruct (seq 0 (length masterBuffer) !! i) as [j|]; [|discriminate].
    cbn in Hx. injection Hx as Hx.
    destruct (mixChannels j channels) as [m|]; [|discriminate].
    cbn in Hx. injection Hx as <-.
    pose proof (compress_range m 0.8 0.9 ltac:(Lra.lra)). Lra.lra.
  - intros i Hi. rewrite list_lookup_fmap, lookup_seq_lt by exact Hi.
    cbn [fmap option_fmap option_map]. change (0 + i)%nat with i.
    pose proof (mixChannels_nan i channels (Some 0)) as Hnan.
    fold (mixChannels i channels) in Hnan.
    destruct (mixChannels i channels) as [m|]; cbn.
    + split; [discriminate|]. intros H.
      assert (Some m = None) as Hm by (apply Hnan; now right). discriminate.
    + split; [|reflexivity]. intros _.
      destruct (proj1 Hnan eq_refl) as [H | H]; [discriminate | exact H].
Qed.

Lemma fade_length_positive (x : Q) :
  (0 <= x)%Q -> (0 < JS.or_else x 3 * inject_Z SAMPLE_RATE)%Q.
Proof.
  intros Hx. unfold JS.or_else.
  change (inject_Z SAMPLE_RATE) with 44100%Q.
  destruct (Qeq_bool x 0) eqn:E; [Lqa.lra|].
  apply Qeq_bool_neq in E.
  assert (0 < x)%Q by (apply Qle_lteq in Hx as [Hx | Hx]; [exact Hx | now symmetry in Hx]).
  Lqa.lra.
Qed.

(** X15.  [applyMasteringChain] keeps the number of samples; a sample of
    the mix that is [NaN] stays [NaN], and every other one comes out
    between -0.8 and 0.8, to within [10^-6], whatever the mix and the
    settings.  With a fade-in setting that is not negative, 0 included, the
    fade-in is never empty: a first sample that is a number is silenced. *)
Theorem mastering_limits_every_sample (buffer : SampleBuffer)
    (settings : GenerationSettings) :
  length (applyMasteringChain buffer settings) = length buffer /\
  (forall i, applyMasteringChain buffer settings !! i = Some None
             <-> buffer !! i = Some None) /\
  (forall i x, applyMasteringChain buffer settings !! i = Some (Some x) ->
               -0.8 - 1 / 1000000 <= x <= 0.8 + 1 / 1000000) /\
  ((0 <= fadeIn settings)%Q ->
   forall sample rest, buffer = Some sample :: rest ->
     head (applyMasteringChain buffer settings) = Some (Some 0)).
Proof.
  unfold applyMasteringChain. change SampleBuffer with (list (option R)) in *.
  split; [apply length_imap|]. split; [|split].
  - intros i. rewrite list_lookup_imap.
    destruct (buffer !! i) as [[sample|]|]; cbn; split; congruence.
  - intros i x Hx. rewrite list_lookup_imap in Hx.
    destruct (buffer !! i) as [[sample|]|]; try discriminate.
    cbn in Hx. injection Hx as <-. unfold masterSample. cbv zeta.
    match goal with
    | |- _ <= tanh (?y * 1.2) * 0.8 <= _ =>
        pose proof (compress_range y 1.2 0.8 ltac:(Lra.lra))
    end. Lra.lra.
  - intros Hfade sample rest ->.
    cbn [imap head fmap option_fmap option_map]. do 2 f_equal.
    unfold masterSample.
    pose proof (fade_length_positive _ Hfade) as Hpos.
    set (fadeInSamples := (JS.or_else (fadeIn settings) 3 * inject_Z SAMPLE_RATE)%Q) in *.
    change (inject_Z (Z.of_nat 0)) with 0%Q.
    destruct (Qlt_le_dec 0 fadeInSamples) as [_ | Hle]; [|Lqa.lra].
    assert (Q2R (0 / fadeInSamples) = 0) as ->.
    { replace 0 with (Q2R 0) by apply RMicromega.Q2R_0.
      apply Qeq_eqR. unfold Qdiv. Lqa.lra. }
    rewrite Rmult_0_r.
    destruct (Qlt_le_dec _ 0);
      rewrite ?Rmult_0_l, tanh_0; Lra.lra.
Qed.

(** X16.  The atmospheric texture is a faint layer: with draws in
    [[0,1)] and a volume that is not negative, [generateAtmosphericTexture]
    returns, after one draw, a sample of at most 0.025 times the volume of
    the layer in absolute value, at every time and progress. *)
Theorem texture_is_faint (t : R) (layer : SynthLayer) (progress : R)
    (g : Rng) :
  rng_ok g -> (0 <= volume layer)%Q ->
  exists x,
    generateAtmosphericTexture t layer progress g
    = Ok x (mkRng (draws g) (S (cursor g))) /\
    Rabs x <= 0.025 * Q2R (volume layer).
Proof.
  intros Hg Hvol. eexists. split; [reflexivity|].
  pose proof (rng_draw_R g Hg) as Hr.
  apply Qle_Rle in Hvol. rewrite RMicromega.Q2R_0 in Hvol.
  pose proof (SIN_bound (t * 0.1)) as H1.
  pose proof (SIN_bound (2 * PI * 0.3 * t + sin (t * 0.07) * 2)) as H2.
  pose proof (SIN_bound (2 * PI * 1000 * t + sin (t * 3) * 5)) as H3.
  pose proof (SIN_bound (t * 0.4)) as H4.
  pose proof (SIN_bound (progress * PI * 2)) as H5.
  set (r := Q2R (draws g (cursor g))) in *. set (v := Q2R (volume layer)) in *.
  set (s1 := sin (t * 0.1)) in *.
  set (s2 := sin (2 * PI * 0.3 * t + sin (t * 0.07) * 2)) in *.
  set (s3 := sin (2 * PI * 1000 * t + sin (t * 3) * 5)) in *.
  set (s4 := sin (t * 0.4)) in *. set (s5 := sin (progress * PI * 2)) in *.
  assert (-0.01 <= (r - 0.5) * 0.02 * (0.5 + 0.5 * s1) <= 0.01) as Ht1
    by (split; Lra.nra).
  assert (-0.005 <= s3 * 0.005 * s4 <= 0.005) as Ht3 by (split; Lra.nra).
  set (t1 := (r - 0.5) * 0.02 * (0.5 + 0.5 * s1)) in *.
  set (t3 := s3 * 0.005 * s4) in *.
  assert (-0.025 <= (t1 + s2 * 0.01 + t3) * (0.7 + 0.3 * s5) <= 0.025) as Hsum
    by (split; Lra.nra).
  set (u := (t1 + s2 * 0.01 + t3) * (0.7 + 0.3 * s5)) in *.
  rewrite Rabs_mult, (Rabs_pos_eq v) by exact Hvol.
  assert (Rabs u <= 0.025) by (unfold Rabs; destruct (Rcase_abs u); Lra.lra).
  Lra.nra.
Qed.

Lemma texture_is_faint_witness :
  rng_ok (constant_rng (1 # 4)) /\
  (0 <= volume (createAtmosphericLayer
                  (MusicTheoryEngine.mkAnalysis None [] []
                     (MusicTheoryEngine.createProfessionalStructure "ambient" 60)
                     60 "dreamy" "ambient" "medium")
                  getDefaultSettings))%Q /\
  exists x,
    generateAtmosphericTexture 1
      (createAtmosphericLayer
         (MusicTheoryEngine.mkAnalysis None [] []
            (MusicTheoryEngine.createProfessionalStructure "ambient" 60)
            60 "dreamy" "ambient" "medium")
         getDefaultSettings)
      (1 / 2) (constant_rng (1 # 4))
    = Ok x (mkRng (draws (constant_rng (1 # 4)))
                  (S (cursor (constant_rng (1 # 4))))) /\
    Rabs x
    <= 0.025 * Q2R (volume (createAtmosphericLayer
                              (MusicTheoryEngine.mkAnalysis None [] []
                                 (MusicTheoryEngine.createProfessionalStructure
                                    "ambient" 60)
                                 60 "dreamy" "ambient" "medium")
                              getDefaultSettings)).
Proof.
  assert (rng_ok (constant_rng (1 # 4))) as Hg
    by (intros n; split; vm_compute; congruence).
  split; [exact Hg|]. split; [vm_compute; congruence|].
  apply (texture_is_faint 1 _ (1 / 2) (constant_rng (1 # 4)) Hg).
  vm_compute; congruence.
Defined.

End Mixing.

(** ** Invariants of the effects chain *)

Section EffectsInvariants.
Import Schema ProfessionalAudioRenderer.
Local Open Scope R_scope.

(** The level [(x || d) / 100] is never 0 when the default [d] is not. *)
Lemma level_never_zero (x d : Q) :
  ~ (d == 0)%Q -> Qeq_bool (JS.or_else x d / 100) 0 = false.
Proof.
  intros Hd. destruct (Qeq_bool (JS.or_else x d / 100) 0) eqn:E; [|reflexivity].
  apply Qeq_bool_eq in E. exfalso. unfold JS.or_else in E.
  destruct (Qeq_bool x 0) eqn:Ex.
  - apply Hd. rewrite <- (Qmult_div_r d 100) by discriminate.
    rewrite E. reflexivity.
  - apply Qeq_bool_neq in Ex. apply Ex.
    rewrite <- (Qmult_div_r x 100) by discriminate. rewrite E. reflexivity.
Qed.

Lemma level_range (x d : Q) :
  (0 <= x)%Q -> (x <= 100)%Q -> (0 < d)%Q -> (d <= 100)%Q ->
  0 < Q2R (JS.or_else x d / 100) <= 1.
Proof.
  intros Hx0 Hx1 Hd0 Hd1.
  assert (0 < JS.or_else x d /\ JS.or_else x d <= 100)%Q as [Hlo Hhi].
  { unfold JS.or_else. destruct (Qeq_bool x 0) eqn:E; [tauto|].
    apply Qeq_bool_neq in E. split; [|exact Hx1].
    apply Qle_lteq in Hx0 as [Hx0 | Hx0]; [exact Hx0 | now symmetry in Hx0]. }
  assert (0 < JS.or_else x d / 100)%Q as Hlo'
    by (apply Qlt_shift_div_l; [reflexivity | Lqa.lra]).
  assert (JS.or_else x d / 100 <= 1)%Q as Hhi'
    by (apply Qle_shift_div_r; [reflexivity | Lqa.lra]).
  apply Qlt_Rlt in Hlo'. apply Qle_Rle in Hhi'.
  rewrite RMicromega.Q2R_0 in Hlo'. rewrite RMicromega.Q2R_1 in Hhi'.
  split; assumption.
Qed.

Lemma slider_level_range (x d : Q) :
  (x == 0 \/ 1 <= x)%Q -> (x <= 100)%Q -> (1 <= d)%Q -> (d <= 100)%Q ->
  0.01 <= Q2R (JS.or_else x d / 100) <= 1.
Proof.
  intros Hx0 Hx1 Hd0 Hd1.
  assert (1 <= JS.or_else x d /\ JS.or_else x d <= 100)%Q as [Hlo Hhi].
  { unfold JS.or_else. destruct (Qeq_bool x 0) eqn:E; [tauto|].
    apply Qeq_bool_neq in E. split; [|exact Hx1].
    destruct Hx0 as [Hx0 | Hx0]; [contradiction | exact Hx0]. }
  assert (1 # 100 <= JS.or_else x d / 100)%Q as Hlo'
    by (apply Qle_shift_div_l; [reflexivity | Lqa.lra]).
  assert (JS.or_else x d / 100 <= 1)%Q as Hhi'
    by (apply Qle_shift_div_r; [reflexivity | Lqa.lra]).
  apply Qle_Rle in Hlo'. apply Qle_Rle in Hhi'.
  rewrite RMicromega.Q2R_1 in Hhi'.
  replace (Q2R (1 # 100)) with 0.01 in Hlo' by (unfold Q2R; cbn; Lra.lra).
  split; assumption.
Qed.

(** X17.  The distortion is never bypassed and never clips: with the
    distortion slider at 0 or between 1 and 100 the amount
    [(distortion || 20) / 100] is at least 0.01, so that the bypass branch
    is not taken and the gain [1 - amount * 0.1] is at most 0.999: every
    sample that is a number, however large, comes out as the saturated
    value, strictly between -1 and 1.  A sample that is [NaN] stays
    [NaN]. *)
Theorem distortion_saturates_below_one (sample : option R)
    (state : EffectsState) (settings : GenerationSettings) :
  (distortion settings == 0 \/ 1 <= distortion settings)%Q ->
  (distortion settings <= 100)%Q ->
  let amount := Q2R (JS.or_else (distortion settings) 20 / 100) in
  0.01 <= amount <= 1 /\
  match sample with
  | Some x =>
      exists y,
        applyDistortionNaN sample state settings = Some y /\
        y = tanh (x * (1 + amount * 3)) * (1 - amount * 0.1) /\
        Rabs y < 1
  | None => applyDistortionNaN sample state settings = None
  end.
Proof.
  intros Hd0 Hd1 amount.
  assert (0.01 <= amount <= 1) as Ha
    by (apply slider_level_range;
        [assumption | assumption | vm_compute; congruence
        | vm_compute; congruence]).
  split; [exact Ha|].
  destruct sample as [x|]; [|reflexivity].
  unfold applyDistortionNaN, applyDistortion.
  cbn [fmap option_fmap option_map].
  rewrite level_never_zero by discriminate. fold amount.
  eexists. split; [reflexivity|]. split; [reflexivity|].
  pose proof (tanh_lt_1 (x * (1 + amount * 3))) as Hlt.
  pose proof (tanh_gt_m1 (x * (1 + amount * 3))) as Hgt.
  set (y := tanh _) in *.
  unfold Rabs. destruct (Rcase_abs _); Lra.nra.
Qed.

Lemma distortion_saturates_below_one_witness :
  (distortion getDefaultSettings == 0 \/ 1 <= distortion getDefaultSettings)%Q /\
  (distortion getDefaultSettings <= 100)%Q /\
  let amount := Q2R (JS.or_else (distortion getDefaultSettings) 20 / 100) in
  0.01 <= amount <= 1 /\
  exists y,
    applyDistortionNaN (Some 5) initializeEffectsChain getDefaultSettings
    = Some y /\
    y = tanh (5 * (1 + amount * 3)) * (1 - amount * 0.1) /\
    Rabs y < 1.
Proof.
  assert (distortion getDefaultSettings == 0
          \/ 1 <= distortion getDefaultSettings)%Q as Hd
    by (right; vm_compute; congruence).
  split; [exact Hd|]. split; [vm_compute; congruence|].
  apply (distortion_saturates_below_one (Some 5) initializeEffectsChain
           getDefaultSettings Hd).
  vm_compute; congruence.
Defined.

Lemma advance_index (line : DelayLine) (v : R) (n : nat) :
  (index line < length (buffer line))%nat ->
  (index (advanceLine line v) < length (buffer (advanceLine line v)))%nat /\
  length (buffer (advanceLine line v)) = length (buffer line) /\
  ((index (advanceLine line v) + n) mod length (buffer line)
   = (index line + S n) mod length (buffer line))%nat.
Proof.
  intros Hlt. unfold advanceLine. cbn [index buffer]. rewrite length_insert.
  split; [apply Nat.mod_upper_bound; lia|]. split; [reflexivity|].
  rewrite Nat.Div0.add_mod_idemp_l. f_equal. lia.
Qed.

Lemma effectsStep_lines (i : nat) (sample : R) (state : EffectsState)
    (settings : GenerationSettings) :
  exists v w,
    delay_state (snd (effectsStep i sample state settings))
    = advanceLine (delay_state state) v /\
    reverb_state (snd (effectsStep i sample state settings))
    = advanceLine (reverb_state state) w.
Proof.
  unfold effectsStep, applyChorus, applyDelay, applyReverb.
  rewrite level_never_zero by discriminate.
  cbn [snd delay_state reverb_state]. eauto.
Qed.

Lemma effectsLoop_lines (samples : list R) :
  forall (i : nat) (state : EffectsState) (settings : GenerationSettings),
    (index (delay_state state) < length (buffer (delay_state state)))%nat ->
    (index (reverb_state state) < length (buffer (reverb_state state)))%nat ->
    let result := effectsLoop i samples state settings in
    length (fst result) = length samples /\
    length (buffer (delay_state (snd result)))
    = length (buffer (delay_state state)) /\
    length (buffer (reverb_state (snd result)))
    = length (buffer (reverb_state state)) /\
    index (delay_state (snd result))
    = ((index (delay_state state) + length samples)
       mod length (buffer (delay_state state)))%nat /\
    index (reverb_state (snd result))
    = ((index (reverb_state state) + length samples)
       mod length (buffer (reverb_state state)))%nat.
Proof.
  induction samples as [|x rest IH]; intros i state settings Hd Hr; cbv zeta.
  - cbn [effectsLoop fst snd length]. rewrite !Nat.add_0_r.
    rewrite !Nat.mod_small by assumption. repeat split.
  - cbn [effectsLoop].
    destruct (effectsStep_lines i x state settings) as (v & w & Hdv & Hrw).
    destruct (effectsStep i x state settings) as [y state'] eqn:Estep.
    cbn [snd] in Hdv, Hrw.
    destruct (advance_index (delay_state state) v (length rest) Hd)
      as (Hd1 & Hd2 & Hd3).
    destruct (advance_index (reverb_state state) w (length rest) Hr)
      as (Hr1 & Hr2 & Hr3).
    rewrite <- Hdv in Hd1, Hd2, Hd3. rewrite <- Hrw in Hr1, Hr2, Hr3.
    specialize (IH (S i) state' settings Hd1 Hr1). cbv zeta in IH.
    destruct (effectsLoop (S i) rest state' settings) as [ys state''].
    cbn [fst snd length] in *.
    destruct IH as (Hlen & Hdl & Hrl & Hdi & Hri).
    rewrite Hd2 in Hdl, Hdi. rewrite Hr2 in Hrl, Hri.
    repeat split; congruence.
Qed.

(** X18.  The delay lines of a layer are circular buffers that no settings
    can switch off: from write positions within the buffers,
    [applyEffectsChain] over [n] samples returns [n] samples, keeps the
    length of the delay and the reverb buffers, and leaves both write
    positions advanced by [n] modulo that length, so within the buffers
    again; the reverb line advances whatever the reverb setting. *)
Theorem delay_lines_advance_with_every_sample (samples : list R)
    (state : EffectsState) (settings : GenerationSettings) :
  (index (delay_state state) < length (buffer (delay_state state)))%nat ->
  (index (reverb_state state) < length (buffer (reverb_state state)))%nat ->
  let result := applyEffectsChain samples state settings in
  length (fst result) = length samples /\
  length (buffer (delay_state (snd result)))
  = length (buffer (delay_state state)) /\
  length (buffer (reverb_state (snd result)))
  = length (buffer (reverb_state state)) /\
  index (delay_state (snd result))
  = ((index (delay_state state) + length samples)
     mod length (buffer (delay_state state)))%nat /\
  index (reverb_state (snd result))
  = ((index (reverb_state state) + length samples)
     mod length (buffer (reverb_state state)))%nat /\
  (index (delay_state (snd result))
   < length (buffer (delay_state (snd result))))%nat /\
  (index (reverb_state (snd result))
   < length (buffer (reverb_state (snd result))))%nat.
Proof.
  intros Hd Hr result.
  destruct (effectsLoop_lines samples 0 state settings Hd Hr)
    as (Hlen & Hdl & Hrl & Hdi & Hri).
  fold (applyEffectsChain samples state settings) in Hlen, Hdl, Hrl, Hdi, Hri.
  fold result in Hlen, Hdl, Hrl, Hdi, Hri.
  repeat split; try assumption.
  - rewrite Hdi, Hdl. apply Nat.mod_upper_bound. lia.
  - rewrite Hri, Hrl. apply Nat.mod_upper_bound. lia.
Qed.

Lemma delay_lines_advance_with_every_sample_witness :
  let state := mkEffects (mkLine [0; 0; 0] 2) (mkLine [0; 0] 0) 0 0 0 in
  (index (delay_state state) < length (buffer (delay_state state)))%nat /\
  (index (reverb_state state) < length (buffer (reverb_state state)))%nat /\
  let result := applyEffectsChain [1; 1; 1; 1; 1] state getDefaultSettings in
  length (fst result) = length [1; 1; 1; 1; 1] /\
  length (buffer (delay_state (snd result)))
  = length (buffer (delay_state state)) /\
  length (buffer (reverb_state (snd result)))
  = length (buffer (reverb_state state)) /\
  index (delay_state (snd result))
  = ((index (delay_state state) + length [1; 1; 1; 1; 1])
     mod length (buffer (delay_state state)))%nat /\
  index (reverb_state (snd result))
  = ((index (reverb_state state) + length [1; 1; 1; 1; 1])
     mod length (buffer (reverb_state state)))%nat /\
  (index (delay_state (snd result))
   < length (buffer (delay_state (snd result))))%nat /\
  (index (reverb_state (snd result))
   < length (buffer (reverb_state (snd result))))%nat.
Proof.
  intros state. split; [cbn; lia|]. split; [cbn; lia|].
  apply (delay_lines_advance_with_every_sample [1; 1; 1; 1; 1] state
           getDefaultSettings); cbn; lia.
Defined.

(** The buffer of a delay line holds only zeros. *)
Lemma silent_line_step (line : DelayLine) (k : R) :
  Forall (fun x => x = 0) (buffer line) ->
  readLine line = 0 /\
  Forall (fun x => x = 0) (buffer (advanceLine line (0 + readLine line * k))).
Proof.
  intros Hall.
  assert (readLine line = 0) as Hread.
  { unfold readLine. destruct (buffer line !! index line) as [x|] eqn:E;
      [|reflexivity].
    cbn [default]. rewrite Forall_lookup in Hall. exact (Hall _ _ E). }
  split; [exact Hread|]. rewrite Hread. unfold advanceLine. cbn [buffer].
  apply Forall_insert; [exact Hall | Lra.lra].
Qed.

Lemma silent_step (i : nat) (state : EffectsState) (settings : GenerationSettings) :
  Forall (fun x => x = 0) (buffer (delay_state state)) ->
  Forall (fun x => x = 0) (buffer (reverb_state state)) ->
  fst (effectsStep i 0 state settings) = 0 /\
  Forall (fun x => x = 0) (buffer (delay_state (snd (effectsStep i 0 state settings)))) /\
  Forall (fun x => x = 0) (buffer (reverb_state (snd (effectsStep i 0 state settings)))).
Proof.
  intros Hd Hr.
  assert (applyDistortion 0 state settings = 0) as Hdist.
  { unfold applyDistortion. destruct (Qeq_bool _ 0); [reflexivity|].
    rewrite Rmult_0_l, tanh_0. Lra.lra. }
  unfold effectsStep. rewrite Hdist. unfold applyFilter, applyChorus.
  rewrite !Rmult_0_l. unfold applyDelay.
  destruct (silent_line_step (delay_state state) 0.3 Hd) as [Hrd Hd'].
  rewrite Hrd in *. rewrite Rmult_0_l, Rplus_0_r.
  unfold applyReverb. rewrite level_never_zero by discriminate.
  destruct (silent_line_step (reverb_state state)
              (Q2R (JS.or_else (reverb settings) 70 / 100) * 0.4) Hr) as [Hrr Hr'].
  rewrite Hrr in *. cbn [fst snd delay_state reverb_state].
  rewrite !Rmult_0_l, !Rplus_0_r in *.
  split; [reflexivity|]. split; assumption.
Qed.

Lemma silent_loop (n : nat) :
  forall (i : nat) (state : EffectsState) (settings : GenerationSettings),
    Forall (fun x => x = 0) (buffer (delay_state state)) ->
    Forall (fun x => x = 0) (buffer (reverb_state state)) ->
    fst (effectsLoop i (replicate n 0) state settings) = replicate n 0.
Proof.
  induction n as [|n IH]; intros i state settings Hd Hr; [reflexivity|].
  cbn [replicate effectsLoop].
  destruct (silent_step i state settings Hd Hr) as (Hy & Hd' & Hr').
  destruct (effectsStep i 0 state settings) as [y state'].
  cbn [fst snd] in *. subst y.
  specialize (IH (S i) state' settings Hd' Hr').
  destruct (effectsLoop (S i) (replicate n 0) state' settings) as [ys state''].
  cbn [fst] in *. now rewrite IH.
Qed.

(** X19.  The effects chain adds no sound of its own: a layer buffer of [n]
    zeros goes through a freshly initialized chain as [n] zeros, whatever
    the settings. *)
Theorem silence_stays_silent (n : nat) (settings : GenerationSettings) :
  fst (applyEffectsChain (replicate n 0) initializeEffectsChain settings)
  = replicate n 0.
Proof.
  unfold applyEffectsChain. apply silent_loop;
    unfold initializeEffectsChain; cbn [delay_state reverb_state buffer];
    apply Forall_replicate; reflexivity.
Qed.

End EffectsInvariants.

(** ** Reading the file back *)

Section WavDecoding.
Import NodeBuffer Spec.
Local Open Scope Z_scope.
Local Open Scope list_scope.

Lemma sample_bytes_lookup (f : Float.t -> Z) (audioData : list Float.t) :
  forall (i : nat) (x : Float.t),
    audioData !! i = Some x ->
    (audioData ≫= fun x => int16le (f x)) !! (2 * i)%nat
    = Some ((f x mod 65536) mod 256) /\
    (audioData ≫= fun x => int16le (f x)) !! (1 + 2 * i)%nat
    = Some (((f x mod 65536) / 256) mod 256).
Proof.
  induction audioData as [|y rest IH]; intros i x Hx; [discriminate|].
  cbn [mbind list_bind]. unfold int16le at 1 3, le16. cbn [app].
  destruct i as [|i].
  - cbn in Hx. injection Hx as ->. split; reflexivity.
  - cbn [lookup list_lookup] in Hx. destruct (IH i x Hx) as [H0 H1].
    replace (2 * S i)%nat with (S (S (2 * i))) by lia.
    replace (1 + S (S (2 * i)))%nat with (S (S (1 + 2 * i))) by lia.
    cbn [lookup list_lookup]. split; assumption.
Qed.

(** X20.  The file the professional encoder returns can be read back: it
    has 44 + 2n bytes and starts with the tag RIFF; the little-endian
    fields at offsets 4, 24 and 40 decode to the RIFF size 36 + 2n, the
    sample rate and the data size 2n; and the two bytes at offset 44 + 2i
    decode, as a signed 16-bit integer, to the rounded clamped sample [i],
    which lies within -32767 and 32767. *)
Theorem professional_wav_reads_back (audioData : list Float.t)
    (sampleRate : Z) :
  0 <= sampleRate -> sampleRate * 2 <= 4294967295 ->
  36 + 2 * Z.of_nat (length audioData) <= 4294967295 ->
  exists file,
    ProfessionalAudioRenderer.createWAVBuffer audioData sampleRate
    = JS.Return file /\
    length file = (44 + 2 * length audioData)%nat /\
    take 4 file = tag "RIFF" /\
    decodeUInt32 (take 4 (drop 4 file))
    = Some (36 + 2 * Z.of_nat (length audioData)) /\
    decodeUInt32 (take 4 (drop 24 file)) = Some sampleRate /\
    decodeUInt32 (take 4 (drop 40 file))
    = Some (2 * Z.of_nat (length audioData)) /\
    forall (i : nat) (x : Float.t),
      audioData !! i = Some x ->
      exists lo hi,
        file !! (44 + 2 * i)%nat = Some lo /\
        file !! (45 + 2 * i)%nat = Some hi /\
        decodeInt16 lo hi = pcm16 x /\
        -32767 <= pcm16 x <= 32767.
Proof.
  intros Hsr Hrate Hsize.
  exists (wavFile audioData sampleRate).
  split.
  { unfold ProfessionalAudioRenderer.createWAVBuffer. cbv zeta.
    rewrite writeWAVHeader_spec by lia. rewrite result_bind_Return.
    replace (Z.to_nat (Z.of_nat (length audioData) * 2))
      with (2 * length audioData)%nat by lia.
    now rewrite professional_writeSamples by (rewrite ?wavHeader_length; lia). }
  split; [apply wavFile_length|].
  split; [reflexivity|].
  split.
  { change (take 4 (drop 4 (wavFile audioData sampleRate)))
      with (le32 (36 + 2 * Z.of_nat (length audioData))).
    apply decodeUInt32_le32. lia. }
  split.
  { change (take 4 (drop 24 (wavFile audioData sampleRate)))
      with (le32 sampleRate).
    apply decodeUInt32_le32. lia. }
  split.
  { change (take 4 (drop 40 (wavFile audioData sampleRate)))
      with (le32 (2 * Z.of_nat (length audioData))).
    apply decodeUInt32_le32. lia. }
  intros i x Hx. pose proof (pcm16_range x) as Hrange.
  destruct (sample_bytes_lookup pcm16 audioData i x Hx) as [H0 H1].
  exists ((pcm16 x mod 65536) mod 256), (((pcm16 x mod 65536) / 256) mod 256).
  unfold wavFile. change Buffer with (list Z).
  rewrite !lookup_app_r by (rewrite wavHeader_length; lia).
  rewrite wavHeader_length.
  replace (44 + 2 * i - 44)%nat with (2 * i)%nat by lia.
  replace (45 + 2 * i - 44)%nat with (1 + 2 * i)%nat by lia.
  split; [exact H0|]. split; [exact H1|]. split; [|exact Hrange].
  destruct (decodeInt16_int16le (pcm16 x)) as (lo & hi & Hbytes & _ & _ & Hdec);
    [lia|].
  unfold int16le, le16 in Hbytes. injection Hbytes as <- <-. exact Hdec.
Qed.

Lemma professional_wav_reads_back_witness :
  0 <= 44100 /\ 44100 * 2 <= 4294967295 /\
  36 + 2 * Z.of_nat (length [Float.Finite (1 # 2); Float.NaN; Float.NegInf])
  <= 4294967295 /\
  exists file,
    ProfessionalAudioRenderer.createWAVBuffer
      [Float.Finite (1 # 2); Float.NaN; Float.NegInf] 44100
    = JS.Return file /\
    length file
    = (44 + 2 * length [Float.Finite (1 # 2); Float.NaN; Float.NegInf])%nat /\
    take 4 file = tag "RIFF" /\
    decodeUInt32 (take 4 (drop 4 file))
    = Some (36 + 2 * Z.of_nat
                       (length [Float.Finite (1 # 2); Float.NaN; Float.NegInf])) /\
    decodeUInt32 (take 4 (drop 24 file)) = Some 44100 /\
    decodeUInt32 (take 4 (drop 40 file))
    = Some (2 * Z.of_nat (length [Float.Finite (1 # 2); Float.NaN; Float.NegInf])) /\
    forall (i : nat) (x : Float.t),
      [Float.Finite (1 # 2); Float.NaN; Float.NegInf] !! i = Some x ->
      exists lo hi,
        file !! (44 + 2 * i)%nat = Some lo /\
        file !! (45 + 2 * i)%nat = Some hi /\
        decodeInt16 lo hi = pcm16 x /\
        -32767 <= pcm16 x <= 32767.
Proof.
  split; [lia|]. split; [lia|]. split; [cbn; lia|].
  apply (professional_wav_reads_back
           [Float.Finite (1 # 2); Float.NaN; Float.NegInf] 44100);
    cbn; lia.
Defined.

End WavDecoding.

(** ** The structure of a professional track, by tempo *)

Section StructureByTempo.
Import Comp Schema MusicTheoryEngine MusicGenerator Spec.
Local Open Scope string_scope.
Local Open Scope Z_scope.

Lemma analyze_structure prompt settings g a g' :
  analyzePromptAdvanced prompt settings g = Ok a g' ->
  songStructure a = createProfessionalStructure (style a) (tempo a).
Proof.
  unfold analyzePromptAdvanced.
  unfold mbind at 1. unfold M_bind at 1.
  destruct (selectProfessionalKey _ _ g) as [k g1|e]; [|discriminate].
  unfold mbind at 1. unfold M_bind at 1.
  destruct (generateProfessionalChordProgression _ _ _ _ g1) as [c g2|e];
    [|discriminate].
  intros [= <- _]. reflexivity.
Qed.

Lemma fallback_metadata settings g a m g' :
  generateEnhancedFallback settings g = Ok (a, m) g' ->
  analyzePromptAdvanced (createCustomPrompt settings) settings g = Ok a g' /\
  MusicGenerator.duration m = calculateProfessionalDuration a settings /\
  structure m
  = createProfessionalSongStructure (calculateProfessionalDuration a settings) a.
Proof.
  unfold generateEnhancedFallback.
  unfold mbind at 1. unfold M_bind at 1.
  destruct (analyzePromptAdvanced _ settings g) as [a0 g0|e]; [|discriminate].
  intros [= <- <- <-]. repeat split.
Qed.

Lemma bar_duration_slow (tempo : Z) :
  0 < tempo -> tempo < 80 -> (3 < 4 / (inject_Z tempo / 60))%Q.
Proof.
  intros H0 H80. rewrite Zlt_Qlt in H0, H80.
  change (inject_Z 0) with 0%Q in H0. change (inject_Z 80) with 80%Q in H80.
  set (T := inject_Z tempo) in *.
  assert (0 < T / 60)%Q by (apply Qlt_shift_div_l; [reflexivity | Lqa.lra]).
  apply Qlt_shift_div_l; [assumption|].
  assert (T / 60 * 60 == T)%Q by (field; discriminate).
  Lqa.lra.
Qed.

Lemma bar_duration_fast (tempo : Z) :
  120 < tempo ->
  (0 < 4 / (inject_Z tempo / 60))%Q /\ (4 / (inject_Z tempo / 60) < 2)%Q.
Proof.
  intros H120. rewrite Zlt_Qlt in H120.
  change (inject_Z 120) with 120%Q in H120.
  set (T := inject_Z tempo) in *.
  assert (0 < T / 60)%Q by (apply Qlt_shift_div_l; [reflexivity | Lqa.lra]).
  assert (T / 60 * 60 == T)%Q by (field; discriminate).
  split.
  - apply Qlt_shift_div_l; [assumption | Lqa.lra].
  - apply Qlt_shift_div_r; [assumption | Lqa.lra].
Qed.

(** X21.  Whether the sections of a professional track fit in it is decided
    by the tempo the analysis resolved.  Below 80 BPM they never do: the 60
    bars before the outro last more than 3 seconds each, so the outro
    starts after 180 seconds, the longest a track can be, and the structure
    does not tile the track.  Above 120 BPM they always do: the 31 bars
    before the outro last less than 2 seconds each and end before 90
    seconds, the shortest a track can be. *)
Theorem professional_structure_fits_by_tempo (settings : GenerationSettings)
    (g : Rng) (analysis : MusicTheoryAnalysis) (metadata : GenerationMetadata)
    (g' : Rng) :
  generateEnhancedFallback settings g = Ok (analysis, metadata) g' ->
  (0 < tempo analysis < 80 ->
   (inject_Z (MusicGenerator.duration metadata)
    < start (MusicGenerator.outro (structure metadata)))%Q /\
   ~ partitions (structure metadata)
       (inject_Z (MusicGenerator.duration metadata))) /\
  (120 < tempo analysis ->
   partitions (structure metadata)
     (inject_Z (MusicGenerator.duration metadata))).
Proof.
  intros Hrun. destruct (fallback_metadata _ _ _ _ _ Hrun) as (Ha & Hd & Hs).
  pose proof (analyze_structure _ _ _ _ _ Ha) as Hst.
  pose proof (clampDuration_bounds
                (let tempo := tempo analysis in
                 let baseDuration := 120%Q in
                 let baseDuration :=
                   if (tempo <? 80)%Z then (baseDuration * (13 # 10))%Q
                   else if (120 <? tempo)%Z then (baseDuration * (8 # 10))%Q
                   else baseDuration in
                 let multiplier :=
                   JS.or_else
                     (default 0%Q (moodMultipliers !! MusicTheoryEngine.mood analysis))
                     1 in
                 let baseDuration := (baseDuration * multiplier)%Q in
                 let structureMultiplier :=
                   (inject_Z (totalBars (songStructure analysis)) / 48)%Q in
                 let baseDuration := (baseDuration * structureMultiplier)%Q in
                 baseDuration)) as Hbounds.
  change (clampDuration _) with (calculateProfessionalDuration analysis settings)
    in Hbounds.
  rewrite Hd, Hs. set (d := calculateProfessionalDuration analysis settings) in *.
  assert (90 <= inject_Z d)%Q as Hlo
    by (change 90%Q with (inject_Z 90); rewrite <- Zle_Qle; lia).
  assert (inject_Z d <= 180)%Q as Hhi
    by (change 180%Q with (inject_Z 180); rewrite <- Zle_Qle; lia).
  unfold createProfessionalSongStructure. rewrite Hst.
  generalize dependent (inject_Z d). intros q Hlo Hhi.
  unfold createProfessionalStructure, barMultiplier.
  split.
  - intros [H0 H80]. pose proof (bar_duration_slow _ H0 H80) as Hbar.
    apply Z.ltb_lt in H80. rewrite H80.
    set (bar := (4 / (inject_Z (tempo analysis) / 60))%Q) in *.
    cbn [sections MusicTheoryEngine.intro MusicTheoryEngine.verse chorus
         MusicTheoryEngine.bridge MusicTheoryEngine.outro bars fmap option_fmap
         option_map SONG_STRUCTURES base_sections base_form].
    change (JS.round (inject_Z 8 * (3 # 2))) with 12.
    change (JS.round (inject_Z 16 * (3 # 2))) with 24.
    unfold barsOr. cbn [fmap option_fmap option_map default bars].
    change (JS.or_else (inject_Z 12) (inject_Z 24)) with 12%Q.
    change (JS.or_else (inject_Z 12) (inject_Z 24 * (1 # 2))) with 12%Q.
    change (inject_Z 12) with 12%Q. change (inject_Z 24) with 24%Q.
    assert (q < 0 + 12 * bar + 24 * bar + 12 * bar + 12 * bar)%Q as Hover
      by Lqa.lra.
    split.
    + cbn [MusicGenerator.outro start end_]. exact Hover.
    + unfold partitions.
      cbn [MusicGenerator.intro MusicGenerator.verse MusicGenerator.hook
           MusicGenerator.bridge MusicGenerator.outro start end_].
      intros (_ & _ & _ & _ & _ & _ & _ & _ & _ & Hlt & _).
      repeat match type of Hlt with
             | context [JS.or_else ?a ?b] =>
                 let v := eval vm_compute in (JS.or_else a b) in
                 change (JS.or_else a b) with v in Hlt
             end.
      Lqa.lra.
  - intros H120. destruct (bar_duration_fast _ H120) as [Hbar0 Hbar2].
    assert ((tempo analysis <? 80) = false) as -> by (apply Z.ltb_ge; lia).
    apply Z.ltb_lt in H120. rewrite H120.
    set (bar := (4 / (inject_Z (tempo analysis) / 60))%Q) in *.
    cbn [sections MusicTheoryEngine.intro MusicTheoryEngine.verse chorus
         MusicTheoryEngine.bridge MusicTheoryEngine.outro bars fmap option_fmap
         option_map SONG_STRUCTURES base_sections base_form].
    change (JS.round (inject_Z 8 * (8 # 10))) with 6.
    change (JS.round (inject_Z 16 * (8 # 10))) with 13.
    unfold barsOr. cbn [fmap option_fmap option_map default bars].
    change (JS.or_else (inject_Z 6) (inject_Z 13)) with 6%Q.
    change (JS.or_else (inject_Z 6) (inject_Z 13 * (1 # 2))) with 6%Q.
    change (inject_Z 6) with 6%Q. change (inject_Z 13) with 13%Q.
    unfold partitions.
    cbn [MusicGenerator.intro MusicGenerator.verse MusicGenerator.hook
         MusicGenerator.bridge MusicGenerator.outro start end_].
    repeat match goal with
           | |- context [JS.or_else ?a ?b] =>
               let v := eval vm_compute in (JS.or_else a b) in
               change (JS.or_else a b) with v
           end.
    repeat split; try reflexivity; Lqa.lra.
Qed.

Lemma professional_structure_fits_by_tempo_witness :
  exists analysis metadata g',
    generateEnhancedFallback getDefaultSettings (constant_rng 0)
    = Ok (analysis, metadata) g' /\
    0 < tempo analysis < 80 /\
    (0 < tempo analysis < 80 ->
     (inject_Z (MusicGenerator.duration metadata)
      < start (MusicGenerator.outro (structure metadata)))%Q /\
     ~ partitions (structure metadata)
         (inject_Z (MusicGenerator.duration metadata))) /\
    (120 < tempo analysis ->
     partitions (structure metadata)
       (inject_Z (MusicGenerator.duration metadata))).
Proof.
  eexists _, _, _. split; [vm_compute; reflexivity|].
  split; [vm_compute; split; reflexivity|].
  eapply (professional_structure_fits_by_tempo getDefaultSettings (constant_rng 0)).
  vm_compute; reflexivity.
Defined.

End StructureByTempo.

(** ** Parameters of the layers *)

Section LayerParameters.
Import Schema ProfessionalSynthEngine Spec.
Local Open Scope string_scope.
Local Open Scope Z_scope.
Local Open Scope list_scope.

Lemma fraction_range (x n : Q) :
  (0 <= x)%Q -> (x <= 100)%Q -> (100 <= n)%Q ->
  (0 <= x / n)%Q /\ (x / n <= 1)%Q.
Proof.
  intros Hx0 Hx1 Hn. split.
  - apply Qle_shift_div_l; Lqa.lra.
  - apply Qle_shift_div_r; Lqa.lra.
Qed.

(** X22.  For valid settings every layer [createSynthLayers] builds has its
    parameters in range: volume, distortion amount, reverb level and
    sustain level in [[0,1]], delay feedback below 1, filter cutoff
    positive and below 22050 Hz; the sliders only move the bass volume, the
    distortion amounts and the reverb and cutoff of the pad. *)
Theorem layers_are_in_range (analysis : MusicTheoryEngine.MusicTheoryAnalysis)
    (settings : GenerationSettings) :
  valid settings ->
  Forall layerInRange (createSynthLayers analysis settings).
Proof.
  intros (Hbass & _ & Hreverb & Hdist & _).
  destruct (fraction_range (bass settings) 100) as [Hb0 Hb1];
    [tauto | tauto | Lqa.lra |].
  destruct (fraction_range (reverb settings) 100) as [Hr0 Hr1];
    [tauto | tauto | Lqa.lra |].
  destruct (fraction_range (distortion settings) 100) as [Hd0 Hd1];
    [tauto | tauto | Lqa.lra |].
  destruct (fraction_range (distortion settings) 150) as [He0 He1];
    [tauto | tauto | Lqa.lra |].
  destruct (fraction_range (distortion settings) 200) as [Hf0 Hf1];
    [tauto | tauto | Lqa.lra |].
  assert (layerInRange (createChordPadLayer analysis settings)) as Hpad.
  { unfold layerInRange, createChordPadLayer.
    cbn [effects volume amount fx_distortion reverb_wetLevel fx_reverb feedback
         fx_delay sustain envelope filter_frequency filter].
    set (r := (reverb settings / 100)%Q) in *.
    set (d := (distortion settings / 100)%Q) in *.
    repeat split; Lqa.lra. }
  assert (layerInRange (createProfessionalBassLayer analysis settings)) as Hbass'.
  { unfold layerInRange, createProfessionalBassLayer.
    cbn [effects volume amount fx_distortion reverb_wetLevel fx_reverb feedback
         fx_delay sustain envelope filter_frequency filter].
    set (b := (bass settings / 100)%Q) in *.
    set (d := (distortion settings / 200)%Q) in *.
    repeat split; Lqa.lra. }
  assert (layerInRange (createArpeggioLayer analysis settings)) as Harp
    by (repeat split; vm_compute; congruence).
  assert (layerInRange (createTrapPercussionLayer analysis settings)) as Hperc
    by (repeat split; vm_compute; congruence).
  assert (layerInRange (createSynthLeadLayer analysis settings)) as Hlead.
  { unfold layerInRange, createSynthLeadLayer.
    cbn [effects volume amount fx_distortion reverb_wetLevel fx_reverb feedback
         fx_delay sustain envelope filter_frequency filter].
    set (d := (distortion settings / 150)%Q) in *.
    repeat split; Lqa.lra. }
  assert (layerInRange (createAtmosphericLayer analysis settings)) as Htexture
    by (repeat split; vm_compute; congruence).
  unfold createSynthLayers.
  destruct (pads _), (bass_on _), (arps _), (drums _), (synths _);
    cbn [app]; repeat (constructor; [assumption|]); constructor.
Qed.

Lemma layers_are_in_range_witness :
  valid getDefaultSettings /\
  Forall layerInRange
    (createSynthLayers
       (MusicTheoryEngine.mkAnalysis (Some "Em") [0; 2; 3; 5; 7; 8; 10] []
          (MusicTheoryEngine.createProfessionalStructure "ambient" 60)
          60 "dreamy" "ambient" "medium")
       getDefaultSettings).
Proof.
  split; [exact getDefaultSettings_valid|].
  apply (layers_are_in_range _ getDefaultSettings getDefaultSettings_valid).
Defined.

End LayerParameters.

(** ** The prompt of the placeholder generator *)

Section PromptReading.
Import Comp Schema MusicGenerator.
Local Open Scope string_scope.
Local Open Scope Z_scope.
Local Open Scope list_scope.

(** X23.  [analyzePrompt] reads any prompt without throwing and with one
    draw, which becomes the random seed, and every field it fills lies in
    its enumeration: the mood is one of the six moods of the settings
    schema, the tempo, the style and the energy are one of their named
    values, and the effects are a selection, in order and without
    repetition, of reverb, distortion, delay and filter. *)
Theorem prompt_analysis_is_enumerated (prompt : string) (g : Rng) :
  exists analysis,
    analyzePrompt prompt g = Ok analysis (mkRng (draws g) (S (cursor g))) /\
    randomSeed analysis = draws g (cursor g) /\
    pa_mood analysis ∈ moods /\
    pa_tempo analysis ∈ ["slow"; "fast"; "medium"] /\
    pa_style analysis ∈ ["trap"; "ambient"; "electronic"; "classical"] /\
    pa_energy analysis ∈ ["high"; "low"; "medium"] /\
    sublist (pa_effects analysis) ["reverb"; "distortion"; "delay"; "filter"].
Proof.
  eexists. split; [reflexivity|].
  cbn [randomSeed pa_mood pa_tempo pa_style pa_energy pa_effects].
  set (words := JS.split is_word_separator (JS.toLowerCase prompt)).
  split; [reflexivity|].
  split.
  { unfold extractMood, moods.
    repeat (destruct (JS.some _ words);
            [apply (bool_decide_unpack _); vm_compute; exact I|]).
    apply (bool_decide_unpack _); vm_compute; exact I. }
  split.
  { unfold extractTempo.
    repeat (destruct (JS.some _ words);
            [apply (bool_decide_unpack _); vm_compute; exact I|]).
    apply (bool_decide_unpack _); vm_compute; exact I. }
  split.
  { unfold extractStyle.
    repeat (destruct (JS.some _ words);
            [apply (bool_decide_unpack _); vm_compute; exact I|]).
    apply (bool_decide_unpack _); vm_compute; exact I. }
  split.
  { unfold extractEnergy.
    repeat (destruct (JS.some _ words);
            [apply (bool_decide_unpack _); vm_compute; exact I|]).
    apply (bool_decide_unpack _); vm_compute; exact I. }
  unfold extractEffects.
  destruct (JS.some _ words), (JS.some _ words), (JS.some _ words),
    (JS.some _ words); cbn [app];
    repeat first [apply sublist_nil | apply sublist_skip | apply sublist_cons].
Qed.

Lemma scale_detuning (seed : Q) :
  (0 <= seed)%Q -> (seed < 1)%Q ->
  (995 # 1000 <= (995 # 1000) + seed * (1 # 100))%Q /\
  ((995 # 1000) + seed * (1 # 100) < 1005 # 1000)%Q.
Proof. intros H0 H1. split; Lqa.lra. Qed.

(** X24.  The detuned scale of the placeholder generator is still a scale:
    for every mood that is not a key inherited from [Object.prototype], one
    of its table or not, and a seed in [[0,1)], [generateMelodicScale]
    returns eight frequency ratios in strictly ascending order, the first
    within one percent of the unison and the last within one percent of the
    octave.  For an inherited key such as ["constructor"] it throws a
    [TypeError].  The mood [extractMood] reads off a prompt is never an
    inherited key. *)
Theorem melodic_scale_ascends_over_an_octave (analysis : PromptAnalysis) :
  (0 <= randomSeed analysis)%Q -> (randomSeed analysis < 1)%Q ->
  (JS.inherited (pa_mood analysis) = false ->
   exists n1 n2 n3 n4 n5 n6 n7 n8 : Q,
     generateMelodicScale analysis = JS.Return [n1; n2; n3; n4; n5; n6; n7; n8] /\
     (99 # 100 < n1)%Q /\ (n1 < 101 # 100)%Q /\
     (n1 < n2)%Q /\ (n2 < n3)%Q /\ (n3 < n4)%Q /\ (n4 < n5)%Q /\
     (n5 < n6)%Q /\ (n6 < n7)%Q /\ (n7 < n8)%Q /\
     (198 # 100 < n8)%Q /\ (n8 < 202 # 100)%Q) /\
  (JS.inherited (pa_mood analysis) = true ->
   generateMelodicScale analysis = JS.Raise JS.TypeError) /\
  (forall words, JS.inherited (extractMood words) = false).
Proof.
  intros H0 H1. destruct (scale_detuning _ H0 H1) as [Hlo Hhi].
  split; [|split; [|apply extractMood_not_inherited]];
    unfold generateMelodicScale; intros ->; [|reflexivity].
  set (f := ((995 # 1000) + randomSeed analysis * (1 # 100))%Q) in *.
  destruct (melodicScales !! pa_mood analysis) as [base|] eqn:E.
  - apply elem_of_list_to_map_2 in E.
    repeat (apply elem_of_cons in E as [E | E]);
      [ | | | | now apply elem_of_nil in E ].
    all: injection E as _ ->; cbn [default fmap list_fmap].
    all: eexists _, _, _, _, _, _, _, _; split; [reflexivity|].
    all: repeat split; Lqa.lra.
  - cbn [default].
    replace (default [] (melodicScales !! "dreamy"))
      with [1; 1125 # 1000; 12 # 10; 1333 # 1000; 15 # 10; 16 # 10; 18 # 10; 2]%Q
      by (vm_compute; reflexivity).
    cbn [fmap list_fmap].
    eexists _, _, _, _, _, _, _, _; split; [reflexivity|].
    repeat split; Lqa.lra.
Qed.

Lemma melodic_scale_ascends_over_an_octave_witness :
  let analysis :=
    mkPromptAnalysis "slow" "ethereal" "ambient" ["reverb"] "low" (1 # 2) in
  (0 <= randomSeed analysis)%Q /\ (randomSeed analysis < 1)%Q /\
  (JS.inherited (pa_mood analysis) = false ->
   exists n1 n2 n3 n4 n5 n6 n7 n8 : Q,
     generateMelodicScale analysis = JS.Return [n1; n2; n3; n4; n5; n6; n7; n8] /\
     (99 # 100 < n1)%Q /\ (n1 < 101 # 100)%Q /\
     (n1 < n2)%Q /\ (n2 < n3)%Q /\ (n3 < n4)%Q /\ (n4 < n5)%Q /\
     (n5 < n6)%Q /\ (n6 < n7)%Q /\ (n7 < n8)%Q /\
     (198 # 100 < n8)%Q /\ (n8 < 202 # 100)%Q) /\
  (JS.inherited (pa_mood analysis) = true ->
   generateMelodicScale analysis = JS.Raise JS.TypeError) /\
  (forall words, JS.inherited (extractMood words) = false).
Proof.
  intros analysis. split; [vm_compute; congruence|].
  split; [vm_compute; reflexivity|].
  apply (melodic_scale_ascends_over_an_octave analysis);
    vm_compute; congruence.
Defined.

Lemma trimStart_head (s : string) (c : ascii) :
  head (list_ascii_of_string (JS.trimStart s)) = Some c -> JS.is_space c = false.
Proof.
  induction s as [|a r IH]; [discriminate|].
  cbn [JS.trimStart]. destruct (JS.is_space a) eqn:E; [exact IH|].
  cbn. now intros [= <-].
Qed.

Lemma drop_spaces_suffix (l : list ascii) :
  exists spaces, l = spaces ++ JS.drop_spaces l.
Proof.
  induction l as [|a r IH]; [now exists []|].
  cbn [JS.drop_spaces]. destruct (JS.is_space a); [|now exists []].
  destruct IH as (spaces & Hr). exists (a :: spaces). cbn. now f_equal.
Qed.

Lemma drop_spaces_head (l : list ascii) (c : ascii) :
  head (JS.drop_spaces l) = Some c -> JS.is_space c = false.
Proof.
  induction l as [|a r IH]; [discriminate|].
  cbn [JS.drop_spaces]. destruct (JS.is_space a) eqn:E; [exact IH|].
  cbn. now intros [= <-].
Qed.

Lemma trim_is_trimmed (p : string) :
  (forall c, head (list_ascii_of_string (JS.trim p)) = Some c ->
             JS.is_space c = false) /\
  (forall c, last (list_ascii_of_string (JS.trim p)) = Some c ->
             JS.is_space c = false).
Proof.
  unfold JS.trim, JS.trimEnd. rewrite list_ascii_of_string_of_list_ascii.
  set (L := list_ascii_of_string (JS.trimStart p)).
  destruct (drop_spaces_suffix (rev L)) as (spaces & Hsuffix).
  pose proof (drop_spaces_head (rev L)) as Hhead.
  set (D := JS.drop_spaces (rev L)) in *.
  assert (L = rev D ++ rev spaces) as HL.
  { rewrite <- (rev_involutive L), Hsuffix, rev_app_distr. reflexivity. }
  split; intros c Hc.
  - apply (trimStart_head p). fold L. rewrite HL.
    destruct (rev D) as [|a r]; [discriminate|]. exact Hc.
  - apply Hhead. destruct D as [|a r]; [discriminate|].
    cbn [rev] in Hc. rewrite last_snoc in Hc. exact Hc.
Qed.

(** X25.  The prompt the professional path analyzes is never empty and
    carries no white space at either end: [createCustomPrompt] returns the
    custom prompt trimmed, and the fixed request "Create an ambient music
    track" when there is none or when it is blank. *)
Theorem custom_prompt_is_trimmed (settings : GenerationSettings) :
  createCustomPrompt settings <> "" /\
  (forall c, head (list_ascii_of_string (createCustomPrompt settings)) = Some c ->
             JS.is_space c = false) /\
  (forall c, last (list_ascii_of_string (createCustomPrompt settings)) = Some c ->
             JS.is_space c = false) /\
  (createCustomPrompt settings = "Create an ambient music track" \/
   exists p, customPrompt settings = Some p /\
             createCustomPrompt settings = JS.trim p).
Proof.
  assert ("Create an ambient music track" <> "" /\
          (forall c, head (list_ascii_of_string "Create an ambient music track")
                     = Some c -> JS.is_space c = false) /\
          (forall c, last (list_ascii_of_string "Create an ambient music track")
                     = Some c -> JS.is_space c = false)) as Hdefault.
  { split; [discriminate|]. split; intros c; vm_compute; now intros [= <-]. }
  unfold createCustomPrompt.
  destruct (customPrompt settings) as [p|]; [|split; [|split; [|split]];
                                              try apply Hdefault; now left].
  destruct (String.eqb (JS.trim p) "") eqn:E;
    [split; [|split; [|split]]; try apply Hdefault; now left|].
  apply String.eqb_neq in E. destruct (trim_is_trimmed p) as [Hh Hl].
  split; [exact E|]. split; [exact Hh|]. split; [exact Hl|].
  right. eauto.
Qed.

End PromptReading.

(** ** The genetic generator *)

Section GeneticGenerator.
Import Comp AdvancedMusicGenerator.
Local Open Scope string_scope.
Local Open Scope Z_scope.
Local Open Scope list_scope.

Lemma rng_ok_at (g : Rng) (n : nat) :
  rng_ok g -> (0 <= draws g n)%Q /\ (draws g n < 1)%Q.
Proof. intros Hg. apply Hg. Qed.

Lemma best_of_fold (rest : list MusicGenome) :
  forall first,
    let best :=
      foldl (fun best current =>
               if Qlt_le_dec (fitness best) (fitness current)
               then current else best) first rest in
    best ∈ first :: rest /\
    (fitness first <= fitness best)%Q /\
    Forall (fun g => (fitness g <= fitness best)%Q) rest.
Proof.
  induction rest as [|x rest IH]; intros first; cbv zeta.
  - cbn [foldl]. split; [apply list_elem_of_here|].
    split; [apply Qle_refl | constructor].
  - cbn [foldl].
    specialize (IH (if Qlt_le_dec (fitness first) (fitness x) then x else first)).
    cbv zeta in IH. destruct IH as (Hin & Hle & Hall).
    set (best := foldl _ _ rest) in *.
    destruct (Qlt_le_dec (fitness first) (fitness x)) as [Hlt | Hge].
    + split.
      { apply elem_of_cons in Hin as [-> | Hin];
          [apply list_elem_of_further, list_elem_of_here
          | now apply list_elem_of_further, list_elem_of_further]. }
      split; [Lqa.lra|]. constructor; assumption.
    + split.
      { apply elem_of_cons in Hin as [-> | Hin];
          [apply list_elem_of_here
          | now apply list_elem_of_further, list_elem_of_further]. }
      split; [exact Hle|]. constructor; [Lqa.lra | assumption].
Qed.

(** X26.  [getBestGenome] returns a fittest genome of the population: a
    member whose fitness no other member exceeds; on an empty population
    it throws a [TypeError]. *)
Theorem best_genome_is_a_fittest_member (population : list MusicGenome) :
  (population = [] -> getBestGenome population = JS.Raise JS.TypeError) /\
  (population <> [] ->
   exists best,
     getBestGenome population = JS.Return best /\
     best ∈ population /\
     Forall (fun g => (fitness g <= fitness best)%Q) population).
Proof.
  split; [now intros ->|].
  intros Hne. destruct population as [|first rest]; [contradiction|].
  destruct (best_of_fold rest first) as (Hin & Hle & Hall).
  eexists. split; [reflexivity|]. split; [exact Hin|].
  constructor; assumption.
Qed.

Lemma pickGenome_member (population : list MusicGenome) (g : Rng) :
  population <> [] -> rng_ok g ->
  exists picked,
    pickGenome population g = Ok (Some picked) (mkRng (draws g) (S (cursor g))) /\
    picked ∈ population.
Proof.
  intros Hne Hg. destruct (Hg (cursor g)) as [Hr0 Hr1].
  assert (0 < Z.of_nat (length population)) as Hlen
    by (destruct population; [contradiction | cbn [length]; lia]).
  pose proof (floor_random_range _ _ Hr0 Hr1 Hlen) as Hi.
  unfold pickGenome. rewrite (bind_Ok random _ g _ _ eq_refl).
  cbn [mret M_ret]. set (i := JS.floor _) in *.
  unfold JS.index. destruct (i <? 0) eqn:E; [apply Z.ltb_lt in E; lia|].
  destruct (population !! Z.to_nat i) as [picked|] eqn:Hp.
  - exists picked. split; [reflexivity|]. eapply list_elem_of_lookup_2. exact Hp.
  - apply lookup_ge_None in Hp. lia.
Qed.

Lemma tournamentRound_member (population : list MusicGenome)
    (best : MusicGenome) (g : Rng) :
  population <> [] -> rng_ok g -> best ∈ population ->
  exists winner,
    tournamentRound population (Some best) g
    = Ok (Some winner) (mkRng (draws g) (S (cursor g))) /\
    winner ∈ population /\ (fitness best <= fitness winner)%Q.
Proof.
  intros Hne Hg Hbest.
  destruct (pickGenome_member population g Hne Hg) as (c & Hc & Hin).
  unfold tournamentRound. rewrite (bind_Ok _ _ _ _ _ Hc).
  cbn [defined]. unfold mbind, M_bind, mret, M_ret.
  destruct (Qlt_le_dec (fitness best) (fitness c)) as [Hlt | Hge];
    eexists; (split; [reflexivity|]); split;
    [exact Hin | Lqa.lra | exact Hbest | Lqa.lra].
Qed.

(** X27.  [tournamentSelection] draws three members of the population and
    returns the fittest of them: over a population that is not empty and
    draws in [[0,1)] it returns a member, at least as fit as the first one
    picked, after exactly three draws; over an empty population it throws a
    [TypeError]. *)
Theorem tournament_returns_a_member (population : list MusicGenome) (g : Rng) :
  (population = [] -> tournamentSelection population g = Throw JS.TypeError) /\
  (population <> [] -> rng_ok g ->
   exists first winner,
     pickGenome population g
     = Ok (Some first) (mkRng (draws g) (S (cursor g))) /\
     tournamentSelection population g
     = Ok (Some winner) (mkRng (draws g) (S (S (S (cursor g))))) /\
     winner ∈ population /\ (fitness first <= fitness winner)%Q).
Proof.
  split.
  { intros ->. unfold tournamentSelection, tournamentRound, pickGenome.
    unfold mbind, M_bind, mret, M_ret, random. cbn [draws cursor].
    unfold JS.index. repeat destruct (_ <? 0); reflexivity. }
  intros Hne Hg.
  destruct (pickGenome_member population g Hne Hg) as (first & Hfirst & Hin).
  assert (forall n, rng_ok (mkRng (draws g) n)) as Hg' by (intros n k; apply Hg).
  destruct (tournamentRound_member population first _ Hne (Hg' (S (cursor g))) Hin)
    as (second & Hsecond & Hin2 & Hle2).
  destruct (tournamentRound_member population second _ Hne
              (Hg' (S (S (cursor g)))) Hin2)
    as (winner & Hwinner & Hin3 & Hle3).
  cbn [draws cursor] in Hsecond, Hwinner.
  exists first, winner. split; [exact Hfirst|].
  split.
  - unfold tournamentSelection.
    rewrite (bind_Ok _ _ _ _ _ Hfirst), (bind_Ok _ _ _ _ _ Hsecond).
    exact Hwinner.
  - split; [exact Hin3 | Lqa.lra].
Qed.

Lemma blend_between (a b : Q) :
  (Qmin a b <= (a + b) / 2)%Q /\ ((a + b) / 2 <= Qmax a b)%Q.
Proof.
  split.
  - apply Qle_shift_div_l; [reflexivity|].
    pose proof (Q.le_min_l a b). pose proof (Q.le_min_r a b). Lqa.lra.
  - apply Qle_shift_div_r; [reflexivity|].
    pose proof (Q.le_max_l a b). pose proof (Q.le_max_r a b). Lqa.lra.
Qed.

(** X28.  [crossover] cuts the chord progressions of the parents at one
    point and blends their numeric genes: with draws in [[0,1)] and parents
    whose progressions have the same length, the child keeps that length,
    takes its chords from the first parent up to the crossover point and
    from the second parent after it, has a reverb, a bass level and a
    rhythm density between those of its parents, inherits its melody
    pattern from one of them, starts with fitness 0 in the next generation,
    and costs five draws. *)
Theorem crossover_recombines_the_parents (parent1 parent2 : MusicGenome)
    (generation : Z) (g : Rng) :
  rng_ok g ->
  length (chordProgression parent1) = length (chordProgression parent2) ->
  exists child (k : nat),
    crossover parent1 parent2 generation g
    = Ok child (mkRng (draws g) (5 + cursor g)) /\
    (k <= length (chordProgression parent1))%nat /\
    chordProgression child
    = take k (chordProgression parent1) ++ drop k (chordProgression parent2) /\
    length (chordProgression child) = length (chordProgression parent1) /\
    (melodyPattern child = melodyPattern parent1 \/
     melodyPattern child = melodyPattern parent2) /\
    (Qmin (reverb (effectsGenetics parent1)) (reverb (effectsGenetics parent2))
     <= reverb (effectsGenetics child)
     <= Qmax (reverb (effectsGenetics parent1))
             (reverb (effectsGenetics parent2)))%Q /\
    (Qmin (level (basslineGenetics parent1)) (level (basslineGenetics parent2))
     <= level (basslineGenetics child)
     <= Qmax (level (basslineGenetics parent1))
             (level (basslineGenetics parent2)))%Q /\
    (Qmin (density (rhythmGenetics parent1)) (density (rhythmGenetics parent2))
     <= density (rhythmGenetics child)
     <= Qmax (density (rhythmGenetics parent1))
             (density (rhythmGenetics parent2)))%Q /\
    fitness child = 0%Q /\
    AdvancedMusicGenerator.generation child = generation + 1.
Proof.
  intros Hg Hlen. destruct (Hg (cursor g)) as [Hr0 Hr1].
  set (n := length (chordProgression parent1)) in *.
  assert (0 <= JS.floor (draws g (cursor g) * inject_Z (Z.of_nat n)) <= Z.of_nat n)
    as Hcp.
  { destruct n as [|n'].
    - change (inject_Z (Z.of_nat 0)) with 0%Q.
      unfold JS.floor. rewrite (Qfloor_comp _ 0) by ring.
      change (Qfloor 0) with 0. lia.
    - pose proof (floor_random_range _ (Z.of_nat (S n')) Hr0 Hr1 ltac:(lia)). lia. }
  set (cp := JS.floor _) in *.
  eexists _, (Z.to_nat cp).
  split.
  { unfold crossover, blendBasslineGenetics. fold n. fold cp.
    unfold mbind, M_bind, mret, M_ret, random. cbn [draws cursor]. reflexivity. }
  cbn [chordProgression melodyPattern effectsGenetics basslineGenetics
       rhythmGenetics fitness AdvancedMusicGenerator.generation
       blendEffectsGenetics blendRhythmGenetics reverb level density].
  unfold JS.slice_to, JS.slice_from.
  assert ((cp <? 0) = false) as E by (apply Z.ltb_ge; lia).
  unfold cp in *. rewrite !E.
  split; [lia|]. split; [reflexivity|].
  split; [rewrite length_app, length_take, length_drop; lia|].
  split; [destruct (Qlt_le_dec _ _); tauto|].
  split; [apply blend_between|].
  split; [apply blend_between|].
  split; [apply blend_between|].
  split; reflexivity.
Qed.

Lemma crossover_recombines_the_parents_witness :
  let parent1 :=
    mkGenome [mkChordInfo 0 "minor" ["add9"]; mkChordInfo 5 "minor" ["sus2"]]
      (mkMelody [0; 2; 3; 5; 7] [5 # 10] "arc" "sparse")
      (mkRhythmGenetics 30 0 0 0) (mkBassline 40 "root" 1 (1 # 10))
      (mkEffectsGenetics 80 20 0 25 30)
      (mkStructureGenetics (1 # 10) "smooth" "building" (2 # 10)) 0 0 in
  let parent2 :=
    mkGenome [mkChordInfo 0 "minor7" []; mkChordInfo 3 "major" ["sus4"]]
      (mkMelody [0; 3; 7; 10] [1%Q] "descending" "minimal")
      (mkRhythmGenetics 50 0 0 0) (mkBassline 60 "walking" 2 (1 # 10))
      (mkEffectsGenetics 90 20 0 25 30)
      (mkStructureGenetics (1 # 10) "cut" "wave" (2 # 10)) 0 0 in
  let g := constant_rng (6 # 10) in
  rng_ok g /\
  length (chordProgression parent1) = length (chordProgression parent2) /\
  exists child (k : nat),
    crossover parent1 parent2 3 g = Ok child (mkRng (draws g) (5 + cursor g)) /\
    (k <= length (chordProgression parent1))%nat /\
    chordProgression child
    = take k (chordProgression parent1) ++ drop k (chordProgression parent2) /\
    length (chordProgression child) = length (chordProgression parent1) /\
    (melodyPattern child = melodyPattern parent1 \/
     melodyPattern child = melodyPattern parent2) /\
    (Qmin (reverb (effectsGenetics parent1)) (reverb (effectsGenetics parent2))
     <= reverb (effectsGenetics child)
     <= Qmax (reverb (effectsGenetics parent1))
             (reverb (effectsGenetics parent2)))%Q /\
    (Qmin (level (basslineGenetics parent1)) (level (basslineGenetics parent2))
     <= level (basslineGenetics child)
     <= Qmax (level (basslineGenetics parent1))
             (level (basslineGenetics parent2)))%Q /\
    (Qmin (density (rhythmGenetics parent1)) (density (rhythmGenetics parent2))
     <= density (rhythmGenetics child)
     <= Qmax (density (rhythmGenetics parent1))
             (density (rhythmGenetics parent2)))%Q /\
    fitness child = 0%Q /\
    AdvancedMusicGenerator.generation child = 3 + 1.
Proof.
  intros parent1 parent2 g.
  assert (rng_ok g) as Hg by (intros n; split; vm_compute; congruence).
  split; [exact Hg|]. split; [reflexivity|].
  apply (crossover_recombines_the_parents parent1 parent2 3 g Hg). reflexivity.
Defined.

Lemma absQ_range (x y : Q) :
  (0 <= x)%Q -> (x <= 100)%Q -> (0 <= y)%Q -> (y <= 100)%Q ->
  (0 <= 1 - JS.absQ (x - y) / 100)%Q /\ (1 - JS.absQ (x - y) / 100 <= 1)%Q.
Proof.
  intros Hx0 Hx1 Hy0 Hy1.
  assert (0 <= JS.absQ (x - y) / 100 /\ JS.absQ (x - y) / 100 <= 1)%Q as [H0 H1].
  { unfold JS.absQ. destruct (Qlt_le_dec (x - y) 0); split;
      first [apply Qle_shift_div_l | apply Qle_shift_div_r];
      try reflexivity; Lqa.lra. }
  split; Lqa.lra.
Qed.

Lemma mood_alignment_range (genome : MusicGenome) (mood : string) :
  (0 <= reverb (effectsGenetics genome))%Q ->
  (reverb (effectsGenetics genome) <= 100)%Q ->
  (0 <= density (rhythmGenetics genome))%Q ->
  (density (rhythmGenetics genome) <= 100)%Q ->
  (0 <= getMoodAlignment genome mood)%Q /\ (getMoodAlignment genome mood <= 1)%Q.
Proof.
  intros Hr0 Hr1 Hd0 Hd1. unfold getMoodAlignment.
  destruct (moodMappings !! mood) as [target|] eqn:E;
    [|split; vm_compute; congruence].
  assert ((0 <= target_reverb target)%Q /\ (target_reverb target <= 100)%Q /\
          (0 <= target_density target)%Q /\ (target_density target <= 100)%Q)
    as (Ha & Hb & Hc & Hd).
  { apply elem_of_list_to_map_2 in E.
    repeat (apply elem_of_cons in E as [E | E]);
      try (injection E as _ ->; repeat split; vm_compute; congruence).
    now apply elem_of_nil in E. }
  destruct (absQ_range _ _ Hr0 Hr1 Ha Hb) as [H1 H2].
  destruct (absQ_range _ _ Hd0 Hd1 Hc Hd) as [H3 H4].
  set (a := (1 - JS.absQ (reverb (effectsGenetics genome) - target_reverb target)
                 / 100)%Q) in *.
  set (b := (1 - JS.absQ (density (rhythmGenetics genome) - target_density target)
                 / 100)%Q) in *.
  split; [apply Qle_shift_div_l | apply Qle_shift_div_r]; try reflexivity;
    Lqa.lra.
Qed.



Lemma section_duration_range (sectionName : string)
    (settings : Schema.GenerationSettings) (g : Rng) :
  rng_ok g -> (0 < Schema.pace settings)%Q ->
  exists d,
    getVariedSectionDuration sectionName settings g
    = Ok d (mkRng (draws g) (S (cursor g))) /\
    (12 * (Schema.pace settings / 85) <= d)%Q /\
    (d < 36 * (Schema.pace settings / 85))%Q.
Proof.
  intros Hg Hpace. destruct (Hg (cursor g)) as [Hr0 Hr1].
  eexists. split; [reflexivity|].
  assert (0 < Schema.pace settings / 85)%Q as Hmul
    by (apply Qlt_shift_div_l; [reflexivity | Lqa.lra]).
  set (m := (Schema.pace settings / 85)%Q) in *.
  assert ((16 <= JS.or_else (default 0 (baseDurations !! sectionName)) 16)%Q /\
          (JS.or_else (default 0 (baseDurations !! sectionName)) 16 <= 32)%Q)
    as [Hb0 Hb1].
  { destruct (baseDurations !! sectionName) as [base|] eqn:E;
      [|split; vm_compute; congruence].
    apply elem_of_list_to_map_2 in E.
    repeat (apply elem_of_cons in E as [E | E]);
      try (injection E as _ ->; split; vm_compute; congruence).
    now apply elem_of_nil in E. }
  set (base := JS.or_else _ 16) in *.
  set (r := draws g (cursor g)) in *.
  assert (Qmax 8 (base + (r - (5 # 10)) * 8) == base + (r - (5 # 10)) * 8)%Q
    as Hmax by (apply Q.max_r; Lqa.lra).
  split.
  - rewrite Hmax. Lqa.nra.
  - rewrite Hmax. Lqa.nra.
Qed.

Lemma section_intensity_range (name : string) (index total : Z) :
  0 <= index -> 0 <= total ->
  (2 # 10 <= calculateSectionIntensity name index total)%Q /\
  (calculateSectionIntensity name index total <= 1)%Q.
Proof.
  intros Hindex Htotal. unfold calculateSectionIntensity.
  assert ((2 # 10 <= JS.or_else (default 0 (intensityMap !! name)) (5 # 10))%Q)
    as Hbase.
  { destruct (intensityMap !! name) as [base|] eqn:E;
      [|vm_compute; congruence].
    apply elem_of_list_to_map_2 in E.
    repeat (apply elem_of_cons in E as [E | E]);
      try (injection E as _ ->; vm_compute; congruence).
    now apply elem_of_nil in E. }
  set (base := JS.or_else _ (5 # 10)) in *.
  assert (0 <= inject_Z index / inject_Z total)%Q as Hboost.
  { rewrite Zle_Qle in Hindex, Htotal.
    change (inject_Z 0) with 0%Q in Hindex, Htotal.
    apply Qle_lteq in Htotal as [Hpos | Hzero].
    - apply Qle_shift_div_l; [exact Hpos | Lqa.lra].
    - rewrite <- Hzero. unfold Qdiv. rewrite Qmult_comm.
      change (/ 0)%Q with 0%Q. Lqa.lra. }
  set (boost := (inject_Z index / inject_Z total)%Q) in *.
  split.
  - apply Q.min_glb; Lqa.lra.
  - apply Q.le_min_l.
Qed.

Lemma variedSections_run (settings : Schema.GenerationSettings) (total : Z)
    (names : list string) :
  (0 < Schema.pace settings)%Q -> 0 <= total ->
  forall (offset : nat) (g : Rng),
    rng_ok g ->
    exists sections,
      mapM (variedSection settings total)
           (imap (fun index name => (offset + index, name)%nat) names) g
      = Ok sections (mkRng (draws g) (length names + cursor g)) /\
      name <$> sections = names /\
      (forall i s, sections !! i = Some s ->
                   startTime s = inject_Z (Z.of_nat (offset + i) * 16)) /\
      Forall (fun s =>
                (12 * (Schema.pace settings / 85) <= duration s)%Q /\
                (duration s < 36 * (Schema.pace settings / 85))%Q /\
                (2 # 10 <= intensity s)%Q /\ (intensity s <= 1)%Q) sections.
Proof.
  intros Hpace Htotal.
  induction names as [|n names IH]; intros offset g Hg.
  - exists []. destruct g. cbn. repeat split; [intros i s; discriminate | constructor].
  - cbn [imap mapM].
    destruct (section_duration_range n settings g Hg Hpace) as (d & Hd & Hd0 & Hd1).
    assert (rng_ok (mkRng (draws g) (S (cursor g)))) as Hg' by (intros k; apply Hg).
    destruct (IH (S offset) _ Hg') as (rest & Hrest & Hnames & Hstart & Hall).
    cbn [draws cursor] in Hrest.
    assert (imap ((fun index name => ((offset + index)%nat, name)) ∘ S) names
            = imap (fun index name => ((S offset + index)%nat, name)) names) as ->.
    { apply imap_ext. intros i x _. cbn. f_equal. lia. }
    eexists (mkSectionInfo n (inject_Z (Z.of_nat (offset + 0) * 16)) d
               (calculateSectionIntensity n (Z.of_nat (offset + 0)) total) :: rest).
    assert (variedSection settings total ((offset + 0)%nat, n) g
            = Ok (mkSectionInfo n (inject_Z (Z.of_nat (offset + 0) * 16)) d
                    (calculateSectionIntensity n (Z.of_nat (offset + 0)) total))
                 (mkRng (draws g) (S (cursor g)))) as Hsection.
    { unfold variedSection. cbn [fst snd].
      rewrite (bind_Ok _ _ _ _ _ Hd). reflexivity. }
    split.
    { rewrite (bind_Ok _ _ _ _ _ Hsection), (bind_Ok _ _ _ _ _ Hrest).
      cbn [mret M_ret length]. f_equal. f_equal. lia. }
    split; [cbn [fmap list_fmap name]; now rewrite <- Hnames|].
    split.
    + intros [|i] s Hs.
      * cbn in Hs. injection Hs as <-. reflexivity.
      * cbn [lookup list_lookup] in Hs. rewrite (Hstart i s Hs).
        f_equal. f_equal. lia.
    + constructor; [|exact Hall].
      cbn [duration intensity].
      destruct (section_intensity_range n (Z.of_nat (offset + 0)) total)
        as [Hi0 Hi1]; [lia | exact Htotal |].
      repeat split; assumption.
Qed.



End GeneticGenerator.
